(** * Share allocation and recurring-expense engine of api-sky-solutions

    A shallow embedding of the handlers in [routes/shares.ts],
    [routes/admin.ts], the investor flow, [routes/expenses.ts], the
    [Expense] model hook and the hourly task of [index.ts], together with
    the properties the specification states about them. *)

From Stdlib Require Import ZArith QArith Qround List String Bool Lia.
Import ListNotations.

Local Open Scope Z_scope.

(* ================================================================== *)
(** ** The host [Date] object

    [calculateNextDueDate] only uses [new Date(d)], [getDate]/[setDate],
    [getMonth]/[setMonth] and [getFullYear]/[setFullYear].  A [Date] is its
    time value, a number of milliseconds, here a [Z], or is an Invalid
    Date.  The accessors work on local time; the model takes the host's
    offset to be constant, so that a time value can be read as local civil
    time, and follows the day and month arithmetic of ECMA-262 (Day,
    TimeWithinDay, DayFromYear, YearFromTime, MonthFromTime, DateFromTime,
    MakeDay, MakeDate, TimeClip).  The range check of TimeClip is made on
    that reading, which is exact for a host on UTC and off by the host's
    offset, a few hours in 8.64e15 ms, otherwise. *)

Module JSDate.

Definition msPerDay : Z := 86400000.

Definition Day (t : Z) : Z := t / msPerDay.
Definition TimeWithinDay (t : Z) : Z := t mod msPerDay.

Definition isLeap (y : Z) : bool :=
  ((y mod 4 =? 0) && negb (y mod 100 =? 0)) || (y mod 400 =? 0).

Definition DaysInYear (y : Z) : Z := if isLeap y then 366 else 365.

Definition DayFromYear (y : Z) : Z :=
  365 * (y - 1970) + (y - 1969) / 4 - (y - 1901) / 100 + (y - 1601) / 400.

(** The year of a day number: the largest [y] with [DayFromYear y <= d].
    400 years have 146097 days, which gives an estimate that is off by one
    at most. *)
Definition YearFromDay (d : Z) : Z :=
  let y0 := 1970 + (400 * d) / 146097 in
  if DayFromYear (y0 + 1) <=? d then y0 + 1
  else if DayFromYear y0 <=? d then y0
  else y0 - 1.

Definition YearFromTime (t : Z) : Z := YearFromDay (Day t).

Definition InLeapYear (t : Z) : Z := if isLeap (YearFromTime t) then 1 else 0.

Definition DayWithinYear (t : Z) : Z := Day t - DayFromYear (YearFromTime t).

(** Day number, within its year, of the first day of month [m] (0..11). *)
Definition monthStart (m leap : Z) : Z :=
  if m =? 0 then 0
  else if m =? 1 then 31
  else if m =? 2 then 59 + leap
  else if m =? 3 then 90 + leap
  else if m =? 4 then 120 + leap
  else if m =? 5 then 151 + leap
  else if m =? 6 then 181 + leap
  else if m =? 7 then 212 + leap
  else if m =? 8 then 243 + leap
  else if m =? 9 then 273 + leap
  else if m =? 10 then 304 + leap
  else 334 + leap.

Definition monthOfYearDay (dwy leap : Z) : Z :=
  if dwy <? 31 then 0
  else if dwy <? 59 + leap then 1
  else if dwy <? 90 + leap then 2
  else if dwy <? 120 + leap then 3
  else if dwy <? 151 + leap then 4
  else if dwy <? 181 + leap then 5
  else if dwy <? 212 + leap then 6
  else if dwy <? 243 + leap then 7
  else if dwy <? 273 + leap then 8
  else if dwy <? 304 + leap then 9
  else if dwy <? 334 + leap then 10
  else 11.

Definition MonthFromTime (t : Z) : Z :=
  monthOfYearDay (DayWithinYear t) (InLeapYear t).

Definition DateFromTime (t : Z) : Z :=
  DayWithinYear t - monthStart (MonthFromTime t) (InLeapYear t) + 1.

(** [MakeDay year month date]: months outside 0..11 carry into the year and
    a date outside the month carries into the neighbouring months. *)
Definition MakeDay (year month date : Z) : Z :=
  let ym := year + month / 12 in
  let mn := month mod 12 in
  DayFromYear ym + monthStart mn (if isLeap ym then 1 else 0) + date - 1.

Definition MakeDate (day time : Z) : Z := day * msPerDay + time.

(** A [Date] object: its time value, or [None] for an Invalid Date, whose
    time value is [NaN]. *)
Definition Date : Type := option Z.

(** A time value lies within 100,000,000 days of the epoch; [TimeClip]
    turns anything beyond into [NaN]. *)
Definition maxTime : Z := 8640000000000000.

Definition TimeClip (t : Z) : Date :=
  if Z.abs t <=? maxTime then Some t else None.

(** [new Date(d)] for a [Date] [d] with time value [t]. *)
Definition newDate (t : Z) : Date := TimeClip t.

Definition getDate (t : Z) : Z := DateFromTime t.
Definition getMonth (t : Z) : Z := MonthFromTime t.
Definition getFullYear (t : Z) : Z := YearFromTime t.

(** The setters, on a valid [Date] with time value [t]: the new time value
    goes through [TimeClip], so the object may end up invalid. *)
Definition setDate (t dt : Z) : Date :=
  TimeClip (MakeDate (MakeDay (YearFromTime t) (MonthFromTime t) dt) (TimeWithinDay t)).

Definition setMonth (t m : Z) : Date :=
  TimeClip (MakeDate (MakeDay (YearFromTime t) m (DateFromTime t)) (TimeWithinDay t)).

Definition setFullYear (t y : Z) : Date :=
  TimeClip (MakeDate (MakeDay y (MonthFromTime t) (DateFromTime t)) (TimeWithinDay t)).

(** Civil date to time value: midnight of [d] in month [m] (1..12) of [y]. *)
Definition ymd (y m d : Z) : Z := MakeDate (MakeDay y (m - 1) d) 0.

Definition DaysInMonth (y m : Z) : Z :=
  if m =? 11 then 31
  else monthStart (m + 1) (if isLeap y then 1 else 0)
       - monthStart m (if isLeap y then 1 else 0).

End JSDate.

(* ================================================================== *)
(** ** Documents, collections and replies *)

Definition ObjectId := nat.

(** A collection is the list of its documents in insertion order.
    [Model.create] stores the new document under an identifier no stored
    document has. *)
Definition freshId (ids : list ObjectId) : ObjectId := S (list_max ids).

(** What a handler sends back: [res.json] / [res.status(201).json] on
    success, otherwise the status code and which message was sent. *)
Inductive Failure : Type :=
  | InvalidRequestedShares      (* "Invalid requested shares" *)
  | InvalidShareValue           (* "Invalid share value" *)
  | BusinessNotFound            (* "Business not found", "... or not active" *)
  | OnlyPublicListings          (* "Can only update public listings" *)
  | OnlyRemaining (n : Z)       (* `Only ${n} shares remaining` *)
  | MinimumShares (n : Z)       (* `Minimum shares per request is ${n}` *)
  | AlreadyPendingRequest       (* "You already have a pending share request for this business" *)
  | ShareRequestNotFound        (* "Share request not found" *)
  | AlreadyProcessed            (* "Share request has already been processed" *)
  | ExceedsRequested            (* "Approved shares cannot exceed requested shares" *)
  | PaymentMethodRequired       (* "Payment method is required" *)
  | ExpenseNotFound             (* "Expense not found" *)
  | Thrown.                     (* the catch block: error.message *)

Inductive Response : Type :=
  | Sent (status : Z)
  | Failed (status : Z) (why : Failure).

(* ================================================================== *)
(** ** Numbers

    Share values and amounts are host Numbers, IEEE 754 doubles, and a
    product of two of them is the exact product rounded to the nearest
    double, a tie going to the even significand.  A Number is modelled as
    the rational it equals, and a rational that is not a double stands for
    the double nearest to it.  Rounding keeps 53 significant bits; the
    exponent range of a double is not modelled (magnitudes beyond 2^1023
    and below 2^-1022). *)

Module Number.

(** [n / d] rounded to an integer, a tie going to the even neighbour. *)
Definition roundTiesToEven (n d : Z) : Z :=
  let f := n / d in
  match 2 * (n mod d) ?= d with
  | Lt => f
  | Gt => f + 1
  | Eq => if Z.even f then f else f + 1
  end.

(** The significand of the positive rational [n / d] at the binary
    exponent [e]: [n / (d * 2^e)], rounded. *)
Definition significand (n d e : Z) : Z :=
  roundTiesToEven (n * 2 ^ Z.max 0 (- e)) (d * 2 ^ Z.max 0 e).

(** The exponent [e] at which [2^52 <= n / (d * 2^e) < 2^53]. *)
Definition exponentOf (n d : Z) : Z :=
  let e0 := Z.log2 n - Z.log2 d - 52 in
  let N := n * 2 ^ Z.max 0 (- e0) in
  let D := d * 2 ^ Z.max 0 e0 in
  if 2 ^ 53 * D <=? N then e0 + 1
  else if 2 ^ 52 * D <=? N then e0
  else e0 - 1.

(** [m * 2^e] *)
Definition scale (m e : Z) : Q :=
  if 0 <=? e then inject_Z (m * 2 ^ e) else Qmake m (Z.to_pos (2 ^ (- e))).

Definition roundPositive (n d : positive) : Q :=
  let e := exponentOf (Z.pos n) (Z.pos d) in
  scale (significand (Z.pos n) (Z.pos d) e) e.

(** The double nearest to [q], in lowest terms. *)
Definition toNumber (q : Q) : Q :=
  Qred (match Qnum q with
        | 0 => 0
        | Z.pos n => roundPositive n (Qden q)
        | Z.neg n => - roundPositive n (Qden q)
        end).

(** [a * b] *)
Definition times (a b : Q) : Q := toNumber (toNumber a * toNumber b).

End Number.

(* ================================================================== *)
(** ** Share allocation: models

    The model takes share counts to be whole numbers: [total_shares],
    [remaining_shares], [requested_shares] and a supplied
    [approved_shares] are integers. *)

Module Shares.

Inductive BusinessStatus := b_pending | b_in_review | b_approved | b_rejected | b_active.
Inductive BusinessType := submission | public.

Record Business : Type := mkBusiness {
  b_id : ObjectId;
  entrepreneur_id : option ObjectId;
  total_shares : Z;
  remaining_shares : Z;
  share_value : Q;
  minimum_shares_per_request : option Z;
  b_status : BusinessStatus;
  b_type : BusinessType
}.

Inductive Status := pending | approved | rejected.

Record ShareRequest : Type := mkShareRequest {
  sr_id : ObjectId;
  investor_id : ObjectId;
  business_id : ObjectId;
  requested_shares : Z;
  sr_share_value : Q;
  total_amount : Q;
  sr_status : Status;
  rejection_reason : option string
}.

Record Investment : Type := mkInvestment {
  inv_id : ObjectId;
  inv_investor_id : ObjectId;
  inv_business_id : ObjectId;
  amount : Q;
  inv_status : Status
}.

Record Notification : Type := mkNotification {
  user_id : ObjectId;
  n_type : string;
  title : string;
  related_id : ObjectId
}.

Record Store : Type := mkStore {
  businesses : list Business;
  shareRequests : list ShareRequest;
  investments : list Investment;
  notifications : list Notification
}.

Definition status_eqb (a b : Status) : bool :=
  match a, b with
  | pending, pending | approved, approved | rejected, rejected => true
  | _, _ => false
  end.

Definition isPublic (b : Business) : bool :=
  match b_type b with public => true | submission => false end.

Definition isActive (b : Business) : bool :=
  match b_status b with b_active => true | _ => false end.

(** *** Collection primitives *)

Definition Business_findById (st : Store) (id : ObjectId) : option Business :=
  find (fun b => Nat.eqb (b_id b) id) (businesses st).

Definition ShareRequest_findById (st : Store) (id : ObjectId) : option ShareRequest :=
  find (fun r => Nat.eqb (sr_id r) id) (shareRequests st).

(** [doc.save()] on a document obtained from [findById]: the stored
    document with that [_id] is replaced.  Stored documents satisfy their
    schema, and neither handler below writes a value a validator of
    [Business] or [ShareRequest] refuses, so these saves do not throw. *)
Definition Business_save (b : Business) (st : Store) : Store :=
  mkStore (map (fun x => if Nat.eqb (b_id x) (b_id b) then b else x) (businesses st))
          (shareRequests st) (investments st) (notifications st).

Definition ShareRequest_save (r : ShareRequest) (st : Store) : Store :=
  mkStore (businesses st)
          (map (fun x => if Nat.eqb (sr_id x) (sr_id r) then r else x) (shareRequests st))
          (investments st) (notifications st).

(** [ShareRequest.create]: [requested_shares] has [min: 1], [share_value]
    and [total_amount] have [min: 0]; a refused document makes [create]
    throw.  The status takes its default, [pending]. *)
Definition ShareRequest_create (investor business : ObjectId)
    (requested : Z) (value total : Q) (st : Store) : option (ShareRequest * Store) :=
  if (1 <=? requested) && Qle_bool 0 value && Qle_bool 0 total then
    let r := mkShareRequest (freshId (map sr_id (shareRequests st)))
                            investor business requested value total pending None in
    Some (r, mkStore (businesses st) (shareRequests st ++ [r])
                     (investments st) (notifications st))
  else None.

(** [Investment.create]: [amount] has [min: 0]. *)
Definition Investment_create (investor business : ObjectId) (amt : Q) (s : Status)
    (st : Store) : option (Investment * Store) :=
  if Qle_bool 0 amt then
    let i := mkInvestment (freshId (map inv_id (investments st))) investor business amt s in
    Some (i, mkStore (businesses st) (shareRequests st)
                     (investments st ++ [i]) (notifications st))
  else None.

Definition Notification_create (n : Notification) (st : Store) : Store :=
  mkStore (businesses st) (shareRequests st) (investments st) (notifications st ++ [n]).

Definition notifyEntrepreneur (b : Business) (ty ttl : string) (related : ObjectId)
    (st : Store) : Store :=
  match entrepreneur_id b with
  | Some e => Notification_create (mkNotification e ty ttl related) st
  | None => st
  end.

(** *** [validateShareRequest] (middleware/validate.ts)

    The body carries [requested_shares] (a JSON integer here; the
    middleware refuses anything else) and [share_value]. *)
Definition validateShareRequest (requested : Z) (body_share_value : option Q)
  : option Failure :=
  if requested <=? 0 then Some InvalidRequestedShares
  else match body_share_value with
       | None => Some InvalidShareValue
       | Some v => if Qle_bool v 0 then Some InvalidShareValue else None
       end.

(** *** POST /shares/:businessId/request (routes/shares.ts) *)
Definition requestShares (st : Store) (investorId businessId : ObjectId)
    (requested : Z) (body_share_value : option Q) : Response * Store :=
  match validateShareRequest requested body_share_value with
  | Some e => (Failed 400 e, st)
  | None =>
    match Business_findById st businessId with
    | None => (Failed 404 BusinessNotFound, st)
    | Some business =>
      if negb (isPublic business) then (Failed 404 BusinessNotFound, st)
      else if requested >? remaining_shares business
      then (Failed 400 (OnlyRemaining (remaining_shares business)), st)
      else
        let total := Number.times (inject_Z requested) (share_value business) in
        match ShareRequest_create investorId businessId requested
                                  (share_value business) total st with
        | None => (Failed 500 Thrown, st)
        | Some (shareRequest, st1) =>
          (Sent 201,
           notifyEntrepreneur business "share_request" "Share Request"
                              (sr_id shareRequest) st1)
        end
    end
  end.

(** *** POST /investor/businesses/:id/request-shares (investor flow) *)
Definition hasPendingRequest (st : Store) (investor business : ObjectId) : bool :=
  existsb (fun r => Nat.eqb (investor_id r) investor
                    && Nat.eqb (business_id r) business
                    && status_eqb (sr_status r) pending)
          (shareRequests st).

Definition belowMinimum (business : Business) (requested : Z) : bool :=
  match minimum_shares_per_request business with
  | Some m => negb (m =? 0) && (requested <? m)
  | None => false
  end.

Definition minimumOf (business : Business) : Z :=
  match minimum_shares_per_request business with Some m => m | None => 0 end.

Definition investorRequestShares (st : Store) (investor businessId : ObjectId)
    (requested : Z) : Response * Store :=
  match find (fun b => Nat.eqb (b_id b) businessId && isActive b && isPublic b)
             (businesses st) with
  | None => (Failed 404 BusinessNotFound, st)
  | Some business =>
    if belowMinimum business requested
    then (Failed 400 (MinimumShares (minimumOf business)), st)
    else if hasPendingRequest st investor businessId
    then (Failed 400 AlreadyPendingRequest, st)
    else
      let total := Number.times (inject_Z requested) (share_value business) in
      match ShareRequest_create investor businessId requested
                                (share_value business) total st with
      | None => (Failed 500 Thrown, st)
      | Some (_, st1) => (Sent 201, st1)
      end
  end.

(** *** PUT /shares/:shareRequestId/approve (routes/shares.ts)

    [approved_shares || shareRequest.requested_shares]: an omitted value
    and a zero both fall through to the requested count. *)
Definition orRequested (approved_shares : option Z) (requested : Z) : Z :=
  match approved_shares with
  | None => requested
  | Some n => if n =? 0 then requested else n
  end.

Definition setStatus (r : ShareRequest) (s : Status) (reason : option string)
  : ShareRequest :=
  mkShareRequest (sr_id r) (investor_id r) (business_id r) (requested_shares r)
                 (sr_share_value r) (total_amount r) s reason.

Definition setRemaining (b : Business) (n : Z) : Business :=
  mkBusiness (b_id b) (entrepreneur_id b) (total_shares b) n (share_value b)
             (minimum_shares_per_request b) (b_status b) (b_type b).

Definition approveShareRequest (st : Store) (shareRequestId : ObjectId)
    (approved_shares : option Z) : Response * Store :=
  match ShareRequest_findById st shareRequestId with
  | None => (Failed 404 ShareRequestNotFound, st)
  | Some shareRequest =>
    if negb (status_eqb (sr_status shareRequest) pending)
    then (Failed 400 AlreadyProcessed, st)
    else
      let finalApprovedShares :=
        orRequested approved_shares (requested_shares shareRequest) in
      if finalApprovedShares >? requested_shares shareRequest
      then (Failed 400 ExceedsRequested, st)
      else
        match Business_findById st (business_id shareRequest) with
        | None => (Failed 404 BusinessNotFound, st)
        | Some business =>
          if finalApprovedShares >? remaining_shares business
          then (Failed 400 (OnlyRemaining (remaining_shares business)), st)
          else
            let investmentAmount :=
              Number.times (inject_Z finalApprovedShares)
                           (sr_share_value shareRequest) in
            let st1 :=
              ShareRequest_save
                (setStatus shareRequest approved (rejection_reason shareRequest)) st in
            let st2 :=
              Business_save
                (setRemaining business (remaining_shares business - finalApprovedShares))
                st1 in
            match Investment_create (investor_id shareRequest)
                                    (business_id shareRequest)
                                    investmentAmount approved st2 with
            | None => (Failed 500 Thrown, st2)
            | Some (investment, st3) =>
              let st4 :=
                Notification_create
                  (mkNotification (investor_id shareRequest) "share_approved"
                                  "Share Request Approved" (inv_id investment)) st3 in
              (Sent 200,
               notifyEntrepreneur business "share_approved" "Share Request Approved"
                                  (inv_id investment) st4)
            end
        end
  end.

(** The earlier revision of the same handler: no status guard, no capacity
    check and no investment.  [approved_shares] is a supplied integer. *)
Definition approveShareRequest_v1 (st : Store) (shareRequestId : ObjectId)
    (approved_shares : Z) : Response * Store :=
  match ShareRequest_findById st shareRequestId with
  | None => (Failed 404 ShareRequestNotFound, st)
  | Some shareRequest =>
    if approved_shares >? requested_shares shareRequest
    then (Failed 400 ExceedsRequested, st)
    else
      match Business_findById st (business_id shareRequest) with
      | None => (Failed 404 BusinessNotFound, st)
      | Some business =>
        let st1 :=
          ShareRequest_save
            (setStatus shareRequest approved (rejection_reason shareRequest)) st in
        let st2 :=
          Business_save
            (setRemaining business (remaining_shares business - approved_shares)) st1 in
        (Sent 200,
         Notification_create
           (mkNotification (investor_id shareRequest) "share_approved"
                           "Share Request Approved" (sr_id shareRequest)) st2)
      end
  end.

(** *** PUT /shares/:shareRequestId/reject (routes/shares.ts) *)
Definition rejectShareRequest (st : Store) (shareRequestId : ObjectId)
    (reason : option string) : Response * Store :=
  match ShareRequest_findById st shareRequestId with
  | None => (Failed 404 ShareRequestNotFound, st)
  | Some shareRequest =>
    let st1 := ShareRequest_save (setStatus shareRequest rejected reason) st in
    (Sent 200,
     Notification_create
       (mkNotification (investor_id shareRequest) "share_approved"
                       "Share Request Rejected" (sr_id shareRequest)) st1)
  end.

(** *** PUT /admin/businesses/public/:id and PUT /admin/businesses/:id

    The form fields that reach the share inventory.  A supplied
    [total_shares] is the integer [Number.parseInt] reads from a non-empty
    field. *)
Record BusinessUpdate : Type := mkBusinessUpdate {
  u_total_shares : option Z;
  u_share_value : option Q;
  u_minimum_shares_per_request : option Z;
  u_status : option BusinessStatus
}.

Definition setTotal (b : Business) (n : Z) : Business :=
  mkBusiness (b_id b) (entrepreneur_id b) n (remaining_shares b) (share_value b)
             (minimum_shares_per_request b) (b_status b) (b_type b).

Definition applyOther (u : BusinessUpdate) (b : Business) : Business :=
  mkBusiness (b_id b) (entrepreneur_id b) (total_shares b) (remaining_shares b)
             (match u_share_value u with Some v => v | None => share_value b end)
             (match u_minimum_shares_per_request u with
              | Some m => Some m
              | None => minimum_shares_per_request b
              end)
             (match u_status u with Some s => s | None => b_status b end)
             (b_type b).

(** The statements of the [if (total_shares)] block, in their order: the
    new total is stored first, and the ratio is taken against
    [business.total_shares] as it then reads. *)
Definition rescale (business : Business) (newTotalShares : Z) : Business :=
  let business1 := setTotal business newTotalShares in
  if total_shares business1 >? 0 then
    let ratio := (inject_Z newTotalShares / inject_Z (total_shares business1))%Q in
    setRemaining business1 (Qfloor (inject_Z (remaining_shares business1) * ratio))
  else
    setRemaining business1 newTotalShares.

Definition updatePublicBusiness (st : Store) (id : ObjectId) (u : BusinessUpdate)
  : Response * Store :=
  match Business_findById st id with
  | None => (Failed 404 BusinessNotFound, st)
  | Some business =>
    if negb (isPublic business) then (Failed 400 OnlyPublicListings, st)
    else
      let business1 :=
        match u_total_shares u with
        | Some n => rescale business n
        | None => business
        end in
      (Sent 200, Business_save (applyOther u business1) st)
  end.

Definition updateBusiness (st : Store) (id : ObjectId) (u : BusinessUpdate)
  : Response * Store :=
  match Business_findById st id with
  | None => (Failed 404 BusinessNotFound, st)
  | Some business =>
    if negb (isPublic business) then (Failed 400 OnlyPublicListings, st)
    else
      let business1 :=
        match u_total_shares u with
        | Some n => setTotal business n
        | None => business
        end in
      (Sent 200, Business_save (applyOther u business1) st)
  end.

(** The inventory bound of the data model. *)
Definition sharesBounded (b : Business) : Prop :=
  0 <= remaining_shares b <= total_shares b.

End Shares.

(* ================================================================== *)
(** ** Recurring expenses: model, hook, handlers and the hourly task *)

Module Expenses.

Import JSDate.

Inductive ExpenseType := one_time | recursive.
Inductive Priority := high | medium | low.
Inductive Status := active | paid | pending | overdue | stopped.
Inductive PaymentMethod := cash | credit_card | bank_transfer | check.

Record Expense : Type := mkExpense {
  _id : ObjectId;
  name : string;
  category : string;
  amount : Q;
  type : ExpenseType;
  priority : Priority;
  due_date : Z;
  paid_date : option Z;
  description : option string;
  payment_method : option PaymentMethod;
  status : Status;
  frequency : option string;
  frequency_value : option Z;
  parent_id : option ObjectId;
  is_active : bool;
  created_by : ObjectId
}.

Definition status_eqb (a b : Status) : bool :=
  match a, b with
  | active, active | paid, paid | pending, pending
  | overdue, overdue | stopped, stopped => true
  | _, _ => false
  end.

Definition isRecursive (e : Expense) : bool :=
  match type e with recursive => true | one_time => false end.

Definition withStatus (e : Expense) (s : Status) : Expense :=
  mkExpense (_id e) (name e) (category e) (amount e) (type e) (priority e)
            (due_date e) (paid_date e) (description e) (payment_method e) s
            (frequency e) (frequency_value e) (parent_id e) (is_active e)
            (created_by e).

Definition withId (e : Expense) (i : ObjectId) : Expense :=
  mkExpense i (name e) (category e) (amount e) (type e) (priority e)
            (due_date e) (paid_date e) (description e) (payment_method e)
            (status e) (frequency e) (frequency_value e) (parent_id e)
            (is_active e) (created_by e).

(** *** [calculateNextDueDate] (index.ts and routes/expenses.ts, same text)

    [frequencyValue || 1]: an absent value and a zero both give 1.  The
    result is the [Date] object [nextDate], which a setter may have made
    invalid. *)
Definition orOne (frequencyValue : option Z) : Z :=
  match frequencyValue with
  | None => 1
  | Some n => if n =? 0 then 1 else n
  end.

Definition calculateNextDueDate (currentDueDate : Z) (frequency : string)
    (frequencyValue : option Z) : Date :=
  match newDate currentDueDate with
  | None => None
  | Some nextDate =>
    if String.eqb frequency "days" then
      setDate nextDate (getDate nextDate + orOne frequencyValue)
    else if String.eqb frequency "month" then
      setMonth nextDate (getMonth nextDate + 1)
    else if String.eqb frequency "quarter" then
      setMonth nextDate (getMonth nextDate + 3)
    else if String.eqb frequency "half" then
      setMonth nextDate (getMonth nextDate + 6)
    else if String.eqb frequency "year" then
      setFullYear nextDate (getFullYear nextDate + 1)
    else
      setMonth nextDate (getMonth nextDate + 1)
  end.

(** *** The [pre("save")] hook of the model; [now] is [new Date()] there. *)
Definition preSave (now : Z) (this : Expense) : Expense :=
  if isRecursive this && status_eqb (status this) pending && (due_date this <? now)
  then withStatus this overdue
  else this.

(** [Expense.create(doc)].  The schema casts and validates [doc] first:
    [cast] is the document it makes of [doc], and [None] when it refuses
    (an Invalid Date for [due_date], a value outside an [enum], ...); then
    [create] throws and nothing is stored.  Otherwise the hook runs and the
    document is stored under a new identifier. *)
Definition Expense_create (now : Z) (cast : option Expense) (st : list Expense)
  : option (Expense * list Expense) :=
  match cast with
  | None => None
  | Some doc =>
    let stored := preSave now (withId doc (freshId (map _id st))) in
    Some (stored, st ++ [stored])
  end.

(** [doc.save()] on a document obtained from a query: the hook runs and
    the stored document with that [_id] is replaced. *)
Definition Expense_save (now : Z) (doc : Expense) (st : list Expense) : list Expense :=
  map (fun x => if Nat.eqb (_id x) (_id doc) then preSave now doc else x) st.

Definition Expense_findById (st : list Expense) (id : ObjectId) : option Expense :=
  find (fun e => Nat.eqb (_id e) id) st.

(** [expense.parent_id || expense._id] *)
Definition originOf (expense : Expense) : ObjectId :=
  match parent_id expense with Some p => p | None => _id expense end.

Definition parentIs (x : Expense) (p : ObjectId) : bool :=
  match parent_id x with Some q => Nat.eqb q p | None => false end.

(** The document both creation sites pass to [Expense.create], for a valid
    [nextDueDate].  Its other fields are copied from a stored document, so
    the validators accept them. *)
Definition nextOccurrenceOf (expense : Expense) (nextDueDate : Z) : Expense :=
  mkExpense 0%nat (name expense) (category expense) (amount expense) recursive
            (priority expense) nextDueDate None (description expense)
            (payment_method expense) pending (frequency expense)
            (frequency_value expense) (Some (originOf expense)) true
            (created_by expense).

(** The same document as the schema casts it: refused when [nextDueDate]
    is an Invalid Date. *)
Definition castNextOccurrence (expense : Expense) (nextDueDate : Date)
  : option Expense :=
  option_map (nextOccurrenceOf expense) nextDueDate.

(** A string is truthy when it is not empty; an [undefined] frequency
    reaches [calculateNextDueDate] as a value no [case] matches. *)
Definition truthy (s : option string) : bool :=
  match s with Some f => negb (String.eqb f "") | None => false end.

Definition frequencyArg (s : option string) : string :=
  match s with Some f => f | None => "" end.

(** The [enum] of [payment_method]. *)
Definition paymentMethodOf (s : string) : option PaymentMethod :=
  if String.eqb s "cash" then Some cash
  else if String.eqb s "credit_card" then Some credit_card
  else if String.eqb s "bank_transfer" then Some bank_transfer
  else if String.eqb s "check" then Some check
  else None.

(** *** PATCH /expenses/:expenseId/paid

    The body carries [payment_method], a string, and may carry
    [paid_date]: [None] when it is absent or empty, otherwise the [Date]
    that [new Date(paid_date)] builds, which is invalid for a text that
    is no date.  The whole handler runs at the instant [now]. *)
Definition markPaidUpdate (e : Expense) (paid : Z) (method : PaymentMethod) : Expense :=
  mkExpense (_id e) (name e) (category e) (amount e) (type e) (priority e)
            (due_date e) (Some paid) (description e) (Some method) Expenses.paid
            (frequency e) (frequency_value e) (parent_id e) (is_active e)
            (created_by e).

(** [updateData] as the schema casts and validates it for
    [findByIdAndUpdate] with [runValidators]: refused for an Invalid Date
    and for a payment method outside the [enum]. *)
Definition castUpdate (paid : Date) (payment_method : string)
  : option (Expense -> Expense) :=
  match paid, paymentMethodOf payment_method with
  | Some paidAt, Some method => Some (fun x => markPaidUpdate x paidAt method)
  | _, _ => None
  end.

(** [findByIdAndUpdate]: the first document with that [_id]; no hook runs. *)
Fixpoint findByIdAndUpdate (id : ObjectId) (f : Expense -> Expense)
    (st : list Expense) : list Expense :=
  match st with
  | [] => []
  | x :: rest => if Nat.eqb (_id x) id then f x :: rest
                 else x :: findByIdAndUpdate id f rest
  end.

(** [paid_date ? new Date(paid_date) : new Date()] *)
Definition paidDateOf (now : Z) (paid_date : option Date) : Date :=
  match paid_date with Some d => d | None => Some now end.

(** The handler.  The next occurrence is created before the expense is
    updated, and either write may throw: the catch block then answers 500
    with whatever was written before. *)
Definition markExpensePaid (now : Z) (st : list Expense) (expenseId : ObjectId)
    (paid_date : option Date) (payment_method : option string)
  : Response * list Expense :=
  match payment_method with
  | None => (Failed 400 PaymentMethodRequired, st)
  | Some method =>
    if String.eqb method "" then (Failed 400 PaymentMethodRequired, st)
    else
      match Expense_findById st expenseId with
      | None => (Failed 404 ExpenseNotFound, st)
      | Some expense =>
        let paid := paidDateOf now paid_date in
        let created :=
          if isRecursive expense && is_active expense then
            let nextDueDate :=
              calculateNextDueDate (due_date expense)
                                   (frequencyArg (frequency expense))
                                   (frequency_value expense) in
            option_map snd
              (Expense_create now (castNextOccurrence expense nextDueDate) st)
          else Some st in
        match created with
        | None => (Failed 500 Thrown, st)
        | Some st1 =>
          match castUpdate paid method with
          | None => (Failed 500 Thrown, st1)
          | Some update => (Sent 200, findByIdAndUpdate expenseId update st1)
          end
        end
      end
  end.

(** *** [processRecursiveExpenses] (index.ts), run at the instant [now] *)
Definition isDueRecursive (now : Z) (e : Expense) : bool :=
  isRecursive e && is_active e && (due_date e <=? now)
  && (status_eqb (status e) pending || status_eqb (status e) overdue).

Definition isNextOccurrence (expense x : Expense) : bool :=
  parentIs x (originOf expense)
  && (due_date x >? due_date expense)
  && status_eqb (status x) pending.

(** The body of the loop for one candidate; [None] when [Expense.create]
    throws, which happens before anything is written for this candidate. *)
Definition sweepOne (now : Z) (st : list Expense) (expense : Expense)
  : option (list Expense) :=
  let nextOccurrence := find (isNextOccurrence expense) st in
  let created :=
    match nextOccurrence with
    | None =>
      if truthy (frequency expense) then
        let nextDueDate :=
          calculateNextDueDate (due_date expense)
                               (frequencyArg (frequency expense))
                               (frequency_value expense) in
        option_map snd
          (Expense_create now (castNextOccurrence expense nextDueDate) st)
      else Some st
    | Some _ => Some st
    end in
  match created with
  | None => None
  | Some st1 =>
    Some (if (due_date expense <? now) && status_eqb (status expense) pending
          then Expense_save now (withStatus expense overdue) st1
          else st1)
  end.

(** The loop sits in one [try]: a throw ends the pass, and the candidates
    that follow are not looked at. *)
Fixpoint sweep (now : Z) (candidates : list Expense) (st : list Expense)
  : list Expense :=
  match candidates with
  | [] => st
  | expense :: rest =>
    match sweepOne now st expense with
    | Some st1 => sweep now rest st1
    | None => st
    end
  end.

Definition processRecursiveExpenses (now : Z) (st : list Expense) : list Expense :=
  let dueRecursiveExpenses := filter (isDueRecursive now) st in
  sweep now dueRecursiveExpenses st.

End Expenses.

(* ================================================================== *)
(** ** The specification's advance table (section 4.2), in months

    Every frequency other than ["days"] is a whole number of calendar
    months; a calendar year is twelve of them and an unrecognised
    frequency counts as one month. *)

Module Spec.

Definition advanceTable : list (string * Z) :=
  [("month", 1); ("quarter", 3); ("half", 6); ("year", 12)]%string.

Fixpoint lookupMonths (frequency : string) (table : list (string * Z)) : Z :=
  match table with
  | [] => 1
  | (f, k) :: rest => if String.eqb frequency f then k else lookupMonths frequency rest
  end.

Definition monthsOf (frequency : string) : Z := lookupMonths frequency advanceTable.

End Spec.

(* ================================================================== *)
(** ** Expected outcomes and the specification's scenarios *)

Module Expected.

Import Shares.

(** What an approval leaves in the store. *)
Definition approvedStore (st : Store) (r : ShareRequest) (b : Business) (k : Z) : Store :=
  let inv := mkInvestment (freshId (map inv_id (investments st)))
                          (investor_id r) (business_id r)
                          (Number.times (inject_Z k) (sr_share_value r)) approved in
  let toInvestor := mkNotification (investor_id r) "share_approved"
                                   "Share Request Approved" (inv_id inv) in
  mkStore
    (map (fun x => if Nat.eqb (b_id x) (b_id b)
                   then setRemaining b (remaining_shares b - k) else x)
         (businesses st))
    (map (fun x => if Nat.eqb (sr_id x) (sr_id r)
                   then setStatus r approved (rejection_reason r) else x)
         (shareRequests st))
    (investments st ++ [inv])
    (match entrepreneur_id b with
     | Some e => (notifications st ++ [toInvestor])
                 ++ [mkNotification e "share_approved" "Share Request Approved"
                                    (inv_id inv)]
     | None => notifications st ++ [toInvestor]
     end).

End Expected.

Module ExpectedExpense.

Import Expenses.

(** The successor of [e]: a new recursive record under identifier [id],
    due on [due], stored with status [s], with the name, category, amount,
    priority, description, payment method, frequency and creator of [e],
    active, unpaid, and with the origin of [e] as its parent. *)
Definition successorOf (e : Expense) (id : ObjectId) (due : Z) (s : Status) : Expense :=
  mkExpense id (name e) (category e) (amount e) recursive (priority e) due None
            (description e) (payment_method e) s (frequency e)
            (frequency_value e) (Some (originOf e)) true (created_by e).

End ExpectedExpense.

(** ** The state of a pass of the hourly task

    What holds of the store [s] while [processRecursiveExpenses] runs at
    [now] over the store [st], once the candidates [done] have been
    handled. *)

Module SweepInvariant.

Import Expenses.

(** Every candidate of a pass has a frequency and a next due date that is
    still ahead of [now]. *)
Definition current (now : Z) (st : list Expense) : Prop :=
  forall e, In e st -> isDueRecursive now e = true ->
    truthy (frequency e) = true
    /\ exists d, calculateNextDueDate (due_date e) (frequencyArg (frequency e))
                                      (frequency_value e) = Some d
                 /\ now < d.

Definition sameButStatus (x o : Expense) : Prop :=
  withStatus x overdue = withStatus o overdue.

Section Pass.

Variables (now : Z) (st : list Expense).

(** A record of [st], possibly turned from pending to overdue. *)
Definition old (x : Expense) : Prop :=
  exists o, In o st /\ sameButStatus x o
            /\ (status x = status o \/ (status o = pending /\ status x = overdue)).

(** A record created during the pass. *)
Definition new (x : Expense) : Prop :=
  now < due_date x /\ ~ In (_id x) (map _id st).

(** [c] has a next occurrence in [s]. *)
Definition settled (s : list Expense) (c : Expense) : Prop :=
  exists y, In y s /\ isNextOccurrence c y = true.

Record inv (s done : list Expense) : Prop := mkInv {
  inv_ids : NoDup (map _id s);
  inv_keeps : forall o, In o st -> In (_id o) (map _id s);
  inv_shape : forall x, In x s -> old x \/ new x;
  inv_done : forall c, In c done -> In c st;
  inv_settled : forall c, In c done -> settled s c;
  inv_flipped : forall c x,
      In c done -> In x s -> _id x = _id c -> due_date c < now ->
      status x = overdue
}.

End Pass.

End SweepInvariant.

Module Scenario.

Import Shares.

(** The offering of the specification's scenario: 100 shares at 10 each,
    none sold. *)
Definition offering : Business :=
  mkBusiness 1%nat (Some 7%nat) 100 100 (10 # 1) (Some 1) b_active public.

Definition st0 : Store := mkStore [offering] [] [] [].

(** Investor 9 asks for 30 shares. *)
Definition st1 : Store := snd (investorRequestShares st0 9%nat 1%nat 30).

(** The admin approves 20 of them. *)
Definition st2 : Store := snd (approveShareRequest st1 1%nat (Some 20)).

(** A request for 30 shares against an offering with 40 left. *)
Definition st40 : Store :=
  mkStore [setRemaining offering 40]
          [mkShareRequest 1%nat 9%nat 1%nat 30 (10 # 1) (300 # 1) pending None]
          [] [].

(** The same request against an offering with 20 left. *)
Definition st20 : Store :=
  mkStore [setRemaining offering 20]
          [mkShareRequest 1%nat 9%nat 1%nat 30 (10 # 1) (300 # 1) pending None]
          [] [].

(** An offering with 60 of its 100 shares left. *)
Definition st60 : Store := mkStore [setRemaining offering 60] [] [] [].

Definition totalOnly (n : Z) : BusinessUpdate :=
  mkBusinessUpdate (Some n) None None None.

(** The Numbers 0.1 and 0.30000000000000004. *)
Definition tenth : Q := 3602879701896397 # 36028797018963968.
Definition threeTenths : Q := 1351079888211149 # 4503599627370496.

(** A listing of a thousand shares at 0.1 each, and investor 9's request
    for three of them. *)
Definition dimes : Business :=
  mkBusiness 2%nat (Some 7%nat) 1000 1000 tenth None b_active public.

Definition stDimes : Store := mkStore [dimes] [] [] [].

Definition stDimes1 : Store :=
  mkStore [dimes] [mkShareRequest 1%nat 9%nat 2%nat 3 tenth threeTenths pending None]
          [] [].

(** Five requests for ten shares each, in the order of their creation; the
    second has been approved. *)
Definition request (id investor : ObjectId) (s : Status) : ShareRequest :=
  mkShareRequest id investor 1%nat 10 (10 # 1) (100 # 1) s None.

Definition queue : Store :=
  mkStore [offering]
          [request 1 9 pending; request 2 8 approved; request 3 7 pending;
           request 4 6 pending; request 5 5 pending]%nat
          [] [].

End Scenario.

Module ExpenseScenario.

Import JSDate Expenses.

(** The recursive expense of the specification's scenarios: monthly, due
    on the first of January 2024, pending and active, with no parent. *)
Definition rent : Expense :=
  mkExpense 1%nat "Office rent" "rent" (1200 # 1) recursive medium
            (ymd 2024 1 1) None None None pending (Some "month"%string)
            None None true 3%nat.

(** What a record created after [rent] looks like. *)
Definition successor (id : ObjectId) (due : Z) (s : Status) : Expense :=
  mkExpense id "Office rent" "rent" (1200 # 1) recursive medium due None None
            None s (Some "month"%string) None (Some 1%nat) true 3%nat.

(** The occurrence of [rent] due on 1 February 2024, whose parent is
    [rent]. *)
Definition february : Expense := successor 2%nat (ymd 2024 2 1) pending.

(** An expense repeating every 100,000,000 days, which POST /expenses
    stores as given: its next due date is beyond the range of a [Date]. *)
Definition lease : Expense :=
  mkExpense 5%nat "Land lease" "rent" (900 # 1) recursive low
            (ymd 2024 1 1) None None None pending (Some "days"%string)
            (Some 100000000) None true 3%nat.

End ExpenseScenario.

(* ================================================================== *)
(** ** What a pass of the hourly task does to a record it finds

    A record that the pass selects and reaches, that is still pending and
    whose due date is strictly before [now], is stored as overdue; every
    other record is left as it is. *)

Module SweepShape.

Import Expenses ExpectedExpense.

Definition markOverdue (now : Z) (x : Expense) : Expense :=
  if isDueRecursive now x && (due_date x <? now) && status_eqb (status x) pending
  then withStatus x overdue
  else x.

(** [n] is the record built after the candidate [c] at [now]: [c] has a
    valid next due date, and [n] is due then, stored as overdue when that
    date is already before [now] and as pending otherwise. *)
Definition isSuccessorOf (now : Z) (c n : Expense) : Prop :=
  exists i d,
    calculateNextDueDate (due_date c) (frequencyArg (frequency c))
                         (frequency_value c) = Some d
    /\ n = successorOf c i d (if d <? now then overdue else pending).

(** The records of [st] while the candidates [done] have been handled. *)
Definition handled (now : Z) (done : list Expense) (x : Expense) : Expense :=
  if existsb (fun c => Nat.eqb (_id c) (_id x)) done then markOverdue now x else x.

(** The store during a pass over [st]: the records of [st], those among
    [done] marked, followed by the records [news] created so far, one for
    each of the candidates [made], in the order of their creation. *)
Definition passState (now : Z) (st done made news s : list Expense) : Prop :=
  s = (map (handled now done) st ++ news)%list
  /\ (forall n o, In n news -> In o st -> (_id o < _id n)%nat)
  /\ incl made done
  /\ NoDup (map _id made)
  /\ Forall2 (isSuccessorOf now) made news.

(** [Expense.create] throws for the candidate [c]: it has a frequency and
    its next due date is an Invalid Date. *)
Definition throwsFor (c : Expense) : Prop :=
  truthy (frequency c) = true
  /\ calculateNextDueDate (due_date c) (frequencyArg (frequency c))
                          (frequency_value c) = None.

End SweepShape.

(* ================================================================== *)
(** ** The other expense handlers (routes/expenses.ts) *)

Module ExpenseHandlers.

Import Expenses.

Inductive Refusal : Type :=
  | RequiredFields          (* "Name, category, amount, type, and due_date are required" *)
  | FrequencyRequired       (* "Frequency is required for recursive expenses" *)
  | FrequencyValueRequired  (* "Frequency value is required for days frequency" *)
  | NoSuchExpense           (* "Expense not found" *)
  | OnlyRecursiveToggled    (* "Only recursive expenses can be toggled" *)
  | Caught.                 (* the catch block: error.message *)

Inductive Reply : Type :=
  | Answered (status : Z)
  | Refused (status : Z) (why : Refusal).

(** The fields of the form POST /expenses reads.  A text field that is
    absent reads as the empty string, which is as falsy as an absent one;
    [f_amount], [f_due_date] and [f_frequency_value] are what
    [Number.parseFloat], [new Date] and [Number.parseInt] make of a
    non-empty field that holds a number or a date, and [None] otherwise.
    The request carries no receipt file and no tags. *)
Record ExpenseForm : Type := mkExpenseForm {
  f_name : string;
  f_category : string;
  f_amount : option Q;
  f_type : string;
  f_priority : string;
  f_due_date : option Z;
  f_description : option string;
  f_payment_method : option string;
  f_frequency : string;
  f_frequency_value : option Z
}.

(** The [enum] lists of the schema. *)
Definition categories : list string :=
  ["salary"; "utilities"; "supplies"; "marketing"; "rent"; "equipment";
   "travel"; "other"]%string.

Definition frequencies : list string :=
  ["days"; "month"; "quarter"; "half"; "year"]%string.

Definition isOneOf (s : string) (l : list string) : bool :=
  existsb (String.eqb s) l.

Definition typeOf (s : string) : option ExpenseType :=
  if String.eqb s "one_time" then Some one_time
  else if String.eqb s "recursive" then Some recursive
  else None.

Definition priorityOf (s : string) : option Priority :=
  if String.eqb s "high" then Some high
  else if String.eqb s "medium" then Some medium
  else if String.eqb s "low" then Some low
  else None.

Definition isEmpty (s : string) : bool := String.eqb s "".

Section WithTrim.

(** The host's [String.prototype.trim], which the schema applies to [name]
    and [description]. *)
Variable trim : string -> string.

(** The document [Expense.create] is given, once cast and validated by the
    schema: [None] when a validator refuses it ([name] empty after
    trimming, a value outside an [enum], a negative [amount]). *)
Definition castExpense (created_by : ObjectId) (f : ExpenseForm) (amount : Q)
    (due_date : Z) : option Expense :=
  let isRec := String.eqb (f_type f) "recursive" in
  let st := if String.eqb (f_type f) "one_time" then active else pending in
  match typeOf (f_type f),
        priorityOf (if isEmpty (f_priority f) then "medium" else f_priority f),
        match f_payment_method f with
        | None => Some None
        | Some m => option_map Some (paymentMethodOf m)
        end
  with
  | Some ty, Some pr, Some pm =>
    if negb (isEmpty (trim (f_name f)))
       && isOneOf (f_category f) categories
       && Qle_bool 0 amount
       && (negb isRec || isOneOf (f_frequency f) frequencies)
    then
      Some (mkExpense 0%nat (trim (f_name f)) (f_category f) amount ty pr
                      due_date None (option_map trim (f_description f)) pm st
                      (if isRec then Some (f_frequency f) else None)
                      (if isRec && String.eqb (f_frequency f) "days"
                       then f_frequency_value f else None)
                      None true created_by)
    else None
  | _, _, _ => None
  end.

(** POST /expenses, run at the instant [now] by the user [created_by]. *)
Definition createExpense (now : Z) (created_by : ObjectId) (st : list Expense)
    (f : ExpenseForm) : Reply * list Expense :=
  match f_amount f, f_due_date f with
  | Some amount, Some due_date =>
    if isEmpty (f_name f) || isEmpty (f_category f) || isEmpty (f_type f)
    then (Refused 400 RequiredFields, st)
    else if String.eqb (f_type f) "recursive" && isEmpty (f_frequency f)
    then (Refused 400 FrequencyRequired, st)
    else if String.eqb (f_type f) "recursive"
            && String.eqb (f_frequency f) "days"
            && match f_frequency_value f with None => true | Some _ => false end
    then (Refused 400 FrequencyValueRequired, st)
    else
      match Expense_create now (castExpense created_by f amount due_date) st with
      | Some (_, st1) => (Answered 201, st1)
      | None => (Refused 500 Caught, st)
      end
  | _, _ => (Refused 400 RequiredFields, st)
  end.

End WithTrim.

(** PATCH /expenses/:expenseId/toggle-active *)
Definition withActive (e : Expense) (a : bool) : Expense :=
  mkExpense (_id e) (name e) (category e) (amount e) (type e) (priority e)
            (due_date e) (paid_date e) (description e) (payment_method e)
            (status e) (frequency e) (frequency_value e) (parent_id e) a
            (created_by e).

Definition toggleActive (now : Z) (st : list Expense) (expenseId : ObjectId)
  : Reply * list Expense :=
  match Expense_findById st expenseId with
  | None => (Refused 404 NoSuchExpense, st)
  | Some expense =>
    if negb (isRecursive expense)
    then (Refused 400 OnlyRecursiveToggled, st)
    else (Answered 200,
          Expense_save now (withActive expense (negb (is_active expense))) st)
  end.

(** What POST /expenses stores. *)
Definition asCreated (now : Z) (created_by : ObjectId) (e : Expense) : Prop :=
  is_active e = true /\ parent_id e = None /\ paid_date e = None
  /\ Expenses.created_by e = created_by
  /\ Qle_bool 0 (amount e) = true
  /\ (type e = one_time ->
      status e = active /\ frequency e = None /\ frequency_value e = None)
  /\ (type e = recursive ->
      status e = (if due_date e <? now then overdue else pending)
      /\ (exists fq, frequency e = Some fq /\ In fq frequencies)
      /\ truthy (frequency e) = true
      /\ (frequency e = Some "days"%string -> frequency_value e <> None)
      /\ (frequency e <> Some "days"%string -> frequency_value e = None)).

End ExpenseHandlers.

(* ================================================================== *)
(** ** GET /shares/pending (routes/shares.ts) *)

Module PendingList.

Import Shares.

(** [Number.parseInt(q) || d]: an absent or non-numeric parameter ([None])
    and a zero both give the default. *)
Definition orDefault (q : option Z) (d : Z) : Z :=
  match q with
  | Some n => if n =? 0 then d else n
  | None => d
  end.

(** The pending requests sorted by [created_at] descending: documents are
    stored in creation order, so the newest come first. *)
Definition pendingNewestFirst (st : Store) : list ShareRequest :=
  rev (filter (fun r => status_eqb (sr_status r) pending) (shareRequests st)).

Record PendingPage : Type := mkPendingPage {
  pg_shareRequests : list ShareRequest;
  pg_page : Z;
  pg_limit : Z;
  pg_total : Z;
  pg_pages : Z
}.

(** [Math.ceil(total / limit)] for a non-zero [limit]. *)
Definition ceilDiv (total limit : Z) : Z := - ((- total) / limit).

(** The handler; [None] is the catch block's 500, reached when the store
    refuses a negative [skip].  A negative [limit] is served by the store
    as its absolute value. *)
Definition getPending (st : Store) (page limit : option Z) : option PendingPage :=
  let page := orDefault page 1 in
  let limit := orDefault limit 10 in
  let skip := (page - 1) * limit in
  if skip <? 0 then None
  else
    let shareRequests :=
      firstn (Z.to_nat (Z.abs limit)) (skipn (Z.to_nat skip) (pendingNewestFirst st)) in
    let total := Z.of_nat (List.length (pendingNewestFirst st)) in
    Some (mkPendingPage shareRequests page limit total (ceilDiv total limit)).

Definition listed (r : option PendingPage) : list ShareRequest :=
  match r with Some p => pg_shareRequests p | None => [] end.

End PendingList.

(* ================================================================== *)
(** ** POST /investor/businesses/:id/invest (routes/investor.ts) *)

Module Invest.

Import Shares.

Inductive Refusal : Type :=
  | NoActiveBusiness          (* "Business not found or not active" *)
  | PendingInvestmentExists   (* "You already have a pending investment for this business" *)
  | Crashed.                  (* the catch block: error.message *)

Inductive Reply : Type :=
  | Invested (status : Z)
  | NotInvested (status : Z) (why : Refusal).

Definition hasPendingInvestment (st : Store) (investor business : ObjectId) : bool :=
  existsb (fun i => Nat.eqb (inv_investor_id i) investor
                    && Nat.eqb (inv_business_id i) business
                    && status_eqb (inv_status i) pending)
          (investments st).

(** The handler.  [accountExists] tells whether [populate] finds the user
    an [entrepreneur_id] refers to, and [delivered] whether the mail
    transport accepts the notification; [amount] is what
    [Number.parseFloat] reads, [None] for no number.  The record is
    created before the entrepreneur's address is read, and a business
    without a populated entrepreneur makes that read throw. *)
Definition invest (accountExists : ObjectId -> bool) (delivered : bool)
    (st : Store) (investor businessId : ObjectId) (amount : option Q)
  : Reply * Store :=
  match find (fun b => Nat.eqb (b_id b) businessId && isActive b && isPublic b)
             (businesses st) with
  | None => (NotInvested 404 NoActiveBusiness, st)
  | Some business =>
    if hasPendingInvestment st investor businessId
    then (NotInvested 400 PendingInvestmentExists, st)
    else
      match amount with
      | None => (NotInvested 500 Crashed, st)
      | Some a =>
        match Investment_create investor businessId a pending st with
        | None => (NotInvested 500 Crashed, st)
        | Some (_, st1) =>
          match entrepreneur_id business with
          | Some e =>
            if accountExists e && delivered then (Invested 201, st1)
            else (NotInvested 500 Crashed, st1)
          | None => (NotInvested 500 Crashed, st1)
          end
        end
      end
  end.

End Invest.

(* ================================================================== *)
(** ** Sequences of calls to the share handlers *)

Module ShareOps.

Import Shares.

Inductive Op : Type :=
  | Request (investor business : ObjectId) (requested : Z) (value : option Q)
  | InvestorRequest (investor business : ObjectId) (requested : Z)
  | Approve (id : ObjectId) (approved_shares : option Z)
  | Reject (id : ObjectId) (reason : option string).

Definition runOp (st : Store) (op : Op) : Store :=
  match op with
  | Request i b n v => snd (requestShares st i b n v)
  | InvestorRequest i b n => snd (investorRequestShares st i b n)
  | Approve id a => snd (approveShareRequest st id a)
  | Reject id reason => snd (rejectShareRequest st id reason)
  end.

(** No approval carries a negative count. *)
Definition noNegativeCount (op : Op) : Prop :=
  match op with
  | Approve _ (Some n) => 0 <= n
  | _ => True
  end.

(** Every business within its bound, every stored request for at least
    one share. *)
Definition inventoryKept (st : Store) : Prop :=
  Forall sharesBounded (businesses st)
  /\ Forall (fun r => 1 <= requested_shares r) (shareRequests st).

End ShareOps.

(* ================================================================== *)
(** * Properties *)

(** ** Calendar arithmetic *)

Section Calendar.

Import JSDate.

Lemma monthOfYearDay_range dwy leap : 0 <= monthOfYearDay dwy leap <= 11.
Proof.
  unfold monthOfYearDay.
  repeat match goal with |- context [if ?b then _ else _] => destruct b end; lia.
Qed.

Lemma MonthFromTime_range t : 0 <= MonthFromTime t <= 11.
Proof. apply monthOfYearDay_range. Qed.

Lemma DayFromYear_succ y : DayFromYear (y + 1) = DayFromYear y + DaysInYear y.
Proof.
  unfold DayFromYear, DaysInYear, isLeap.
  destruct (Z.eqb_spec (y mod 4) 0), (Z.eqb_spec (y mod 100) 0),
           (Z.eqb_spec (y mod 400) 0);
    cbn [andb orb negb]; Z.div_mod_to_equations; lia.
Qed.

Lemma DayFromYear_lt y y' : y < y' -> DayFromYear y < DayFromYear y'.
Proof. intros H. unfold DayFromYear. Z.div_mod_to_equations. lia. Qed.

Lemma DayFromYear_le y y' : y <= y' -> DayFromYear y <= DayFromYear y'.
Proof.
  intros H. destruct (Z.eq_dec y y') as [->|Hne]; [lia|].
  apply Z.lt_le_incl, DayFromYear_lt. lia.
Qed.

(** [YearFromDay] picks the year whose days contain [d]. *)
Lemma YearFromDay_spec d :
  DayFromYear (YearFromDay d) <= d < DayFromYear (YearFromDay d + 1).
Proof.
  unfold YearFromDay.
  set (y0 := 1970 + 400 * d / 146097).
  destruct (Z.leb_spec (DayFromYear (y0 + 1)) d) as [H1|H1].
  - split; [exact H1|].
    subst y0. unfold DayFromYear in *. Z.div_mod_to_equations. lia.
  - destruct (Z.leb_spec (DayFromYear y0) d) as [H2|H2].
    + split; assumption.
    + replace (y0 - 1 + 1) with y0 by lia. split; [|exact H2].
      subst y0. unfold DayFromYear in *. Z.div_mod_to_equations. lia.
Qed.

Lemma YearFromDay_unique d y :
  DayFromYear y <= d < DayFromYear (y + 1) -> YearFromDay d = y.
Proof.
  intros [Hlo Hhi].
  pose proof (YearFromDay_spec d) as [Slo Shi].
  destruct (Z.lt_trichotomy (YearFromDay d) y) as [Hlt|[Heq|Hgt]]; [|exact Heq|].
  - pose proof (DayFromYear_le (YearFromDay d + 1) y). lia.
  - pose proof (DayFromYear_le (y + 1) (YearFromDay d)). lia.
Qed.

Lemma Day_MakeDate day tod : 0 <= tod < msPerDay -> Day (MakeDate day tod) = day.
Proof.
  intros H. unfold Day, MakeDate, msPerDay in *. Z.div_mod_to_equations. lia.
Qed.

Lemma TimeWithinDay_MakeDate day tod :
  0 <= tod < msPerDay -> TimeWithinDay (MakeDate day tod) = tod.
Proof.
  intros H. unfold TimeWithinDay, MakeDate, msPerDay in *.
  Z.div_mod_to_equations. lia.
Qed.

Lemma TimeWithinDay_range t : 0 <= TimeWithinDay t < msPerDay.
Proof. unfold TimeWithinDay, msPerDay. apply Z.mod_pos_bound. lia. Qed.

Lemma MakeDate_Day t : MakeDate (Day t) (TimeWithinDay t) = t.
Proof.
  unfold MakeDate, Day, TimeWithinDay, msPerDay. Z.div_mod_to_equations. lia.
Qed.

(** Inside 0..11 a month index carries nothing into the year. *)
Lemma MakeDay_month_in_range y m d :
  0 <= m <= 11 ->
  MakeDay y m d = DayFromYear y + monthStart m (if isLeap y then 1 else 0) + d - 1.
Proof.
  intros H. unfold MakeDay.
  rewrite Z.mod_small by lia. rewrite Z.div_small by lia.
  rewrite Z.add_0_r. reflexivity.
Qed.

(** In general the month index is reduced and its quotient goes to the year. *)
Lemma MakeDay_normalise y m d :
  MakeDay y m d = MakeDay (y + m / 12) (m mod 12) 1 + (d - 1).
Proof.
  assert (Hm : 0 <= m mod 12 <= 11) by (pose proof (Z.mod_pos_bound m 12); lia).
  rewrite (MakeDay_month_in_range _ _ 1 Hm). unfold MakeDay. lia.
Qed.

Ltac split_ifs :=
  repeat match goal with
         | H : context [if Z.eqb ?a ?b then _ else _] |- _ => destruct (Z.eqb_spec a b)
         | |- context [if Z.eqb ?a ?b then _ else _] => destruct (Z.eqb_spec a b)
         | |- context [if Z.ltb ?a ?b then _ else _] => destruct (Z.ltb_spec a b)
         end.

(** Reading a civil date back from the time value built for it. *)
Lemma civil_roundtrip y m d tod :
  0 <= m <= 11 -> 1 <= d <= DaysInMonth y m -> 0 <= tod < msPerDay ->
  let t := MakeDate (MakeDay y m d) tod in
  YearFromTime t = y /\ MonthFromTime t = m /\ DateFromTime t = d
  /\ TimeWithinDay t = tod.
Proof.
  intros Hm Hd Ht t.
  assert (HD : Day t = MakeDay y m d) by (apply Day_MakeDate; exact Ht).
  pose proof (MakeDay_month_in_range y m d Hm) as Hmk.
  assert (HY : YearFromTime t = y).
  { unfold YearFromTime. apply YearFromDay_unique.
    rewrite HD, Hmk, DayFromYear_succ.
    unfold DaysInYear, DaysInMonth, monthStart in *.
    destruct (isLeap y); split_ifs; lia. }
  assert (HL : InLeapYear t = if isLeap y then 1 else 0).
  { unfold InLeapYear. rewrite HY. reflexivity. }
  assert (HW : DayWithinYear t = monthStart m (if isLeap y then 1 else 0) + d - 1).
  { unfold DayWithinYear. rewrite HY, HD, Hmk. lia. }
  assert (HM : MonthFromTime t = m).
  { unfold MonthFromTime. rewrite HW, HL.
    unfold monthOfYearDay, DaysInMonth, monthStart in *.
    destruct (isLeap y); split_ifs; lia. }
  repeat split; [exact HY | exact HM | | apply TimeWithinDay_MakeDate; exact Ht].
  unfold DateFromTime. rewrite HM, HL, HW. lia.
Qed.

(** Every time value is the time value of its own civil fields. *)
Lemma MakeDay_fields t n :
  MakeDay (YearFromTime t) (MonthFromTime t) (DateFromTime t + n) = Day t + n.
Proof.
  rewrite (MakeDay_month_in_range _ _ _ (MonthFromTime_range t)).
  unfold DateFromTime, DayWithinYear, InLeapYear. lia.
Qed.

Lemma DateFromTime_range t :
  1 <= DateFromTime t <= DaysInMonth (YearFromTime t) (MonthFromTime t).
Proof.
  pose proof (YearFromDay_spec (Day t)) as [Hlo Hhi].
  rewrite DayFromYear_succ in Hhi.
  unfold DateFromTime, MonthFromTime, DaysInMonth, InLeapYear, DayWithinYear,
    YearFromTime, DaysInYear in *.
  set (dwy := Day t - DayFromYear (YearFromDay (Day t))).
  assert (Hd : 0 <= dwy < if isLeap (YearFromDay (Day t)) then 366 else 365)
    by (subst dwy; lia).
  clearbody dwy. clear Hlo Hhi.
  unfold monthOfYearDay, monthStart.
  destruct (isLeap (YearFromDay (Day t)));
    repeat match goal with
           | |- context [if Z.ltb ?a ?b then _ else _] =>
               destruct (Z.ltb_spec a b); cbn
           end; lia.
Qed.

(** [TimeClip] keeps a time value within the range and makes any other
    invalid. *)
Lemma TimeClip_valid t : Z.abs t <= maxTime -> TimeClip t = Some t.
Proof.
  intros H. unfold TimeClip. destruct (Z.leb_spec (Z.abs t) maxTime); [reflexivity|lia].
Qed.

Lemma TimeClip_invalid t : maxTime < Z.abs t -> TimeClip t = None.
Proof.
  intros H. unfold TimeClip. destruct (Z.leb_spec (Z.abs t) maxTime); [lia|reflexivity].
Qed.

Lemma TimeClip_Some t r : TimeClip t = Some r -> r = t /\ Z.abs t <= maxTime.
Proof.
  unfold TimeClip. destruct (Z.leb_spec (Z.abs t) maxTime); [|discriminate].
  intros [= <-]. split; [reflexivity|assumption].
Qed.

Lemma setDate_add t n : setDate t (getDate t + n) = TimeClip (t + n * msPerDay).
Proof.
  unfold setDate, getDate. rewrite MakeDay_fields. f_equal.
  rewrite <- (MakeDate_Day t) at 3. unfold MakeDate. lia.
Qed.

(** [setMonth] to [k] months after the current one. *)
Lemma setMonth_add t k :
  setMonth t (getMonth t + k)
  = TimeClip (MakeDate (MakeDay (getFullYear t + (getMonth t + k) / 12)
                                ((getMonth t + k) mod 12) 1
                        + (getDate t - 1))
                       (TimeWithinDay t)).
Proof.
  unfold setMonth, getMonth, getDate, getFullYear.
  rewrite MakeDay_normalise. reflexivity.
Qed.

(** [setFullYear] to the next year is [setMonth] to twelve months on. *)
Lemma setFullYear_succ t :
  setFullYear t (getFullYear t + 1) = setMonth t (getMonth t + 12).
Proof.
  unfold setFullYear, setMonth, getMonth, getFullYear.
  pose proof (MonthFromTime_range t) as Hm.
  rewrite (MakeDay_normalise _ (MonthFromTime t + 12)).
  replace ((MonthFromTime t + 12) / 12) with 1
    by (Z.div_mod_to_equations; lia).
  replace ((MonthFromTime t + 12) mod 12) with (MonthFromTime t)
    by (Z.div_mod_to_equations; lia).
  rewrite !(MakeDay_month_in_range _ _ _ Hm). do 2 f_equal. lia.
Qed.

End Calendar.

(** ** [calculateNextDueDate] *)

Section NextDueDate.

Import JSDate Expenses.

Lemma calculateNextDueDate_days t fv :
  Z.abs t <= maxTime ->
  calculateNextDueDate t "days" fv = TimeClip (t + orOne fv * msPerDay).
Proof.
  intros Ht. unfold calculateNextDueDate, newDate. rewrite (TimeClip_valid t Ht).
  cbn [String.eqb Ascii.eqb Bool.eqb]. apply setDate_add.
Qed.

Lemma calculateNextDueDate_months t f fv :
  Z.abs t <= maxTime -> f <> "days"%string ->
  calculateNextDueDate t f fv = setMonth t (getMonth t + Spec.monthsOf f).
Proof.
  intros Ht Hf. unfold calculateNextDueDate, newDate. rewrite (TimeClip_valid t Ht).
  unfold Spec.monthsOf, Spec.advanceTable, Spec.lookupMonths.
  destruct (String.eqb_spec f "days") as [E|_]; [contradiction|].
  destruct (String.eqb_spec f "month"); [reflexivity|].
  destruct (String.eqb_spec f "quarter"); [reflexivity|].
  destruct (String.eqb_spec f "half"); [reflexivity|].
  destruct (String.eqb_spec f "year"); [apply setFullYear_succ|reflexivity].
Qed.

(** C6, as the code has it.  The next due date is a function of the three
    arguments alone.  For ["days"] the current date is moved
    [frequencyValue] days on, where an absent value and a value of zero
    both count as one day.  For every other frequency it is moved
    [Spec.monthsOf] calendar months on (one for ["month"], three for
    ["quarter"], six for ["half"], twelve for ["year"], one for anything
    unrecognised): to the first day of the target month plus the current
    day of the month less one, at the same time of day, so that a day the
    target month does not have runs over into the following month; when
    the target month has that day, that is that day of the target month.
    The date so reached is the result when it lies within the range of a
    [Date], 8,640,000,000,000,000 ms either side of the epoch; when it
    lies beyond, the result is an Invalid Date.  Ten January 2024 plus
    seven days is seventeen January 2024, and 1 January 2024 plus
    100,000,000 days is an Invalid Date; so is the last instant of the
    range plus one day, and the first less one day. *)
Theorem calculateNextDueDate_advance :
  (forall t, Z.abs t <= maxTime ->
        calculateNextDueDate t "days" None = TimeClip (t + 1 * msPerDay))
  /\ (forall t, Z.abs t <= maxTime ->
        calculateNextDueDate t "days" (Some 0) = TimeClip (t + 1 * msPerDay))
  /\ (forall t n, Z.abs t <= maxTime -> n <> 0 ->
        calculateNextDueDate t "days" (Some n) = TimeClip (t + n * msPerDay))
  /\ (forall t f fv, Z.abs t <= maxTime -> f <> "days"%string ->
        let Y' := getFullYear t + (getMonth t + Spec.monthsOf f) / 12 in
        let M' := (getMonth t + Spec.monthsOf f) mod 12 in
        let u := MakeDate (MakeDay Y' M' 1 + (getDate t - 1)) (TimeWithinDay t) in
        calculateNextDueDate t f fv = TimeClip u
        /\ (getDate t <= DaysInMonth Y' M' ->
            getFullYear u = Y' /\ getMonth u = M' /\ getDate u = getDate t
            /\ TimeWithinDay u = TimeWithinDay t))
  /\ (forall u, (Z.abs u <= maxTime -> TimeClip u = Some u)
                /\ (maxTime < Z.abs u -> TimeClip u = None))
  /\ calculateNextDueDate (ymd 2024 1 10) "days" (Some 7) = Some (ymd 2024 1 17)
  /\ calculateNextDueDate (ymd 2024 1 1) "days" (Some 100000000) = None
  /\ calculateNextDueDate (8640000000000000 - msPerDay) "days" (Some 1)
     = Some 8640000000000000
  /\ calculateNextDueDate 8640000000000000 "days" (Some 1) = None
  /\ calculateNextDueDate (-8640000000000000) "days" (Some (-1)) = None.
Proof.
  split; [|split; [|split; [|split; [|split; [|split; [|split; [|split; [|split]]]]]]]].
  - intros t Ht. apply (calculateNextDueDate_days t None Ht).
  - intros t Ht. apply (calculateNextDueDate_days t (Some 0) Ht).
  - intros t n Ht Hn. rewrite (calculateNextDueDate_days t (Some n) Ht).
    unfold orOne. destruct (Z.eqb_spec n 0) as [E|_]; [contradiction|reflexivity].
  - intros t f fv Ht Hf Y' M' u.
    split; [rewrite (calculateNextDueDate_months t f fv Ht Hf); apply setMonth_add|].
    intros Hfit.
    assert (HM : 0 <= M' <= 11)
      by (subst M'; pose proof (Z.mod_pos_bound (getMonth t + Spec.monthsOf f) 12); lia).
    pose proof (DateFromTime_range t) as [Hd1 _].
    pose proof (civil_roundtrip Y' M' (getDate t) (TimeWithinDay t) HM
                  (conj Hd1 Hfit) (TimeWithinDay_range t)) as Hc.
    cbv zeta in Hc.
    replace (MakeDay Y' M' (getDate t)) with (MakeDay Y' M' 1 + (getDate t - 1)) in Hc
      by (rewrite !(MakeDay_month_in_range _ _ _ HM); lia).
    exact Hc.
  - intros u. split; [apply TimeClip_valid | apply TimeClip_invalid].
  - vm_compute. reflexivity.
  - vm_compute. reflexivity.
  - vm_compute. reflexivity.
  - vm_compute. reflexivity.
  - vm_compute. reflexivity.
Qed.

(** The theorem at the first of January 2024, monthly: the first of
    February 2024. *)
Lemma calculateNextDueDate_advance_witness :
  calculateNextDueDate (ymd 2024 1 1) "month" None
  = TimeClip (MakeDate (MakeDay 2024 1 1 + (1 - 1)) 0)
  /\ getFullYear (MakeDate (MakeDay 2024 1 1 + (1 - 1)) 0) = 2024
  /\ getMonth (MakeDate (MakeDay 2024 1 1 + (1 - 1)) 0) = 1
  /\ getDate (MakeDate (MakeDay 2024 1 1 + (1 - 1)) 0) = 1.
Proof.
  destruct calculateNextDueDate_advance as (_ & _ & _ & H & _).
  destruct (H (ymd 2024 1 1) "month"%string None) as [Hr Hfit].
  - vm_compute. discriminate.
  - discriminate.
  - split; [exact Hr|].
    destruct Hfit as (H1 & H2 & H3 & _); [vm_compute; discriminate|].
    split; [exact H1 | split; [exact H2 | exact H3]].
Defined.

(** C6 as stated fails for a stored [frequency_value] of zero: the claim
    has zero days added, the code adds one. *)
Lemma calculateNextDueDate_zero_days :
  calculateNextDueDate (ymd 2024 1 10) "days" (Some 0) = Some (ymd 2024 1 11)
  /\ calculateNextDueDate (ymd 2024 1 10) "days" (Some 0)
     <> Some (ymd 2024 1 10 + 0 * msPerDay).
Proof. split; [vm_compute; reflexivity | vm_compute; discriminate]. Qed.

(** The rollover of the month arithmetic: one month after 31 January 2024
    is 2 March 2024, February having 29 days. *)
Example calculateNextDueDate_rollover :
  calculateNextDueDate (ymd 2024 1 31) "month" None = Some (ymd 2024 3 2).
Proof. vm_compute. reflexivity. Qed.

End NextDueDate.

(* ================================================================== *)
(** ** Share allocation *)

Section Collections.

Context {A : Type} (key : A -> ObjectId).

(** Replacing the document found under an identifier, then looking that
    identifier up again. *)
Lemma find_replace (l : list A) (i : ObjectId) (x x' : A) :
  find (fun y => Nat.eqb (key y) i) l = Some x ->
  key x' = key x ->
  find (fun y => Nat.eqb (key y) i)
       (map (fun y => if Nat.eqb (key y) (key x') then x' else y) l) = Some x'.
Proof.
  intros Hfind Hkey.
  assert (Hi : key x = i).
  { apply find_some in Hfind. apply Nat.eqb_eq, Hfind. }
  induction l as [|y l IH]; [discriminate|].
  cbn [find map] in *.
  destruct (Nat.eqb_spec (key y) i) as [Ey|Ny].
  - injection Hfind as ->. rewrite Hkey, Nat.eqb_refl.
    cbn [find]. rewrite Hkey, Hi, Nat.eqb_refl. reflexivity.
  - destruct (Nat.eqb_spec (key y) (key x')) as [E|_]; [congruence|].
    cbn [find]. destruct (Nat.eqb_spec (key y) i); [contradiction|].
    apply IH, Hfind.
Qed.

(** Replacing a document by itself changes nothing. *)
Lemma replace_same (l : list A) (i : ObjectId) (x : A) :
  (forall y, In y l -> key y = key x -> y = x) ->
  map (fun y => if Nat.eqb (key y) (key x) then x else y) l = l.
Proof.
  intros Huniq. induction l as [|y l IH]; [reflexivity|].
  cbn [map]. rewrite IH by (intros z Hz; apply Huniq; right; exact Hz).
  destruct (Nat.eqb_spec (key y) (key x)) as [E|_]; [|reflexivity].
  rewrite (Huniq y (or_introl eq_refl) E). reflexivity.
Qed.

End Collections.

Lemma find_app_found {A} (f : A -> bool) (l more : list A) (x : A) :
  find f l = Some x -> find f (l ++ more) = Some x.
Proof.
  induction l as [|y l IH]; [discriminate|].
  cbn [find app]. destruct (f y); [trivial | exact IH].
Qed.

(** ** Number arithmetic *)

Section NumberFacts.

Import Number.

Lemma roundTiesToEven_floor n d : n / d <= roundTiesToEven n d.
Proof.
  unfold roundTiesToEven.
  destruct (2 * (n mod d) ?= d); [destruct (Z.even (n / d))| |]; lia.
Qed.

Lemma pow2_pos e : 0 < 2 ^ Z.max 0 e.
Proof. apply Z.pow_pos_nonneg; lia. Qed.

(** At an exponent small enough, the scaled numerator is not below the
    scaled denominator, so the significand is at least 1. *)
Lemma scaled_dominates n d e :
  0 < n -> 0 < d -> e <= Z.log2 n - Z.log2 d - 1 ->
  d * 2 ^ Z.max 0 e <= n * 2 ^ Z.max 0 (- e).
Proof.
  intros Hn Hd He.
  pose proof (Z.log2_spec n Hn) as [Hn1 _].
  pose proof (Z.log2_spec d Hd) as [_ Hd2].
  pose proof (Z.log2_nonneg n) as Ln. pose proof (Z.log2_nonneg d) as Ld.
  destruct (Z.le_gt_cases 0 e) as [H0|H0].
  - rewrite (Z.max_r 0 e), (Z.max_l 0 (- e)) by lia. rewrite Z.pow_0_r, Z.mul_1_r.
    assert (H : d * 2 ^ e < 2 ^ Z.succ (Z.log2 d) * 2 ^ e)
      by (apply Z.mul_lt_mono_pos_r; [apply Z.pow_pos_nonneg; lia | exact Hd2]).
    rewrite <- Z.pow_add_r in H by lia.
    assert (H' : 2 ^ (Z.succ (Z.log2 d) + e) <= 2 ^ Z.log2 n)
      by (apply Z.pow_le_mono_r; lia).
    lia.
  - rewrite (Z.max_l 0 e), (Z.max_r 0 (- e)) by lia. rewrite Z.pow_0_r, Z.mul_1_r.
    assert (H : 2 ^ Z.log2 n * 2 ^ (- e) <= n * 2 ^ (- e))
      by (apply Z.mul_le_mono_nonneg_r; [apply Z.pow_nonneg; lia | exact Hn1]).
    rewrite <- Z.pow_add_r in H by lia.
    assert (H' : 2 ^ Z.succ (Z.log2 d) <= 2 ^ (Z.log2 n + - e))
      by (apply Z.pow_le_mono_r; lia).
    lia.
Qed.

Lemma exponentOf_small n d : exponentOf n d <= Z.log2 n - Z.log2 d - 51.
Proof.
  unfold exponentOf.
  repeat match goal with |- context [if ?b then _ else _] => destruct b end; lia.
Qed.

Lemma significand_positive n d :
  0 < n -> 0 < d -> 1 <= significand n d (exponentOf n d).
Proof.
  intros Hn Hd. unfold significand.
  pose proof (exponentOf_small n d) as He.
  pose proof (scaled_dominates n d (exponentOf n d) Hn Hd ltac:(lia)) as Hdom.
  pose proof (pow2_pos (exponentOf n d)) as Hp.
  set (N := n * 2 ^ Z.max 0 (- exponentOf n d)) in *.
  set (D := d * 2 ^ Z.max 0 (exponentOf n d)) in *.
  assert (HD : 0 < D) by (subst D; lia).
  pose proof (roundTiesToEven_floor N D).
  assert (1 <= N / D) by (apply Z.div_le_lower_bound; lia).
  lia.
Qed.

Lemma scale_positive m e : 1 <= m -> (0 < scale m e)%Q.
Proof.
  intros Hm. unfold scale. destruct (0 <=? e) eqn:E.
  - apply Z.leb_le in E. unfold Qlt. cbn.
    assert (0 < 2 ^ e) by (apply Z.pow_pos_nonneg; lia). nia.
  - unfold Qlt. cbn. lia.
Qed.

Lemma roundPositive_positive n d : (0 < roundPositive n d)%Q.
Proof.
  unfold roundPositive. apply scale_positive, significand_positive; lia.
Qed.

(** Rounding keeps the sign. *)
Lemma toNumber_nonneg q : (0 <= q)%Q -> (0 <= toNumber q)%Q.
Proof.
  intros Hq. unfold toNumber. rewrite Qred_correct.
  destruct q as [[|n|n] d]; cbn [Qnum Qden].
  - apply Qle_refl.
  - apply Qlt_le_weak, roundPositive_positive.
  - unfold Qle in Hq. cbn in Hq. lia.
Qed.

Lemma toNumber_positive q : (0 < q)%Q -> (0 < toNumber q)%Q.
Proof.
  intros Hq. unfold toNumber. rewrite Qred_correct.
  destruct q as [[|n|n] d]; cbn [Qnum Qden].
  - unfold Qlt in Hq. cbn in Hq. lia.
  - apply roundPositive_positive.
  - unfold Qlt in Hq. cbn in Hq. lia.
Qed.

Lemma toNumber_negative q : (q < 0)%Q -> (toNumber q < 0)%Q.
Proof.
  intros Hq. unfold toNumber. rewrite Qred_correct.
  destruct q as [[|n|n] d]; cbn [Qnum Qden].
  - unfold Qlt in Hq. cbn in Hq. lia.
  - unfold Qlt in Hq. cbn in Hq. lia.
  - pose proof (roundPositive_positive n d) as H.
    apply Qopp_lt_compat in H. exact H.
Qed.

Lemma times_nonneg (k : Z) (v : Q) :
  0 <= k -> (0 <= v)%Q -> Qle_bool 0 (times (inject_Z k) v) = true.
Proof.
  intros Hk Hv. apply Qle_bool_iff. unfold times.
  apply toNumber_nonneg, Qmult_le_0_compat; apply toNumber_nonneg; [|exact Hv].
  change 0%Q with (inject_Z 0). rewrite <- Zle_Qle. exact Hk.
Qed.

Lemma times_negative (k : Z) (v : Q) :
  k < 0 -> (0 < v)%Q -> Qle_bool 0 (times (inject_Z k) v) = false.
Proof.
  intros Hk Hv.
  destruct (Qle_bool 0 (times (inject_Z k) v)) eqn:E; [|reflexivity].
  exfalso. apply Qle_bool_iff in E.
  assert (Hlt : (times (inject_Z k) v < 0)%Q).
  { unfold times. apply toNumber_negative.
    assert (Ha : (toNumber (inject_Z k) < 0)%Q).
    { apply toNumber_negative. change 0%Q with (inject_Z 0).
      rewrite <- Zlt_Qlt. exact Hk. }
    pose proof (toNumber_positive v Hv) as Hb.
    setoid_replace 0%Q with (0 * toNumber v)%Q by ring.
    apply Qmult_lt_compat_r; assumption. }
  apply (Qlt_not_le _ _ Hlt E).
Qed.


(** A whole number below [2^53] is a Number as it stands. *)
Lemma roundPositive_whole n :
  Z.pos n < 2 ^ 53 -> (roundPositive n 1 == inject_Z (Z.pos n))%Q.
Proof.
  intros Hn. unfold roundPositive, exponentOf.
  change (Z.log2 1) with 0. rewrite Z.sub_0_r.
  pose proof (Z.log2_spec (Z.pos n) ltac:(lia)) as [Hlo Hhi].
  pose proof (Z.log2_nonneg (Z.pos n)) as Hl.
  set (l := Z.log2 (Z.pos n)) in *.
  assert (Hl52 : l <= 52).
  { destruct (Z.le_gt_cases l 52) as [?|Hgt]; [assumption|].
    assert (2 ^ 53 <= 2 ^ l) by (apply Z.pow_le_mono_r; lia). lia. }
  rewrite (Z.max_r 0 (- (l - 52))), (Z.max_l 0 (l - 52)) by lia.
  rewrite Z.pow_0_r, !Z.mul_1_r.
  replace (- (l - 52)) with (52 - l) by lia.
  assert (Hp : 0 < 2 ^ (52 - l)) by (apply Z.pow_pos_nonneg; lia).
  assert (H52 : 2 ^ 52 = 2 ^ l * 2 ^ (52 - l))
    by (rewrite <- Z.pow_add_r by lia; f_equal; lia).
  assert (H53 : 2 ^ 53 = 2 ^ Z.succ l * 2 ^ (52 - l))
    by (rewrite <- Z.pow_add_r by lia; f_equal; lia).
  destruct (Z.leb_spec (2 ^ 53) (Z.pos n * 2 ^ (52 - l))) as [Hbig|_]; [nia|].
  destruct (Z.leb_spec (2 ^ 52) (Z.pos n * 2 ^ (52 - l))) as [_|Hsmall]; [|nia].
  unfold significand.
  rewrite (Z.max_r 0 (- (l - 52))), (Z.max_l 0 (l - 52)) by lia.
  rewrite Z.pow_0_r. replace (- (l - 52)) with (52 - l) by lia.
  unfold roundTiesToEven. change (1 * 1) with 1.
  rewrite Z.mod_1_r, Z.div_1_r. change (2 * 0 ?= 1) with Lt. cbv iota.
  unfold scale. destruct (Z.leb_spec 0 (l - 52)) as [H0|H0].
  - replace (52 - l) with 0 by lia. replace (l - 52) with 0 by lia.
    rewrite Z.pow_0_r. unfold Qeq. cbn [Qnum Qden inject_Z]. lia.
  - replace (- (l - 52)) with (52 - l) by lia.
    unfold Qeq. cbn [Qnum Qden inject_Z]. rewrite Z2Pos.id by lia. lia.
Qed.

Lemma toNumber_whole z : Z.abs z < 2 ^ 53 -> toNumber (inject_Z z) = inject_Z z.
Proof.
  intros Hz.
  assert (Hred : Qred (inject_Z z) = inject_Z z).
  { unfold inject_Z, Qred. cbn [Qnum Qden].
    pose proof (Z.ggcd_gcd z 1) as Hg. pose proof (Z.ggcd_correct_divisors z 1) as Hc.
    destruct (Z.ggcd z 1) as [g [a b]]. cbn [fst snd] in *.
    rewrite Z.gcd_1_r in Hg. subst g. destruct Hc as [Ha Hb].
    rewrite Z.mul_1_l in Ha, Hb. subst a b. reflexivity. }
  rewrite <- Hred at 2. unfold toNumber. apply Qred_complete.
  destruct z as [|n|n]; cbn [inject_Z Qnum Qden].
  - reflexivity.
  - apply roundPositive_whole. lia.
  - rewrite (roundPositive_whole n) by lia. reflexivity.
Qed.

(** The product of two whole numbers is exact as long as it stays below
    [2^53]. *)
Lemma times_whole k v :
  Z.abs k < 2 ^ 53 -> Z.abs v < 2 ^ 53 -> Z.abs (k * v) < 2 ^ 53 ->
  times (inject_Z k) (inject_Z v) = inject_Z (k * v).
Proof.
  intros Hk Hv Hkv. unfold times. rewrite (toNumber_whole k Hk), (toNumber_whole v Hv).
  change (inject_Z k * inject_Z v)%Q with (Qmake (k * v) 1) .
  apply (toNumber_whole (k * v) Hkv).
Qed.

End NumberFacts.

Section ShareAllocation.

Import Shares Expected.

Lemma statusP (a b : Status) : reflect (a = b) (status_eqb a b).
Proof. destruct a, b; constructor; congruence. Qed.

(** An approval that passes every guard. *)
Lemma approveShareRequest_passes st id approved_shares r b :
  ShareRequest_findById st id = Some r ->
  sr_status r = pending ->
  Business_findById st (business_id r) = Some b ->
  let k := orRequested approved_shares (requested_shares r) in
  k <= requested_shares r ->
  k <= remaining_shares b ->
  Qle_bool 0 (Number.times (inject_Z k) (sr_share_value r)) = true ->
  approveShareRequest st id approved_shares = (Sent 200, approvedStore st r b k).
Proof.
  intros Hr Hp Hb k Hreq Hrem Hamt.
  unfold approveShareRequest. rewrite Hr, Hp. cbn [status_eqb negb].
  fold k.
  destruct (Z.gtb_spec k (requested_shares r)) as [?|_]; [lia|].
  rewrite Hb.
  destruct (Z.gtb_spec k (remaining_shares b)) as [?|_]; [lia|].
  unfold Investment_create.
  cbn [ShareRequest_save Business_save investments businesses shareRequests
       notifications].
  rewrite Hamt. unfold approvedStore, notifyEntrepreneur, Notification_create.
  cbn [inv_id investments businesses shareRequests notifications].
  destruct (entrepreneur_id b); reflexivity.
Qed.

End ShareAllocation.

Section ShareClaims.

Import Shares Expected Scenario.

(** An approval with a count that is omitted or at least 1.  For a pending
    request [r] whose business [b] exists, and an [approved_shares] that is
    omitted (then the requested count is used) or is at least 1, not above
    the requested count and not above the remaining shares: the handler
    answers 200, the request is stored as approved, the business is stored
    with its remaining shares less exactly the approved count, and one
    investment is added, approved, for the Number product of the approved
    count and the request's share value; nothing else in the two
    collections changes.  The product is the exact one when the share
    value is a whole number and the amount stays below 2^53.  The stored
    request satisfies its schema (at least one share requested, a share
    value that is not negative).  In the scenario, 20 of 30 requested
    shares approved on an offering of 100 at 10 each leave 80 shares and
    an investment of 200; three shares at 0.1 each, approved, give an
    investment of 0.30000000000000004. *)
Theorem approveShareRequest_effect :
  (forall st id approved_shares r b,
      ShareRequest_findById st id = Some r ->
      sr_status r = pending ->
      Business_findById st (business_id r) = Some b ->
      1 <= requested_shares r ->
      (0 <= sr_share_value r)%Q ->
      let k := match approved_shares with
               | Some n => n
               | None => requested_shares r
               end in
      approved_shares = None \/ 1 <= k ->
      k <= requested_shares r ->
      k <= remaining_shares b ->
      let st' := snd (approveShareRequest st id approved_shares) in
      fst (approveShareRequest st id approved_shares) = Sent 200
      /\ ShareRequest_findById st' id
         = Some (setStatus r approved (rejection_reason r))
      /\ Business_findById st' (business_id r)
         = Some (setRemaining b (remaining_shares b - k))
      /\ investments st'
         = investments st
           ++ [mkInvestment (freshId (map inv_id (investments st)))
                            (investor_id r) (business_id r)
                            (Number.times (inject_Z k) (sr_share_value r)) approved]
      /\ st' = approvedStore st r b k
      /\ (forall v, sr_share_value r = inject_Z v ->
            Z.abs k < 2 ^ 53 -> Z.abs v < 2 ^ 53 -> Z.abs (k * v) < 2 ^ 53 ->
            Number.times (inject_Z k) (sr_share_value r) = inject_Z (k * v)))
  /\ (shareRequests st1
      = [mkShareRequest 1%nat 9%nat 1%nat 30 (10 # 1) (300 # 1) pending None]
      /\ approveShareRequest st1 1%nat (Some 20) = (Sent 200, st2)
      /\ shareRequests st2
         = [mkShareRequest 1%nat 9%nat 1%nat 30 (10 # 1) (300 # 1) approved None]
      /\ businesses st2 = [setRemaining offering 80]
      /\ investments st2 = [mkInvestment 1%nat 9%nat 1%nat (200 # 1) approved])
  /\ (fst (approveShareRequest stDimes1 1%nat None) = Sent 200
      /\ businesses (snd (approveShareRequest stDimes1 1%nat None))
         = [setRemaining dimes 997]
      /\ investments (snd (approveShareRequest stDimes1 1%nat None))
         = [mkInvestment 1%nat 9%nat 2%nat threeTenths approved]).
Proof.
  split; [|split].
  - intros st id approved_shares r b Hr Hp Hb Hreq Hval k Hpos Hle Hrem st'.
    assert (Hk : orRequested approved_shares (requested_shares r) = k).
    { subst k. destruct approved_shares as [n|]; [|reflexivity].
      cbn [orRequested]. destruct Hpos as [?|?]; [discriminate|].
      destruct (Z.eqb_spec n 0); [lia|reflexivity]. }
    assert (Hk1 : 0 <= k) by (destruct Hpos as [->|?]; subst k; lia).
    pose proof (approveShareRequest_passes st id approved_shares r b Hr Hp Hb) as H.
    cbv zeta in H. rewrite Hk in H.
    specialize (H Hle Hrem (times_nonneg k _ Hk1 Hval)).
    subst st'. rewrite H. cbn [fst snd].
    split; [reflexivity|]. split; [|split; [|split; [reflexivity|split; [reflexivity|]]]].
    + unfold approvedStore, ShareRequest_findById. cbn [shareRequests].
      apply (find_replace sr_id _ id r (setStatus r approved (rejection_reason r)));
        [exact Hr|reflexivity].
    + unfold approvedStore, Business_findById. cbn [businesses].
      apply (find_replace b_id _ (business_id r) b
                          (setRemaining b (remaining_shares b - k)));
        [exact Hb|reflexivity].
    + intros v -> H1 H2 H3. apply times_whole; assumption.
  - vm_compute. repeat split; reflexivity.
  - vm_compute. repeat split; reflexivity.
Qed.

(** The theorem at the scenario: 20 of 30 shares approved. *)
Lemma approveShareRequest_effect_witness :
  fst (approveShareRequest st1 1%nat (Some 20)) = Sent 200
  /\ Business_findById (snd (approveShareRequest st1 1%nat (Some 20))) 1%nat
     = Some (setRemaining offering (100 - 20)).
Proof.
  destruct approveShareRequest_effect as [H _].
  destruct (H st1 1%nat (Some 20)
              (mkShareRequest 1%nat 9%nat 1%nat 30 (10 # 1) (300 # 1) pending None)
              offering)
    as (Hres & _ & Hbus & _).
  - reflexivity.
  - reflexivity.
  - reflexivity.
  - cbn. lia.
  - cbn. discriminate.
  - right. lia.
  - cbn. lia.
  - cbn. lia.
  - split; [exact Hres | exact Hbus].
Defined.

(** C2 at its failing input: a supplied [approved_shares] of zero.  The
    handler's own comment reads "Use approved_shares if provided, otherwise
    use requested_shares", yet [approved_shares || requested_shares] takes
    a provided zero for an omitted one: whatever the store, approving with
    0 does what approving with no count does.  On the scenario's pending
    request for 30 shares the claim has no share taken and an investment
    of 0; the handler takes all 30 and records an investment of 300. *)
Theorem approveShareRequest_zero :
  (forall st id,
      approveShareRequest st id (Some 0) = approveShareRequest st id None)
  /\ fst (approveShareRequest st1 1%nat (Some 0)) = Sent 200
  /\ shareRequests (snd (approveShareRequest st1 1%nat (Some 0)))
     = [mkShareRequest 1%nat 9%nat 1%nat 30 (10 # 1) (300 # 1) approved None]
  /\ businesses (snd (approveShareRequest st1 1%nat (Some 0)))
     = [setRemaining offering 70]
  /\ investments (snd (approveShareRequest st1 1%nat (Some 0)))
     = [mkInvestment 1%nat 9%nat 1%nat (300 # 1) approved]
  /\ remaining_shares (setRemaining offering 70) <> remaining_shares offering - 0
  /\ ~ (300 # 1 == inject_Z 0 * (10 # 1))%Q.
Proof.
  split; [intros st id; reflexivity|].
  vm_compute. repeat split; try reflexivity; discriminate.
Qed.

(** C3, as the code has it.  For a pending request whose business exists,
    when the count the handler uses (the supplied [approved_shares], or the
    requested count when that is omitted or zero) is above the remaining
    shares, the handler answers 400 and the store is left exactly as it
    was: with "Only n shares remaining" when the count is within the
    requested shares, and with "Approved shares cannot exceed requested
    shares" when it is above them too, that guard coming first. *)
Theorem approveShareRequest_over_capacity st id approved_shares r b :
  ShareRequest_findById st id = Some r ->
  sr_status r = pending ->
  Business_findById st (business_id r) = Some b ->
  let k := orRequested approved_shares (requested_shares r) in
  remaining_shares b < k ->
  approveShareRequest st id approved_shares
  = (Failed 400 (if k >? requested_shares r then ExceedsRequested
                 else OnlyRemaining (remaining_shares b)),
     st).
Proof.
  intros Hr Hp Hb k Hover.
  unfold approveShareRequest. rewrite Hr, Hp. cbn [status_eqb negb]. fold k.
  destruct (k >? requested_shares r); [reflexivity|].
  rewrite Hb. destruct (Z.gtb_spec k (remaining_shares b)); [reflexivity|lia].
Qed.

(** The theorem at 25 approved shares with 20 remaining. *)
Lemma approveShareRequest_over_capacity_witness :
  approveShareRequest st20 1%nat (Some 25) = (Failed 400 (OnlyRemaining 20), st20).
Proof.
  apply (approveShareRequest_over_capacity st20 1%nat (Some 25)
           (mkShareRequest 1%nat 9%nat 1%nat 30 (10 # 1) (300 # 1) pending None)
           (setRemaining offering 20));
    [reflexivity | reflexivity | reflexivity | cbn; lia].
Defined.

(** C3 as stated fails when the approved count is above the requested
    count as well: 50 approved with 30 requested and 40 remaining is
    refused for exceeding the request, not for capacity. *)
Lemma approveShareRequest_over_both :
  approveShareRequest st40 1%nat (Some 50) = (Failed 400 ExceedsRequested, st40)
  /\ fst (approveShareRequest st40 1%nat (Some 50)) <> Failed 400 (OnlyRemaining 40).
Proof. split; [reflexivity | vm_compute; discriminate]. Qed.

(** The status guard of the approve handler: a decided request is refused
    and nothing is written. *)
Lemma approveShareRequest_refuses_decided st id approved_shares r :
  ShareRequest_findById st id = Some r ->
  sr_status r <> pending ->
  approveShareRequest st id approved_shares = (Failed 400 AlreadyProcessed, st).
Proof.
  intros Hr Hp. unfold approveShareRequest. rewrite Hr.
  destruct (statusP (sr_status r) pending); [contradiction|reflexivity].
Qed.

(** C4 at its failing input: the reject handler has no such guard.  The
    request approved in the scenario is rejected afterwards with answer 200;
    its status goes from approved to rejected while the 20 shares stay
    taken and the investment stays recorded. *)
Theorem rejectShareRequest_after_approval :
  ShareRequest_findById st2 1%nat
  = Some (mkShareRequest 1%nat 9%nat 1%nat 30 (10 # 1) (300 # 1) approved None)
  /\ fst (rejectShareRequest st2 1%nat (Some "changed my mind"%string)) = Sent 200
  /\ shareRequests (snd (rejectShareRequest st2 1%nat (Some "changed my mind"%string)))
     = [mkShareRequest 1%nat 9%nat 1%nat 30 (10 # 1) (300 # 1) rejected
                       (Some "changed my mind"%string)]
  /\ businesses (snd (rejectShareRequest st2 1%nat (Some "changed my mind"%string)))
     = [setRemaining offering 80]
  /\ investments (snd (rejectShareRequest st2 1%nat (Some "changed my mind"%string)))
     = [mkInvestment 1%nat 9%nat 1%nat (200 # 1) approved].
Proof. vm_compute. repeat split; reflexivity. Qed.

(** With a positive new total the ratio is the new total over itself, so
    the remaining shares are kept as they are. *)
Lemma rescale_positive b n :
  0 < n -> rescale b n = setRemaining (setTotal b n) (remaining_shares b).
Proof.
  intros Hn. unfold rescale. cbn [total_shares setTotal remaining_shares].
  destruct (Z.gtb_spec n 0) as [_|?]; [|lia].
  f_equal.
  assert (E : (inject_Z (remaining_shares b) * (inject_Z n / inject_Z n)
               == inject_Z (remaining_shares b))%Q).
  { field. change 0%Q with (inject_Z 0). rewrite inject_Z_injective. lia. }
  rewrite E. apply Qfloor_Z.
Qed.

Lemma rescale_nonpositive b n :
  n <= 0 -> rescale b n = setRemaining (setTotal b n) n.
Proof.
  intros Hn. unfold rescale. cbn [total_shares setTotal].
  destruct (Z.gtb_spec n 0); [lia|reflexivity].
Qed.

(** C5 at its failing input: 60 of 100 shares remain and the total is
    edited to 200.  The claim has [floor (60 * 200 / 100) = 120] remaining
    shares; the handler stores 60. *)
Theorem updatePublicBusiness_no_rescale :
  updatePublicBusiness st60 1%nat (totalOnly 200)
  = (Sent 200, mkStore [setRemaining (setTotal offering 200) 60] [] [] [])
  /\ Qfloor (inject_Z 60 * (inject_Z 200 / inject_Z 100)) = 120
  /\ remaining_shares (setRemaining (setTotal offering 200) 60) <> 120.
Proof. vm_compute. repeat split; try reflexivity. discriminate. Qed.

(** The other core operations and the inventory bound.  Requests and
    rejections do not write to a business at all. *)
Lemma requestShares_keeps_businesses st investor business requested value :
  businesses (snd (requestShares st investor business requested value))
  = businesses st.
Proof.
  unfold requestShares.
  destruct (validateShareRequest requested value); [reflexivity|].
  destruct (Business_findById st business) as [b|]; [|reflexivity].
  destruct (negb (isPublic b)); [reflexivity|].
  destruct (requested >? remaining_shares b); [reflexivity|].
  unfold ShareRequest_create.
  destruct (_ && _ && _); [|reflexivity].
  unfold notifyEntrepreneur. destruct (entrepreneur_id b); reflexivity.
Qed.

Lemma investorRequestShares_keeps_businesses st investor business requested :
  businesses (snd (investorRequestShares st investor business requested))
  = businesses st.
Proof.
  unfold investorRequestShares.
  destruct (find _ (businesses st)) as [b|]; [|reflexivity].
  destruct (belowMinimum b requested); [reflexivity|].
  destruct (hasPendingRequest st investor business); [reflexivity|].
  unfold ShareRequest_create.
  destruct (_ && _ && _); reflexivity.
Qed.

Lemma rejectShareRequest_keeps_businesses st id reason :
  businesses (snd (rejectShareRequest st id reason)) = businesses st.
Proof.
  unfold rejectShareRequest.
  destruct (ShareRequest_findById st id); reflexivity.
Qed.

(** An approval keeps the bound on every business as long as the count it
    uses is not negative: an omitted count, or a supplied one from 0 up,
    with stored requests asking for at least one share. *)
Lemma approveShareRequest_keeps_bound st id approved_shares :
  (forall n, approved_shares = Some n -> 0 <= n) ->
  Forall (fun r => 1 <= requested_shares r) (shareRequests st) ->
  Forall sharesBounded (businesses st) ->
  Forall sharesBounded (businesses (snd (approveShareRequest st id approved_shares))).
Proof.
  intros Hn Hreq Hinv. unfold approveShareRequest.
  destruct (ShareRequest_findById st id) as [r|] eqn:Hr; [|exact Hinv].
  destruct (negb (status_eqb (sr_status r) pending)); [exact Hinv|].
  set (k := orRequested approved_shares (requested_shares r)).
  destruct (k >? requested_shares r); [exact Hinv|].
  destruct (Business_findById st (business_id r)) as [b|] eqn:Hb; [|exact Hinv].
  destruct (Z.gtb_spec k (remaining_shares b)) as [|Hrem]; [exact Hinv|].
  assert (Hk : 0 <= k).
  { apply find_some in Hr. destruct Hr as [Hin _].
    rewrite Forall_forall in Hreq. specialize (Hreq r Hin).
    subst k. unfold orRequested. destruct approved_shares as [n|]; [|lia].
    specialize (Hn n eq_refl). destruct (n =? 0); lia. }
  assert (Hbounded : sharesBounded b).
  { apply find_some in Hb. destruct Hb as [Hin _].
    rewrite Forall_forall in Hinv. apply Hinv, Hin. }
  assert (Hnew : Forall sharesBounded
                   (map (fun x => if Nat.eqb (b_id x) (b_id b)
                                  then setRemaining b (remaining_shares b - k)
                                  else x)
                        (businesses st))).
  { rewrite Forall_map. rewrite Forall_forall in *. intros x Hx.
    destruct (Nat.eqb (b_id x) (b_id b)); [|apply Hinv, Hx].
    unfold sharesBounded in *. cbn. lia. }
  unfold Investment_create.
  destruct (Qle_bool 0 _); [|exact Hnew].
  unfold notifyEntrepreneur. destruct (entrepreneur_id b); exact Hnew.
Qed.

(** C1 at its failing input: no share sold, and the total is edited from
    100 down to 50.  The bound holds before and fails after, with 100
    remaining of 50. *)
Theorem updatePublicBusiness_breaks_bound :
  sharesBounded offering
  /\ updatePublicBusiness st0 1%nat (totalOnly 50)
     = (Sent 200, mkStore [setRemaining (setTotal offering 50) 100] [] [] [])
  /\ ~ sharesBounded (setRemaining (setTotal offering 50) 100).
Proof.
  split; [|split].
  - unfold sharesBounded. cbn. lia.
  - vm_compute. reflexivity.
  - unfold sharesBounded. cbn. lia.
Qed.

(** C9 at its failing input: investor 9 already has a pending request for
    business 1, and asks again through POST /shares/:businessId/request.
    The answer is 201 and a second pending request is stored. *)
Theorem requestShares_duplicate :
  hasPendingRequest st1 9%nat 1%nat = true
  /\ fst (requestShares st1 9%nat 1%nat 10 (Some (10 # 1))) = Sent 201
  /\ shareRequests (snd (requestShares st1 9%nat 1%nat 10 (Some (10 # 1))))
     = [mkShareRequest 1%nat 9%nat 1%nat 30 (10 # 1) (300 # 1) pending None;
        mkShareRequest 2%nat 9%nat 1%nat 10 (10 # 1) (100 # 1) pending None].
Proof. vm_compute. repeat split; reflexivity. Qed.

(** The investor flow does refuse the duplicate, whatever else holds. *)
Lemma investorRequestShares_duplicate st investor business requested :
  hasPendingRequest st investor business = true ->
  snd (investorRequestShares st investor business requested) = st
  /\ exists status why,
       fst (investorRequestShares st investor business requested) = Failed status why.
Proof.
  intros Hdup. unfold investorRequestShares.
  destruct (find _ (businesses st)) as [b|];
    [destruct (belowMinimum b requested); [|rewrite Hdup]|];
    cbn [fst snd]; (split; [reflexivity | do 2 eexists; reflexivity]).
Qed.

Lemma investorRequestShares_conflict st investor businessId requested business :
  find (fun b => Nat.eqb (b_id b) businessId && isActive b && isPublic b)
       (businesses st) = Some business ->
  belowMinimum business requested = false ->
  hasPendingRequest st investor businessId = true ->
  investorRequestShares st investor businessId requested
  = (Failed 400 AlreadyPendingRequest, st).
Proof.
  intros Hb Hmin Hdup. unfold investorRequestShares.
  rewrite Hb, Hmin, Hdup. reflexivity.
Qed.

End ShareClaims.

(* ================================================================== *)
(** ** Recurring expenses *)

Section ExpenseFacts.

Import JSDate Expenses.

Lemma expenseStatusP (a b : Status) : reflect (a = b) (status_eqb a b).
Proof. destruct a, b; constructor; congruence. Qed.

Lemma freshId_above (ids : list ObjectId) (i : ObjectId) :
  In i ids -> (i < freshId ids)%nat.
Proof.
  intros Hin. unfold freshId.
  assert (H : Forall (fun k => (k <= list_max ids)%nat) ids)
    by (apply list_max_le; lia).
  rewrite Forall_forall in H. specialize (H i Hin). lia.
Qed.

Lemma freshId_new (st : list Expense) (e : Expense) :
  In e st -> _id e <> freshId (map _id st).
Proof.
  intros Hin. pose proof (freshId_above (map _id st) (_id e) (in_map _id st e Hin)).
  lia.
Qed.

Lemma findById_In st id e : Expense_findById st id = Some e -> In e st /\ _id e = id.
Proof.
  intros H. apply find_some in H. destruct H as [Hin Hid].
  split; [exact Hin | apply Nat.eqb_eq, Hid].
Qed.

Lemma findByIdAndUpdate_app id f st more e :
  Expense_findById st id = Some e ->
  findByIdAndUpdate id f (st ++ more) = findByIdAndUpdate id f st ++ more.
Proof.
  unfold Expense_findById. induction st as [|x st IH]; [discriminate|].
  cbn [find app findByIdAndUpdate].
  destruct (Nat.eqb (_id x) id); [reflexivity|].
  intros H. rewrite (IH H). reflexivity.
Qed.

Lemma findByIdAndUpdate_found id f st e :
  (forall x, _id (f x) = _id x) ->
  Expense_findById st id = Some e ->
  Expense_findById (findByIdAndUpdate id f st) id = Some (f e).
Proof.
  intros Hf. unfold Expense_findById. induction st as [|x st IH]; [discriminate|].
  cbn [find findByIdAndUpdate].
  destruct (Nat.eqb (_id x) id) eqn:E.
  - intros [= ->]. cbn [find]. rewrite Hf, E. reflexivity.
  - intros H. cbn [find]. rewrite E. apply IH, H.
Qed.

(** The status under which the hook stores a freshly built successor. *)
Lemma preSave_successor now e d i :
  preSave now (withId (nextOccurrenceOf e d) i)
  = withStatus (withId (nextOccurrenceOf e d) i)
               (if d <? now then overdue else pending).
Proof.
  unfold preSave. cbn. destruct (d <? now); reflexivity.
Qed.

Lemma preSave_id now e : _id (preSave now e) = _id e.
Proof. unfold preSave. destruct (_ && _ && _); reflexivity. Qed.

(** The hook turns a recursive, pending, past-due document overdue and
    leaves every other document alone. *)
Lemma preSave_spec now e :
  (type e = recursive -> status e = pending -> due_date e < now ->
   preSave now e = withStatus e overdue)
  /\ (~ (type e = recursive /\ status e = pending /\ due_date e < now) ->
      preSave now e = e).
Proof.
  unfold preSave, isRecursive. split.
  - intros -> -> Hd. destruct (Z.ltb_spec (due_date e) now); [reflexivity|lia].
  - intros Hnot.
    destruct (type e); [reflexivity|].
    destruct (expenseStatusP (status e) pending) as [Hs|]; [|reflexivity].
    destruct (Z.ltb_spec (due_date e) now); [|reflexivity].
    exfalso. apply Hnot. repeat split; assumption.
Qed.

(** What the hook hands to the store is never recursive, pending and past
    due at once. *)
Lemma preSave_settled now e :
  ~ (type (preSave now e) = recursive
     /\ status (preSave now e) = pending
     /\ due_date (preSave now e) < now).
Proof.
  intros (Ht & Hs & Hd). unfold preSave in *.
  destruct (isRecursive e && status_eqb (status e) pending
            && (due_date e <? now)) eqn:E.
  - cbn in Hs. discriminate Hs.
  - unfold isRecursive in E. rewrite Ht, Hs in E. cbn in E.
    apply Z.ltb_ge in E. lia.
Qed.

Lemma Expense_save_found now doc st id e :
  Expense_findById st id = Some e -> _id doc = _id e ->
  Expense_findById (Expense_save now doc st) id = Some (preSave now doc).
Proof.
  intros Hfind Hid.
  destruct (findById_In st id e Hfind) as [_ He].
  revert Hfind. unfold Expense_findById, Expense_save.
  induction st as [|x st IH]; [discriminate|].
  cbn [find map]. destruct (Nat.eqb_spec (_id x) id) as [Ex|Nx].
  - intros _. destruct (Nat.eqb_spec (_id x) (_id doc)) as [_|N]; [|congruence].
    cbn [find]. rewrite preSave_id, Hid, He, Nat.eqb_refl. reflexivity.
  - intros Hfind. destruct (Nat.eqb_spec (_id x) (_id doc)) as [E|_]; [congruence|].
    cbn [find]. destruct (Nat.eqb_spec (_id x) id); [contradiction|].
    apply IH, Hfind.
Qed.

(** Saving a document leaves, under its identifier, what the hook made of
    it, and leaves every other document as it was. *)
Lemma Expense_save_stored now doc st x :
  In x (Expense_save now doc st) -> _id x = _id doc -> x = preSave now doc.
Proof.
  unfold Expense_save. rewrite in_map_iff. intros (y & Hy & _) Hid.
  destruct (Nat.eqb_spec (_id y) (_id doc)) as [_|Hne]; [symmetry; exact Hy|].
  subst x. contradiction.
Qed.

Lemma Expense_save_other now doc st x :
  In x st -> _id x <> _id doc -> In x (Expense_save now doc st).
Proof.
  intros Hin Hne. unfold Expense_save. apply in_map_iff. exists x.
  destruct (Nat.eqb_spec (_id x) (_id doc)); [contradiction|]. split; trivial.
Qed.

Lemma Expense_save_others now doc st x :
  In x (Expense_save now doc st) -> _id x <> _id doc -> In x st.
Proof.
  unfold Expense_save. rewrite in_map_iff. intros (y & Hy & Hin) Hne.
  destruct (Nat.eqb_spec (_id y) (_id doc)) as [E|_]; [|subst x; exact Hin].
  exfalso. apply Hne. subst x. apply preSave_id.
Qed.

Lemma findById_fresh st x :
  ~ In (_id x) (map _id st) -> Expense_findById (st ++ [x]) (_id x) = Some x.
Proof.
  unfold Expense_findById. induction st as [|y st IH]; intros Hnew.
  - cbn [app find]. rewrite Nat.eqb_refl. reflexivity.
  - cbn [app find]. destruct (Nat.eqb_spec (_id y) (_id x)) as [E|_].
    + exfalso. apply Hnew. left. exact E.
    + apply IH. intros Hin. apply Hnew. right. exact Hin.
Qed.

(** The document a lookup finds is the first one under that identifier,
    and it is the one [findByIdAndUpdate] replaces. *)
Lemma findByIdAndUpdate_split st id e :
  Expense_findById st id = Some e ->
  exists before after,
    st = before ++ e :: after
    /\ Forall (fun x => _id x <> id) before
    /\ forall f, findByIdAndUpdate id f st = before ++ f e :: after.
Proof.
  unfold Expense_findById. induction st as [|x st IH]; [discriminate|].
  cbn [find]. destruct (Nat.eqb_spec (_id x) id) as [E|Hne].
  - intros [= ->]. exists [], st. split; [reflexivity|]. split; [constructor|].
    intros f. cbn [findByIdAndUpdate app]. rewrite E, Nat.eqb_refl. reflexivity.
  - intros H. destruct (IH H) as (before & after & -> & Hb & Hf).
    exists (x :: before), after. split; [reflexivity|].
    split; [constructor; assumption|].
    intros f. cbn [findByIdAndUpdate app].
    destruct (Nat.eqb_spec (_id x) id); [contradiction|]. rewrite Hf. reflexivity.
Qed.

Lemma findByIdAndUpdate_length id f l :
  List.length (findByIdAndUpdate id f l) = List.length l.
Proof.
  induction l as [|x l IH]; [reflexivity|].
  cbn [findByIdAndUpdate]. destruct (Nat.eqb (_id x) id); cbn; congruence.
Qed.

End ExpenseFacts.

Section ExpenseClaims.

Import JSDate Expenses ExpectedExpense ExpenseScenario.

Lemma Expense_create_successor now e d st :
  Expense_create now (castNextOccurrence e (Some d)) st
  = Some (successorOf e (freshId (map _id st)) d (if d <? now then overdue else pending),
          st ++ [successorOf e (freshId (map _id st)) d
                             (if d <? now then overdue else pending)]).
Proof.
  unfold Expense_create, castNextOccurrence. cbn [option_map].
  rewrite preSave_successor. reflexivity.
Qed.

(** The two writes of "mark paid", for an expense the handler finds and a
    payment method that is not empty. *)
Lemma markExpensePaid_run now st id paid_date m e :
  m <> ""%string ->
  Expense_findById st id = Some e ->
  markExpensePaid now st id paid_date (Some m)
  = match (if isRecursive e && is_active e
           then option_map
                  (fun d => st ++ [successorOf e (freshId (map _id st)) d
                                     (if d <? now then overdue else pending)])
                  (calculateNextDueDate (due_date e) (frequencyArg (frequency e))
                                        (frequency_value e))
           else Some st) with
    | None => (Failed 500 Thrown, st)
    | Some st1 =>
      match castUpdate (paidDateOf now paid_date) m with
      | None => (Failed 500 Thrown, st1)
      | Some update => (Sent 200, findByIdAndUpdate id update st1)
      end
    end.
Proof.
  intros Hm He. unfold markExpensePaid.
  destruct (String.eqb_spec m "") as [E|_]; [contradiction|].
  rewrite He.
  destruct (isRecursive e && is_active e); [|reflexivity].
  destruct (calculateNextDueDate _ _ _) as [d|]; [|reflexivity].
  rewrite Expense_create_successor. reflexivity.
Qed.

Lemma paymentMethodOf_nonempty m method : paymentMethodOf m = Some method -> m <> ""%string.
Proof. intros H E. subst m. discriminate H. Qed.

(** The store a successful "mark paid" leaves. *)
Lemma markExpensePaid_store now st id paid_date m method paid e :
  Expense_findById st id = Some e ->
  paymentMethodOf m = Some method ->
  paidDateOf now paid_date = Some paid ->
  markExpensePaid now st id paid_date (Some m)
  = if isRecursive e && is_active e
    then match calculateNextDueDate (due_date e) (frequencyArg (frequency e))
                                    (frequency_value e) with
         | Some d =>
           (Sent 200,
            findByIdAndUpdate id (fun x => markPaidUpdate x paid method) st
            ++ [successorOf e (freshId (map _id st)) d
                            (if d <? now then overdue else pending)])
         | None => (Failed 500 Thrown, st)
         end
    else (Sent 200, findByIdAndUpdate id (fun x => markPaidUpdate x paid method) st).
Proof.
  intros He Hm Hpaid.
  rewrite (markExpensePaid_run now st id paid_date m e
             (paymentMethodOf_nonempty m method Hm) He).
  rewrite Hpaid. unfold castUpdate. rewrite Hm.
  destruct (isRecursive e && is_active e); [|reflexivity].
  destruct (calculateNextDueDate _ _ _) as [d|]; [|reflexivity].
  cbn [option_map]. rewrite (findByIdAndUpdate_app _ _ _ _ e He). reflexivity.
Qed.

(** C8, as the code has it.  For an existing expense [e], a payment method
    that is one of the four of the model, and a paid date that is omitted
    or is a valid date: when [e] is one-time or inactive, the handler
    answers 200 and stores [e] as paid, with the supplied paid date, or the
    current time when none is supplied, and the payment method, and adds
    no record.  When [e] is recursive and active and its next due date,
    [calculateNextDueDate] of [e]'s due date, frequency and frequency
    value, is a valid date, the handler does the same and adds exactly one
    record, whether or not a pending successor exists already: a recursive,
    active, unpaid record due on that date, with the name, category,
    amount, priority, frequency and frequency value of [e], whose parent is
    [e]'s parent or, when [e] has none, [e] itself; it is stored as
    pending, unless that due date is already earlier than the current
    time, in which case the model's save hook stores it as overdue.  When
    the next due date is an Invalid Date instead, the handler answers 500
    and writes nothing.  In the scenario, paying on 5 January 2024 the
    monthly expense due on 1 January adds a pending successor due on
    1 February whose parent is the origin; paying that successor adds a
    record due on 1 March with the same origin as its parent. *)
Theorem markExpensePaid_effect :
  (forall m method,
      paymentMethodOf m = Some method <->
      In (m, method) [("cash", cash); ("credit_card", credit_card);
                      ("bank_transfer", bank_transfer); ("check", check)]%string)
  /\ (forall now paid,
         paidDateOf now None = Some now /\ paidDateOf now (Some (Some paid)) = Some paid
         /\ paidDateOf now (Some None) = None)
  /\ (forall now st id paid_date m method paid e,
      Expense_findById st id = Some e ->
      paymentMethodOf m = Some method ->
      paidDateOf now paid_date = Some paid ->
      let next := calculateNextDueDate (due_date e) (frequencyArg (frequency e))
                                       (frequency_value e) in
      let st' := snd (markExpensePaid now st id paid_date (Some m)) in
      exists before after,
      st = before ++ e :: after
      /\ Forall (fun x => _id x <> id) before
      /\ let marked := before ++ markPaidUpdate e paid method :: after in
      (type e = one_time \/ is_active e = false ->
       markExpensePaid now st id paid_date (Some m) = (Sent 200, marked))
      /\ (type e = recursive -> is_active e = true -> next = None ->
          markExpensePaid now st id paid_date (Some m) = (Failed 500 Thrown, st))
      /\ (type e = recursive -> is_active e = true ->
          forall d, next = Some d ->
          exists s,
            markExpensePaid now st id paid_date (Some m) = (Sent 200, marked ++ [s])
            /\ s = successorOf e (freshId (map _id st)) d
                               (if d <? now then overdue else pending)
            /\ ~ In (_id s) (map _id st)
            /\ due_date s = d /\ type s = recursive /\ is_active s = true
            /\ Expenses.paid_date s = None
            /\ name s = name e /\ category s = category e /\ amount s = amount e
            /\ priority s = priority e /\ frequency s = frequency e
            /\ frequency_value s = frequency_value e
            /\ (parent_id e = None -> parent_id s = Some (_id e))
            /\ (forall p, parent_id e = Some p -> parent_id s = Some p)
            /\ (now <= d -> status s = pending)
            /\ (d < now -> status s = overdue))
      /\ (fst (markExpensePaid now st id paid_date (Some m)) = Sent 200 ->
          exists e', Expense_findById st' id = Some e'
                     /\ e' = markPaidUpdate e paid method
                     /\ withStatus e' (status e)
                        = mkExpense (_id e) (name e) (category e) (amount e) (type e)
                                    (priority e) (due_date e) (Some paid)
                                    (description e) (Some method) (status e)
                                    (frequency e) (frequency_value e) (parent_id e)
                                    (is_active e) (created_by e)
                     /\ status e' = Expenses.paid
                     /\ Expenses.paid_date e' = Some paid
                     /\ payment_method e' = Some method))
  /\ markExpensePaid (ymd 2024 1 5) [rent] 1%nat None (Some "cash"%string)
     = (Sent 200,
        [markPaidUpdate rent (ymd 2024 1 5) cash;
         successor 2%nat (ymd 2024 2 1) pending])
  /\ markExpensePaid (ymd 2024 2 3) [rent; february] 2%nat
                     (Some (Some (ymd 2024 2 2))) (Some "check"%string)
     = (Sent 200,
        [rent; markPaidUpdate february (ymd 2024 2 2) check;
         successor 3%nat (ymd 2024 3 1) pending]).
Proof.
  split; [|split; [|split; [|split; vm_compute; reflexivity]]].
  { intros m method. unfold paymentMethodOf. cbn [In]. split.
    - destruct (String.eqb_spec m "cash") as [->|]; [intros [= <-]; tauto|].
      destruct (String.eqb_spec m "credit_card") as [->|]; [intros [= <-]; tauto|].
      destruct (String.eqb_spec m "bank_transfer") as [->|]; [intros [= <-]; tauto|].
      destruct (String.eqb_spec m "check") as [->|]; [intros [= <-]; tauto|].
      discriminate.
    - intros [[= <- <-]|[[= <- <-]|[[= <- <-]|[[= <- <-]|[]]]]]; reflexivity. }
  { intros now paid. repeat split. }
  intros now st id paid_date0 m method paid e He Hm Hpaid next st'.
  pose proof (markExpensePaid_store now st id paid_date0 m method paid e He Hm Hpaid)
    as Hrun.
  fold next in Hrun.
  assert (Hfound : Expense_findById
                     (findByIdAndUpdate id (fun x => markPaidUpdate x paid method) st) id
                   = Some (markPaidUpdate e paid method))
    by (apply (findByIdAndUpdate_found id (fun x => markPaidUpdate x paid method) st e);
        [reflexivity | exact He]).
  destruct (findByIdAndUpdate_split st id e He) as (before & after & Hst & Hbefore & Hupd).
  exists before, after. split; [exact Hst|]. split; [exact Hbefore|].
  intros marked.
  assert (Hmarked : findByIdAndUpdate id (fun x => markPaidUpdate x paid method) st
                    = marked) by (rewrite Hupd; reflexivity).
  rewrite Hmarked in Hrun, Hfound.
  split; [|split; [|split]].
  - intros Hplain. rewrite Hrun.
    replace (isRecursive e && is_active e) with false; [reflexivity|].
    unfold isRecursive. destruct Hplain as [-> | ->]; [reflexivity|].
    rewrite andb_false_r. reflexivity.
  - intros Ht Ha Hnone. rewrite Hrun. unfold isRecursive. rewrite Ht, Ha, Hnone.
    reflexivity.
  - intros Ht Ha d Hd. eexists. split; [|split; [reflexivity|]].
    + rewrite Hrun. unfold isRecursive. rewrite Ht, Ha, Hd. reflexivity.
    + cbn [_id due_date type is_active Expenses.paid_date name category amount
           priority frequency frequency_value parent_id status successorOf].
      split.
      { intros Hin. pose proof (freshId_above _ _ Hin). lia. }
      repeat split.
      * intros Hnone. unfold originOf. rewrite Hnone. reflexivity.
      * intros p Hp. unfold originOf. rewrite Hp. reflexivity.
      * intros Hle. destruct (Z.ltb_spec d now); [lia|reflexivity].
      * intros Hlt. destruct (Z.ltb_spec d now); [reflexivity|lia].
  - intros Hok.
    exists (markPaidUpdate e paid method). split; [|repeat split].
    subst st'. revert Hok. rewrite Hrun.
    destruct (isRecursive e && is_active e); [|intros _; exact Hfound].
    destruct next as [d|]; [|discriminate].
    intros _. cbn [snd]. unfold Expense_findById in *. apply find_app_found, Hfound.
Qed.

(** The theorem at the scenario. *)
Lemma markExpensePaid_effect_witness :
  exists before after s,
    [rent] = (before ++ rent :: after)%list
    /\ markExpensePaid (ymd 2024 1 5) [rent] 1%nat None (Some "cash"%string)
       = (Sent 200,
          (before ++ markPaidUpdate rent (ymd 2024 1 5) cash :: after) ++ [s])
    /\ due_date s = ymd 2024 2 1
    /\ parent_id s = Some 1%nat
    /\ status s = pending.
Proof.
  destruct markExpensePaid_effect as (_ & _ & H & _).
  destruct (H (ymd 2024 1 5) [rent] 1%nat None "cash"%string cash (ymd 2024 1 5) rent
              eq_refl eq_refl eq_refl)
    as (before & after & Hst & _ & _ & _ & Hrec & _).
  destruct (Hrec eq_refl eq_refl (ymd 2024 2 1)) as (s & Hrun & _ & _ & Hd & Hrest);
    [vm_compute; reflexivity|].
  exists before, after, s. split; [exact Hst|]. split; [exact Hrun|]. split; [exact Hd|].
  destruct Hrest as (_ & _ & _ & _ & _ & _ & _ & _ & _ & Hpar & _ & Hpend & _).
  split; [apply Hpar; reflexivity | apply Hpend; vm_compute; discriminate].
Defined.

(** C8 as stated fails when the next due date is already past: paying on
    5 March 2024 the monthly expense due on 1 January adds a successor due
    on 1 February, stored as overdue and not as pending. *)
Lemma markExpensePaid_late :
  snd (markExpensePaid (ymd 2024 3 5) [rent] 1%nat None (Some "cash"%string))
  = [markPaidUpdate rent (ymd 2024 3 5) cash;
     successor 2%nat (ymd 2024 2 1) overdue]
  /\ status (successor 2%nat (ymd 2024 2 1) overdue) <> pending.
Proof. split; [vm_compute; reflexivity | discriminate]. Qed.

(** C10.  The save hook turns a recursive, pending document whose due date
    is earlier than the time of the save into an overdue one and leaves
    every other document as it is.  [create] stores what the hook made of
    the document, under a new identifier, after the documents already
    there; [save] stores what the hook made of the document under the
    document's identifier, where a document was, and touches no other.  So
    whatever the document, what either leaves in the store for it is never
    recursive, pending and past due at once, and it is overdue when the
    document was recursive, pending and past due.  In particular the
    successor that "mark paid" or the hourly task builds with a next due
    date earlier than the current time is stored as overdue. *)
Theorem preSave_overdue :
  (forall now e,
      (type e = recursive -> status e = pending -> due_date e < now ->
       preSave now e = withStatus e overdue /\ status (preSave now e) = overdue)
      /\ (~ (type e = recursive /\ status e = pending /\ due_date e < now) ->
          preSave now e = e)
      /\ ~ (type (preSave now e) = recursive
            /\ status (preSave now e) = pending
            /\ due_date (preSave now e) < now))
  /\ (forall now doc st,
         exists stored,
           Expense_create now (Some doc) st = Some (stored, st ++ [stored])
           /\ stored = preSave now (withId doc (freshId (map _id st)))
           /\ ~ In (_id stored) (map _id st)
           /\ Expense_findById (st ++ [stored]) (_id stored) = Some stored
           /\ ~ (type stored = recursive /\ status stored = pending
                 /\ due_date stored < now)
           /\ (type doc = recursive -> status doc = pending -> due_date doc < now ->
               status stored = overdue))
  /\ (forall now doc st e,
         Expense_findById st (_id doc) = Some e ->
         let st' := Expense_save now doc st in
         Expense_findById st' (_id doc) = Some (preSave now doc)
         /\ (forall x, In x st' -> _id x = _id doc -> x = preSave now doc)
         /\ (forall x, _id x <> _id doc -> (In x st' <-> In x st))
         /\ map _id st' = map _id st
         /\ (forall x, In x st' -> _id x = _id doc ->
               ~ (type x = recursive /\ status x = pending /\ due_date x < now))
         /\ (type doc = recursive -> status doc = pending -> due_date doc < now ->
             forall x, In x st' -> _id x = _id doc -> status x = overdue))
  /\ (forall now st id paid_date m method paid e d,
         Expense_findById st id = Some e ->
         paymentMethodOf m = Some method ->
         paidDateOf now paid_date = Some paid ->
         type e = recursive -> is_active e = true ->
         calculateNextDueDate (due_date e) (frequencyArg (frequency e))
                              (frequency_value e) = Some d ->
         d < now ->
         exists s, In s (snd (markExpensePaid now st id paid_date (Some m)))
                   /\ _id s = freshId (map _id st)
                   /\ due_date s = d /\ status s = overdue)
  /\ (forall now st e d,
         In e st ->
         find (isNextOccurrence e) st = None ->
         truthy (frequency e) = true ->
         calculateNextDueDate (due_date e) (frequencyArg (frequency e))
                              (frequency_value e) = Some d ->
         d < now ->
         exists st' s, sweepOne now st e = Some st'
                       /\ In s st'
                       /\ _id s = freshId (map _id st)
                       /\ due_date s = d /\ status s = overdue).
Proof.
  split; [|split; [|split; [|split]]].
  - intros now e. destruct (preSave_spec now e) as [Hflip Hkeep].
    split; [|split; [exact Hkeep | apply preSave_settled]].
    intros Ht Hs Hd. rewrite (Hflip Ht Hs Hd). split; reflexivity.
  - intros now doc st. eexists. split; [reflexivity|]. split; [reflexivity|].
    rewrite preSave_id. cbn [_id withId].
    assert (Hnew : ~ In (freshId (map _id st)) (map _id st))
      by (intros Hin; pose proof (freshId_above _ _ Hin); lia).
    split; [exact Hnew|].
    split.
    + rewrite <- (preSave_id now (withId doc (freshId (map _id st)))) at 2.
      apply findById_fresh. rewrite preSave_id. exact Hnew.
    + split; [apply preSave_settled|].
      intros Ht Hs Hd.
      destruct (preSave_spec now (withId doc (freshId (map _id st)))) as [Hflip _].
      rewrite Hflip by assumption. reflexivity.
  - intros now doc st e He st'. subst st'.
    split; [apply (Expense_save_found now doc st (_id doc) e He)|].
    { destruct (findById_In st (_id doc) e He) as [_ Hid]. symmetry. exact Hid. }
    split; [intros x Hx Hid; apply (Expense_save_stored now doc st x Hx Hid)|].
    split.
    { intros x Hne. split; [intros Hx; apply (Expense_save_others now doc st x Hx Hne)
                           | intros Hx; apply Expense_save_other; assumption]. }
    split.
    { unfold Expense_save. rewrite map_map. apply map_ext. intros x.
      destruct (Nat.eqb_spec (_id x) (_id doc)) as [E|_]; [|reflexivity].
      rewrite preSave_id. symmetry. exact E. }
    split.
    + intros x Hx Hid. rewrite (Expense_save_stored now doc st x Hx Hid).
      apply preSave_settled.
    + intros Ht Hs Hd x Hx Hid. rewrite (Expense_save_stored now doc st x Hx Hid).
      destruct (preSave_spec now doc) as [Hflip _].
      rewrite Hflip by assumption. reflexivity.
  - intros now st id paid_date0 m method paid e d He Hm Hpaid Ht Ha Hnext Hd.
    rewrite (markExpensePaid_store now st id paid_date0 m method paid e He Hm Hpaid).
    unfold isRecursive. rewrite Ht, Ha, Hnext. cbn [andb snd].
    destruct (Z.ltb_spec d now); [|lia].
    eexists. split; [apply in_or_app; right; left; reflexivity|].
    repeat split.
  - intros now st e d Hin Hnone Hfreq Hnext Hd.
    unfold sweepOne. rewrite Hnone, Hfreq, Hnext, Expense_create_successor.
    cbn [option_map snd].
    destruct (Z.ltb_spec d now); [|lia].
    eexists. exists (successorOf e (freshId (map _id st)) d overdue).
    split; [reflexivity|]. split; [|repeat split].
    assert (Hs : In (successorOf e (freshId (map _id st)) d overdue)
                    (st ++ [successorOf e (freshId (map _id st)) d overdue]))
      by (apply in_or_app; right; left; reflexivity).
    destruct ((due_date e <? now) && status_eqb (status e) pending); [|exact Hs].
    apply Expense_save_other; [exact Hs|].
    cbn. intros E. apply (freshId_new st e Hin). symmetry. exact E.
Qed.

(** The theorem at the late payment: the successor due on 1 February 2024,
    created on 5 March, is stored as overdue. *)
Lemma preSave_overdue_witness :
  exists s, In s (snd (markExpensePaid (ymd 2024 3 5) [rent] 1%nat None
                                       (Some "cash"%string)))
            /\ _id s = freshId (map _id [rent])
            /\ due_date s = ymd 2024 2 1
            /\ status s = overdue.
Proof.
  destruct preSave_overdue as (_ & _ & _ & H & _).
  apply (H (ymd 2024 3 5) [rent] 1%nat None "cash"%string cash (ymd 2024 3 5) rent
           (ymd 2024 2 1));
    [reflexivity | reflexivity | reflexivity | reflexivity | reflexivity
    | vm_compute; reflexivity | vm_compute; reflexivity].
Defined.

(** C7 at its failing input: the monthly expense due on 1 January 2024,
    first swept on 15 March.  One pass stores it as overdue and adds the
    successor due on 1 February, which the hook stores as overdue.  A
    second pass at the same instant finds no pending successor for either
    record and adds two more: a second one due on 1 February and one due on
    1 March. *)
Theorem processRecursiveExpenses_twice :
  processRecursiveExpenses (ymd 2024 3 15) [rent]
  = [withStatus rent overdue; successor 2%nat (ymd 2024 2 1) overdue]
  /\ processRecursiveExpenses (ymd 2024 3 15)
       (processRecursiveExpenses (ymd 2024 3 15) [rent])
     = [withStatus rent overdue;
        successor 2%nat (ymd 2024 2 1) overdue;
        successor 3%nat (ymd 2024 2 1) overdue;
        successor 4%nat (ymd 2024 3 1) overdue]
  /\ processRecursiveExpenses (ymd 2024 3 15)
       (processRecursiveExpenses (ymd 2024 3 15) [rent])
     <> processRecursiveExpenses (ymd 2024 3 15) [rent].
Proof.
  split; [vm_compute; reflexivity|].
  split; [vm_compute; reflexivity|].
  vm_compute. discriminate.
Qed.

End ExpenseClaims.

(** ** When a second pass of the hourly task changes nothing *)

Section SweepIdempotence.

Import JSDate Expenses ExpectedExpense SweepInvariant.

Variables (now : Z) (st : list Expense).
Hypothesis Hids : NoDup (map _id st).
Hypothesis Hcur : current now st.

Lemma sameButStatus_fields x o :
  sameButStatus x o ->
  _id x = _id o /\ due_date x = due_date o /\ parent_id x = parent_id o
  /\ type x = type o /\ is_active x = is_active o.
Proof.
  intros H.
  repeat split;
    [ apply (f_equal _id) in H | apply (f_equal due_date) in H
    | apply (f_equal parent_id) in H | apply (f_equal type) in H
    | apply (f_equal is_active) in H ]; exact H.
Qed.

Lemma same_id_same_record (l : list Expense) a b :
  NoDup (map _id l) -> In a l -> In b l -> _id a = _id b -> a = b.
Proof.
  induction l as [|x l IH]; [contradiction|].
  cbn [map]. intros Hnd [Ha|Ha] [Hb|Hb] E.
  - congruence.
  - subst x. apply NoDup_cons_iff in Hnd. destruct Hnd as [Hnot _].
    exfalso. apply Hnot. rewrite E. apply in_map, Hb.
  - subst x. apply NoDup_cons_iff in Hnd. destruct Hnd as [Hnot _].
    exfalso. apply Hnot. rewrite <- E. apply in_map, Ha.
  - apply NoDup_cons_iff in Hnd. apply IH; tauto.
Qed.

Lemma isNextOccurrence_true c y :
  isNextOccurrence c y = true <->
  parent_id y = Some (originOf c) /\ due_date c < due_date y /\ status y = pending.
Proof.
  unfold isNextOccurrence, parentIs. rewrite !andb_true_iff.
  destruct (parent_id y) as [q|].
  - rewrite Nat.eqb_eq, Z.gtb_lt.
    destruct (expenseStatusP (status y) pending); intuition congruence.
  - intuition discriminate.
Qed.

(** A next occurrence of [r] serves every record [r] itself was the next
    occurrence of. *)
Lemma isNextOccurrence_via c y r z :
  isNextOccurrence c y = true ->
  parent_id y = parent_id r -> due_date y = due_date r ->
  isNextOccurrence r z = true ->
  isNextOccurrence c z = true.
Proof.
  rewrite !isNextOccurrence_true. intros (Hp & Hd & _) Epar Edue (Hp' & Hd' & Hs').
  assert (Ho : originOf r = originOf c).
  { unfold originOf at 1. rewrite <- Epar, Hp. reflexivity. }
  rewrite <- Ho. repeat split; [exact Hp' | lia | exact Hs'].
Qed.

Lemma isDueRecursive_true e :
  isDueRecursive now e = true ->
  type e = recursive /\ is_active e = true /\ due_date e <= now
  /\ (status e = pending \/ status e = overdue).
Proof.
  unfold isDueRecursive, isRecursive. rewrite !andb_true_iff, orb_true_iff.
  intros [[[Ht Ha] Hd] Hs]. repeat split.
  - destruct (type e); [discriminate|reflexivity].
  - exact Ha.
  - apply Z.leb_le, Hd.
  - destruct Hs as [Hs|Hs]; [left|right];
      destruct (expenseStatusP (status e) pending);
      destruct (expenseStatusP (status e) overdue); congruence.
Qed.

Lemma fresh_not_old (s : list Expense) :
  (forall o, In o st -> In (_id o) (map _id s)) ->
  ~ In (freshId (map _id s)) (map _id st).
Proof.
  intros Hkeeps Hin. apply in_map_iff in Hin. destruct Hin as (o & Eo & Ho).
  pose proof (freshId_above (map _id s) (_id o) (Hkeeps o Ho)). lia.
Qed.

Lemma Expense_save_ids doc s : map _id (Expense_save now doc s) = map _id s.
Proof.
  unfold Expense_save. rewrite map_map. apply map_ext. intros x.
  destruct (Nat.eqb_spec (_id x) (_id doc)) as [E|_]; [|reflexivity].
  unfold preSave. destruct (_ && _ && _); cbn; congruence.
Qed.

Lemma Expense_save_overdue r s :
  Expense_save now (withStatus r overdue) s
  = map (fun x => if Nat.eqb (_id x) (_id r) then withStatus r overdue else x) s.
Proof.
  unfold Expense_save. apply map_ext. intros x. unfold preSave.
  destruct (isRecursive (withStatus r overdue)); reflexivity.
Qed.

Lemma inv_start : inv now st st [].
Proof.
  constructor.
  - exact Hids.
  - intros o Ho. apply in_map, Ho.
  - intros x Hx. left. exists x. repeat split; [exact Hx | left; reflexivity].
  - contradiction.
  - contradiction.
  - contradiction.
Qed.

Lemma inv_weaken s done done' :
  (forall c, In c done' -> In c done) -> inv now st s done -> inv now st s done'.
Proof.
  intros Hsub [H1 H2 H3 H4 H5 H6]. constructor; eauto.
Qed.

(** Adding the successor of a candidate. *)
Lemma inv_create s done r d :
  In r st -> isDueRecursive now r = true ->
  inv now st s done ->
  now < d ->
  let n := successorOf r (freshId (map _id s)) d
                       (if d <? now then overdue else pending) in
  inv now st (s ++ [n]) done /\ settled (s ++ [n]) r.
Proof.
  intros Hr Hdue [H1 H2 H3 H4 H5 H6] Hahead n.
  assert (Hn : n = successorOf r (freshId (map _id s)) d pending).
  { subst n. destruct (Z.ltb_spec d now); [lia|reflexivity]. }
  assert (Hfresh : ~ In (_id n) (map _id st)).
  { rewrite Hn. cbn [_id successorOf]. apply fresh_not_old, H2. }
  split.
  - constructor.
    + rewrite map_app. cbn [map].
      apply NoDup_app; [exact H1 | repeat constructor; intros [] |].
      intros i Hi [Hi'|[]]. subst i. rewrite Hn in Hi. cbn [_id successorOf] in Hi.
      pose proof (freshId_above _ _ Hi). lia.
    + intros o Ho. rewrite map_app. apply in_or_app. left. apply H2, Ho.
    + intros x Hx. apply in_app_or in Hx. destruct Hx as [Hx|[<-|[]]].
      * apply H3, Hx.
      * right. split; [rewrite Hn; exact Hahead | exact Hfresh].
    + exact H4.
    + intros c Hc. destruct (H5 c Hc) as (y & Hy & Hnext).
      exists y. split; [apply in_or_app; left; exact Hy | exact Hnext].
    + intros c x Hc Hx E Hlt. apply in_app_or in Hx. destruct Hx as [Hx|[<-|[]]].
      * apply (H6 c x Hc Hx E Hlt).
      * exfalso. apply Hfresh. rewrite E. apply in_map, H4, Hc.
  - exists n. split; [apply in_or_app; right; left; reflexivity|].
    apply isNextOccurrence_true. rewrite Hn. cbn [parent_id due_date status successorOf].
    apply isDueRecursive_true in Hdue. repeat split. lia.
Qed.

(** A record of the running store that carries the identifier of a record
    of [st] is that record, up to its status. *)
Lemma shape_of_old s x r :
  (forall y, In y s -> old st y \/ new now st y) ->
  In x s -> In r st -> _id x = _id r ->
  sameButStatus x r
  /\ (status x = status r \/ (status r = pending /\ status x = overdue)).
Proof.
  intros Hshape Hx Hr E. destruct (Hshape x Hx) as [(o & Ho & Hsame & Hst)|[_ Hnew]].
  - assert (o = r).
    { apply (same_id_same_record st); try assumption.
      apply sameButStatus_fields in Hsame. destruct Hsame as [Eid _]. congruence. }
    subst o. split; assumption.
  - exfalso. apply Hnew. rewrite E. apply in_map, Hr.
Qed.

(** Handling one candidate that has, or has just been given, a next
    occurrence. *)
Lemma inv_flip s done r :
  In r st -> isDueRecursive now r = true ->
  inv now st s done -> settled s r ->
  inv now st
      (if (due_date r <? now) && status_eqb (status r) pending
       then Expense_save now (withStatus r overdue) s else s)
      (r :: done).
Proof.
  intros Hr Hdue [H1 H2 H3 H4 H5 H6] (z & Hz & Hrz).
  assert (Hzr : _id z <> _id r).
  { intros E. destruct (shape_of_old s z r H3 Hz Hr E) as [Hsame _].
    apply sameButStatus_fields in Hsame.
    apply isNextOccurrence_true in Hrz. lia. }
  destruct ((due_date r <? now) && status_eqb (status r) pending) eqn:Hflip.
  - apply andb_true_iff in Hflip. destruct Hflip as [Hlt Hpend].
    apply Z.ltb_lt in Hlt.
    destruct (expenseStatusP (status r) pending) as [Hpend'|]; [|discriminate].
    assert (Hstays : forall y, In y s -> _id y <> _id r ->
                               In y (Expense_save now (withStatus r overdue) s)).
    { intros y Hy Hne. apply Expense_save_other; assumption. }
    constructor.
    + rewrite Expense_save_ids. exact H1.
    + intros o Ho. rewrite Expense_save_ids. apply H2, Ho.
    + intros x Hx. rewrite Expense_save_overdue in Hx. apply in_map_iff in Hx.
      destruct Hx as (y & Ey & Hy).
      destruct (Nat.eqb (_id y) (_id r)); [|subst x; apply H3, Hy].
      left. exists r. subst x. cbn. repeat split; [exact Hr|].
      right. split; [exact Hpend'|reflexivity].
    + intros c [<-|Hc]; [exact Hr | apply H4, Hc].
    + intros c Hc.
      assert (Hsc : settled s c)
        by (destruct Hc as [<-|Hc]; [exists z; split; assumption | apply H5, Hc]).
      destruct Hsc as (y & Hy & Hcy).
      destruct (Nat.eq_dec (_id y) (_id r)) as [E|Hne].
      * destruct (shape_of_old s y r H3 Hy Hr E) as [Hsame _].
        apply sameButStatus_fields in Hsame.
        destruct Hsame as (_ & Edue & Epar & _).
        exists z. split; [apply Hstays; assumption|].
        apply (isNextOccurrence_via c y r z); assumption.
      * exists y. split; [apply Hstays; assumption | exact Hcy].
    + intros c x Hc Hx E Hclt.
      rewrite Expense_save_overdue in Hx. apply in_map_iff in Hx.
      destruct Hx as (y & Ey & Hy).
      destruct (Nat.eqb_spec (_id y) (_id r)) as [Eyr|Hne].
      * subst x. reflexivity.
      * subst x. destruct Hc as [<-|Hc]; [congruence|].
        apply (H6 c y Hc Hy E Hclt).
  - constructor; try assumption.
    + intros c [<-|Hc]; [exact Hr | apply H4, Hc].
    + intros c [<-|Hc]; [exists z; split; assumption | apply H5, Hc].
    + intros c x [<-|Hc] Hx E Hclt; [|apply (H6 c x Hc Hx E Hclt)].
      destruct (shape_of_old s x r H3 Hx Hr E) as [_ Hst].
      apply isDueRecursive_true in Hdue. destruct Hdue as (_ & _ & _ & Hs).
      apply andb_false_iff in Hflip. destruct Hflip as [Hge|Hnp].
      * apply Z.ltb_ge in Hge. lia.
      * destruct (expenseStatusP (status r) pending); [discriminate|].
        destruct Hs as [?|Hov]; [contradiction|].
        destruct Hst as [->|[_ ?]]; assumption.
Qed.

(** Under [Hcur] no candidate makes [Expense.create] throw. *)
Lemma sweepOne_inv s done r :
  In r st -> isDueRecursive now r = true ->
  inv now st s done ->
  exists s', sweepOne now s r = Some s' /\ inv now st s' (r :: done).
Proof.
  intros Hr Hdue Hinv. unfold sweepOne.
  destruct (find (isNextOccurrence r) s) as [y|] eqn:Hfind.
  - eexists. split; [reflexivity|]. apply inv_flip; try assumption.
    apply find_some in Hfind. exists y. exact Hfind.
  - destruct (Hcur r Hr Hdue) as (Hfreq & d & Hnext & Hahead).
    rewrite Hfreq, Hnext, Expense_create_successor. cbn [option_map snd].
    eexists. split; [reflexivity|].
    destruct (inv_create s done r d Hr Hdue Hinv Hahead) as [Hinv' Hset].
    apply inv_flip; assumption.
Qed.

Lemma sweep_inv todo : forall s done,
  (forall c, In c todo -> In c st /\ isDueRecursive now c = true) ->
  inv now st s done ->
  inv now st (sweep now todo s) (todo ++ done).
Proof.
  induction todo as [|r todo IH]; intros s done Htodo Hinv; [exact Hinv|].
  cbn [sweep].
  destruct (Htodo r (or_introl eq_refl)) as [Hr Hdue].
  destruct (sweepOne_inv s done r Hr Hdue Hinv) as (s' & -> & Hinv').
  apply (inv_weaken _ (todo ++ r :: done)).
  - intros c Hc. cbn [app] in Hc. apply in_or_app.
    destruct Hc as [<-|Hc]; [right; left; reflexivity|].
    apply in_app_or in Hc. destruct Hc as [Hc|Hc]; [left|right; right]; exact Hc.
  - apply IH.
    + intros c Hc. apply Htodo. right. exact Hc.
    + exact Hinv'.
Qed.

(** After a pass, no candidate is left with anything to do. *)
Lemma sweepOne_settled s c' :
  inv now st s (filter (isDueRecursive now) st) ->
  In c' s -> isDueRecursive now c' = true ->
  sweepOne now s c' = Some s.
Proof.
  intros [H1 H2 H3 H4 H5 H6] Hc' Hdue'.
  pose proof (isDueRecursive_true c' Hdue') as (Ht & Ha & Hd & Hs).
  destruct (H3 c' Hc') as [(o & Ho & Hsame & Hst)|[Hahead _]]; [|lia].
  pose proof (sameButStatus_fields c' o Hsame) as (Eid & Edue & Epar & Etype & Eact).
  assert (Hcand : In o (filter (isDueRecursive now) st)).
  { apply filter_In. split; [exact Ho|].
    unfold isDueRecursive, isRecursive. rewrite <- Etype, <- Eact, <- Edue, Ht, Ha.
    destruct (Z.leb_spec (due_date c') now); [|lia]. cbn [andb].
    destruct Hst as [<-|[-> _]]; [|reflexivity].
    destruct Hs as [->| ->]; reflexivity. }
  destruct (H5 o Hcand) as (y & Hy & Hnext).
  assert (Hnext' : isNextOccurrence c' y = true).
  { apply isNextOccurrence_true in Hnext. apply isNextOccurrence_true.
    unfold originOf in *. rewrite Epar, Eid, Edue. exact Hnext. }
  unfold sweepOne.
  destruct (find (isNextOccurrence c') s) eqn:Hfind.
  - destruct (Z.ltb_spec (due_date c') now) as [Hlt|]; [|reflexivity].
    rewrite (H6 o c' Hcand Hc' Eid) by lia. reflexivity.
  - pose proof (find_none _ _ Hfind y Hy). congruence.
Qed.

Lemma sweep_fixed l s :
  (forall c, In c l -> sweepOne now s c = Some s) -> sweep now l s = s.
Proof.
  induction l as [|c l IH]; intros H; [reflexivity|].
  cbn [sweep]. rewrite (H c (or_introl eq_refl)).
  apply IH. intros c' Hc'. apply H. right. exact Hc'.
Qed.

(** With unique identifiers, when every record the pass looks at has a
    frequency and a next due date later than [now], a second pass at the
    same [now] leaves the store of the first as it is. *)
Lemma processRecursiveExpenses_idempotent_when_current :
  processRecursiveExpenses now (processRecursiveExpenses now st)
  = processRecursiveExpenses now st.
Proof.
  set (s1 := processRecursiveExpenses now st).
  assert (Hinv : inv now st s1 (filter (isDueRecursive now) st)).
  { subst s1. unfold processRecursiveExpenses.
    apply (inv_weaken _ (filter (isDueRecursive now) st ++ [])).
    - intros c Hc. rewrite app_nil_r. exact Hc.
    - apply sweep_inv; [|apply inv_start].
      intros c Hc. apply filter_In in Hc. exact Hc. }
  unfold processRecursiveExpenses at 1. fold s1.
  apply sweep_fixed. intros c Hc. apply filter_In in Hc.
  destruct Hc as [Hc Hdue]. apply sweepOne_settled; assumption.
Qed.

End SweepIdempotence.

Section SweepExamples.

Import JSDate Expenses ExpenseScenario SweepInvariant.

(** The monthly expense due on 1 January 2024, swept on 15 January: the
    successor is due on 1 February, ahead of the pass, and a second pass
    adds nothing. *)
Example processRecursiveExpenses_january :
  processRecursiveExpenses (ymd 2024 1 15) [rent]
  = [withStatus rent overdue; successor 2%nat (ymd 2024 2 1) pending]
  /\ processRecursiveExpenses (ymd 2024 1 15)
       (processRecursiveExpenses (ymd 2024 1 15) [rent])
     = processRecursiveExpenses (ymd 2024 1 15) [rent].
Proof.
  split; [vm_compute; reflexivity|].
  apply processRecursiveExpenses_idempotent_when_current.
  - repeat constructor. intros [].
  - intros e [<-|[]] _. split; [reflexivity|].
    exists (ymd 2024 2 1). split; vm_compute; reflexivity.
Qed.

End SweepExamples.

(* ================================================================== *)
(** * Further properties of the handlers *)

(** ** Share requests and approvals *)

Section ShareHandlers.

Import Shares Expected Scenario.

(** A request through POST /shares/:businessId/request that passes the
    middleware (a positive count, a positive share value in the body) and
    the handler's guards (a public listing with at least that many shares
    remaining), for a listing whose stored share value is not negative,
    adds exactly one pending request, with the share value of the business
    (not the one sent in the body) and, as total, the Number product of the
    count and that share value, which is the exact product when the share
    value is a whole number and the total stays below 2^53; it reserves
    nothing: the businesses and the investments are as before.  With a
    negative stored share value [create] throws instead, the answer is 500
    and nothing is stored.  Three shares of a listing at 0.1 a share are
    stored with a total of 0.30000000000000004, which is not three times
    the share value. *)
Theorem requestShares_effect :
  (forall st investor businessId requested v b,
  0 < requested -> (0 < v)%Q ->
  Business_findById st businessId = Some b ->
  b_type b = public ->
  requested <= remaining_shares b ->
  ((share_value b < 0)%Q ->
   requestShares st investor businessId requested (Some v) = (Failed 500 Thrown, st))
  /\ ((0 <= share_value b)%Q ->
  let r := mkShareRequest (freshId (map sr_id (shareRequests st))) investor
                          businessId requested (share_value b)
                          (Number.times (inject_Z requested) (share_value b))
                          pending None in
  (forall w, share_value b = inject_Z w ->
     Z.abs requested < 2 ^ 53 -> Z.abs w < 2 ^ 53 -> Z.abs (requested * w) < 2 ^ 53 ->
     total_amount r = inject_Z (requested * w))
  /\ fst (requestShares st investor businessId requested (Some v)) = Sent 201
  /\ shareRequests (snd (requestShares st investor businessId requested (Some v)))
     = shareRequests st ++ [r]
  /\ businesses (snd (requestShares st investor businessId requested (Some v)))
     = businesses st
  /\ investments (snd (requestShares st investor businessId requested (Some v)))
     = investments st
  /\ notifications (snd (requestShares st investor businessId requested (Some v)))
     = match entrepreneur_id b with
       | Some e => notifications st
                   ++ [mkNotification e "share_request" "Share Request" (sr_id r)]
       | None => notifications st
       end))
  /\ (Number.toNumber (1 # 10) = tenth
      /\ requestShares stDimes 9%nat 2%nat 3 (Some tenth)
         = (Sent 201,
            mkStore [dimes]
                    [mkShareRequest 1%nat 9%nat 2%nat 3 tenth threeTenths pending None]
                    []
                    [mkNotification 7%nat "share_request" "Share Request" 1%nat])
      /\ ~ (threeTenths == inject_Z 3 * tenth)%Q).
Proof.
  split; [|vm_compute; repeat split; try reflexivity; discriminate].
  intros st investor businessId requested v b Hreq Hv Hb Hpub Hrem.
  assert (Hv' : Qle_bool v 0 = false).
  { destruct (Qle_bool v 0) eqn:E; [|reflexivity].
    apply Qle_bool_iff in E. exfalso. apply (Qlt_not_le _ _ Hv E). }
  assert (H1 : (1 <=? requested) = true) by (apply Z.leb_le; lia).
  assert (Hrun : requestShares st investor businessId requested (Some v)
                 = match ShareRequest_create investor businessId requested
                           (share_value b)
                           (Number.times (inject_Z requested) (share_value b)) st with
                   | None => (Failed 500 Thrown, st)
                   | Some (shareRequest, st1) =>
                     (Sent 201,
                      notifyEntrepreneur b "share_request" "Share Request"
                                         (sr_id shareRequest) st1)
                   end).
  { unfold requestShares, validateShareRequest.
    destruct (Z.leb_spec requested 0); [lia|].
    rewrite Hv', Hb. unfold isPublic. rewrite Hpub. cbn [negb].
    destruct (Z.gtb_spec requested (remaining_shares b)); [lia|]. reflexivity. }
  split.
  - intros Hneg. rewrite Hrun. unfold ShareRequest_create. rewrite H1.
    assert (H2 : Qle_bool 0 (share_value b) = false).
    { destruct (Qle_bool 0 (share_value b)) eqn:E; [|reflexivity].
      apply Qle_bool_iff in E. exfalso. apply (Qlt_not_le _ _ Hneg E). }
    rewrite H2. reflexivity.
  - intros Hval r.
    split; [intros w Hw H53 H53' H53''; cbn [total_amount r]; rewrite Hw;
            apply times_whole; assumption|].
    rewrite Hrun. unfold ShareRequest_create.
    assert (H2 : Qle_bool 0 (share_value b) = true) by (apply Qle_bool_iff, Hval).
    assert (H3 : Qle_bool 0 (Number.times (inject_Z requested) (share_value b)) = true)
      by (apply times_nonneg; [lia | exact Hval]).
    rewrite H1, H2, H3. cbn [andb fst snd].
    unfold notifyEntrepreneur, Notification_create.
    destruct (entrepreneur_id b); cbn; repeat split; reflexivity.
Qed.

(** The theorem at the scenario's offering: investor 9 asks for 30 shares
    and sends a share value of 1 in the body. *)
Lemma requestShares_effect_witness :
  shareRequests (snd (requestShares st0 9%nat 1%nat 30 (Some (1 # 1))))
  = shareRequests st0
    ++ [mkShareRequest (freshId (map sr_id (shareRequests st0))) 9%nat 1%nat 30
                       (share_value offering)
                       (Number.times (inject_Z 30) (share_value offering))
                       pending None]
  /\ Number.times (inject_Z 30) (share_value offering) = inject_Z (30 * 10).
Proof.
  destruct requestShares_effect as [Hall _].
  destruct (Hall st0 9%nat 1%nat 30 (1 # 1) offering)
    as [_ H]; [lia | reflexivity | reflexivity | reflexivity | cbn; lia |].
  destruct H as (Hexact & _ & H & _); [discriminate|].
  split; [exact H|].
  apply (Hexact 10); [reflexivity | cbn; lia | cbn; lia | cbn; lia].
Defined.

(** Neither request handler writes anything unless it answers 201: every
    refusal, and the caught validation failure of [create], leaves the
    store as it was. *)
Theorem request_handlers_all_or_nothing st investor businessId requested value :
  (fst (requestShares st investor businessId requested value) = Sent 201
   \/ snd (requestShares st investor businessId requested value) = st)
  /\ (fst (investorRequestShares st investor businessId requested) = Sent 201
      \/ snd (investorRequestShares st investor businessId requested) = st).
Proof.
  split.
  - unfold requestShares.
    destruct (validateShareRequest requested value); [right; reflexivity|].
    destruct (Business_findById st businessId) as [b|]; [|right; reflexivity].
    destruct (negb (isPublic b)); [right; reflexivity|].
    destruct (requested >? remaining_shares b); [right; reflexivity|].
    destruct (ShareRequest_create _ _ _ _ _ st) as [[r st1]|];
      [left|right]; reflexivity.
  - unfold investorRequestShares.
    destruct (find _ (businesses st)) as [b|]; [|right; reflexivity].
    destruct (belowMinimum b requested); [right; reflexivity|].
    destruct (hasPendingRequest st investor businessId); [right; reflexivity|].
    destruct (ShareRequest_create _ _ _ _ _ st) as [[r st1]|];
      [left|right]; reflexivity.
Qed.

(** The approve handler writes nothing when it answers 4xx; it writes when
    it answers 200, and also when the investment is refused by its
    validator and the catch block answers 500. *)
Theorem approveShareRequest_refusals_write_nothing st id approved_shares :
  fst (approveShareRequest st id approved_shares) = Sent 200
  \/ fst (approveShareRequest st id approved_shares) = Failed 500 Thrown
  \/ snd (approveShareRequest st id approved_shares) = st.
Proof.
  unfold approveShareRequest.
  destruct (ShareRequest_findById st id) as [r|]; [|right; right; reflexivity].
  destruct (negb _); [right; right; reflexivity|].
  destruct (_ >? requested_shares r); [right; right; reflexivity|].
  destruct (Business_findById st (business_id r)) as [b|];
    [|right; right; reflexivity].
  destruct (_ >? remaining_shares b); [right; right; reflexivity|].
  destruct (Investment_create _ _ _ _ _) as [[i st3]|];
    [left | right; left]; reflexivity.
Qed.

(** A negative [approved_shares] passes both guards.  With a positive share
    value the investment amount is negative and [Investment.create] throws,
    after the two saves: the answer is 500, yet the request is stored as
    approved, the remaining shares have grown by the absolute count, and no
    investment and no notification exists. *)
Theorem approveShareRequest_negative st id n r b :
  ShareRequest_findById st id = Some r ->
  sr_status r = pending ->
  Business_findById st (business_id r) = Some b ->
  n < 0 -> n <= requested_shares r -> n <= remaining_shares b ->
  (0 < sr_share_value r)%Q ->
  approveShareRequest st id (Some n)
  = (Failed 500 Thrown,
     Business_save (setRemaining b (remaining_shares b - n))
       (ShareRequest_save (setStatus r approved (rejection_reason r)) st))
  /\ remaining_shares b < remaining_shares b - n.
Proof.
  intros Hr Hp Hb Hn Hreq Hrem Hval. split; [|lia].
  unfold approveShareRequest. rewrite Hr, Hp. cbn [status_eqb negb orRequested].
  destruct (Z.eqb_spec n 0); [lia|].
  destruct (Z.gtb_spec n (requested_shares r)); [lia|]. rewrite Hb.
  destruct (Z.gtb_spec n (remaining_shares b)); [lia|].
  unfold Investment_create.
  rewrite (times_negative n _ Hn Hval). reflexivity.
Qed.

(** The theorem at the scenario's pending request, approved with -5: the
    offering ends with 105 of its 100 shares. *)
Lemma approveShareRequest_negative_witness :
  approveShareRequest st1 1%nat (Some (-5))
  = (Failed 500 Thrown,
     Business_save (setRemaining offering (remaining_shares offering - -5))
       (ShareRequest_save
          (setStatus (mkShareRequest 1%nat 9%nat 1%nat 30 (10 # 1) (300 # 1)
                                     pending None)
                     approved None) st1)).
Proof.
  apply (approveShareRequest_negative st1 1%nat (-5)
           (mkShareRequest 1%nat 9%nat 1%nat 30 (10 # 1) (300 # 1) pending None)
           offering);
    [reflexivity | reflexivity | reflexivity | lia | cbn; lia | cbn; lia
    | reflexivity].
Defined.

(** An approval that went through cannot be repeated: approving the same
    request again, with whatever count, is refused as already processed and
    changes nothing, so the shares are taken once. *)
Theorem approveShareRequest_once st id a a' :
  fst (approveShareRequest st id a) = Sent 200 ->
  approveShareRequest (snd (approveShareRequest st id a)) id a'
  = (Failed 400 AlreadyProcessed, snd (approveShareRequest st id a)).
Proof.
  intros Hok.
  assert (Hfound : exists r', ShareRequest_findById (snd (approveShareRequest st id a)) id
                              = Some r' /\ sr_status r' = approved).
  { revert Hok. unfold approveShareRequest.
    destruct (ShareRequest_findById st id) as [r|] eqn:Hr; [|discriminate].
    destruct (negb _); [discriminate|].
    destruct (_ >? requested_shares r); [discriminate|].
    destruct (Business_findById st (business_id r)) as [b|]; [|discriminate].
    destruct (_ >? remaining_shares b); [discriminate|].
    unfold Investment_create. destruct (Qle_bool 0 _); [|discriminate].
    intros _. exists (setStatus r approved (rejection_reason r)).
    split; [|reflexivity].
    unfold notifyEntrepreneur, Notification_create, ShareRequest_findById.
    destruct (entrepreneur_id b); cbn [snd shareRequests Business_save
                                        ShareRequest_save];
      apply (find_replace sr_id _ id r (setStatus r approved (rejection_reason r)));
      (exact Hr || reflexivity). }
  destruct Hfound as (r' & Hr' & Hs').
  apply (approveShareRequest_refuses_decided _ id a' r' Hr').
  rewrite Hs'. discriminate.
Qed.

(** The theorem at the scenario: the approval of 20 shares, then a second
    approval of the full request. *)
Lemma approveShareRequest_once_witness :
  approveShareRequest (snd (approveShareRequest st1 1%nat (Some 20))) 1%nat None
  = (Failed 400 AlreadyProcessed, snd (approveShareRequest st1 1%nat (Some 20))).
Proof.
  apply (approveShareRequest_once st1 1%nat (Some 20) None). reflexivity.
Defined.

End ShareHandlers.

Section ShareHandlersMore.

Import Shares Expected Scenario.

(** The earlier approve handler has neither guard: for any request it
    finds, pending or not, and any count up to the requested one, it
    answers 200, stores the request as approved and subtracts the count
    from the remaining shares without looking at them, so a count above the
    remaining shares leaves a negative inventory; it records no
    investment. *)
Theorem approveShareRequest_v1_unguarded st id n r b :
  ShareRequest_findById st id = Some r ->
  Business_findById st (business_id r) = Some b ->
  n <= requested_shares r ->
  let st' := snd (approveShareRequest_v1 st id n) in
  fst (approveShareRequest_v1 st id n) = Sent 200
  /\ ShareRequest_findById st' id = Some (setStatus r approved (rejection_reason r))
  /\ Business_findById st' (business_id r)
     = Some (setRemaining b (remaining_shares b - n))
  /\ investments st' = investments st
  /\ (remaining_shares b < n -> remaining_shares b - n < 0).
Proof.
  intros Hr Hb Hn st'. subst st'. unfold approveShareRequest_v1.
  rewrite Hr. destruct (Z.gtb_spec n (requested_shares r)); [lia|]. rewrite Hb.
  cbn [fst snd]. split; [reflexivity|]. split; [|split; [|split; [reflexivity|lia]]].
  - unfold Notification_create, ShareRequest_findById.
    cbn [shareRequests Business_save ShareRequest_save].
    apply (find_replace sr_id _ id r (setStatus r approved (rejection_reason r)));
      [exact Hr | reflexivity].
  - unfold Notification_create, Business_findById.
    cbn [businesses Business_save ShareRequest_save].
    apply (find_replace b_id _ (business_id r) b
                        (setRemaining b (remaining_shares b - n)));
      [exact Hb | reflexivity].
Qed.

(** The theorem on the request the scenario has already approved (80
    shares left): the earlier handler approves it again, for all 30. *)
Lemma approveShareRequest_v1_unguarded_witness :
  fst (approveShareRequest_v1 st2 1%nat 30) = Sent 200
  /\ Business_findById (snd (approveShareRequest_v1 st2 1%nat 30)) 1%nat
     = Some (setRemaining (setRemaining offering 80) (80 - 30)).
Proof.
  destruct (approveShareRequest_v1_unguarded st2 1%nat 30
              (mkShareRequest 1%nat 9%nat 1%nat 30 (10 # 1) (300 # 1) approved None)
              (setRemaining offering 80))
    as (H1 & _ & H2 & _);
    [reflexivity | reflexivity | cbn; lia | split; [exact H1 | exact H2]].
Defined.

(** A rejection of a request the handler finds, whatever its status:
    answer 200, the request stored as rejected with the reason sent (or
    none), one notice to the investor, and no change to businesses or
    investments. *)
Theorem rejectShareRequest_effect st id reason r :
  ShareRequest_findById st id = Some r ->
  let st' := snd (rejectShareRequest st id reason) in
  fst (rejectShareRequest st id reason) = Sent 200
  /\ ShareRequest_findById st' id = Some (setStatus r rejected reason)
  /\ businesses st' = businesses st
  /\ investments st' = investments st
  /\ notifications st'
     = notifications st
       ++ [mkNotification (investor_id r) "share_approved" "Share Request Rejected"
                          (sr_id r)].
Proof.
  intros Hr st'. subst st'. unfold rejectShareRequest. rewrite Hr.
  cbn [fst snd]. split; [reflexivity|]. split; [|repeat split].
  unfold Notification_create, ShareRequest_findById.
  cbn [shareRequests ShareRequest_save].
  apply (find_replace sr_id _ id r (setStatus r rejected reason));
    [exact Hr | reflexivity].
Qed.

(** The theorem at the scenario's pending request. *)
Lemma rejectShareRequest_effect_witness :
  ShareRequest_findById (snd (rejectShareRequest st1 1%nat None)) 1%nat
  = Some (setStatus (mkShareRequest 1%nat 9%nat 1%nat 30 (10 # 1) (300 # 1)
                                    pending None) rejected None).
Proof.
  destruct (rejectShareRequest_effect st1 1%nat None
              (mkShareRequest 1%nat 9%nat 1%nat 30 (10 # 1) (300 # 1) pending None))
    as (_ & H & _); [reflexivity | exact H].
Defined.

(** Editing the total of a public listing whose remaining shares are a
    whole number, to a positive number.  The first handler stores the
    floor of the remaining shares times the ratio of the new total to
    itself, which is the floor of the remaining shares (of any number,
    whole or not), hence the remaining shares themselves, as they are
    whole.  So both update handlers answer 200 and store the same
    document, with the new total and with the remaining shares exactly as
    they were, whatever the old total was and whatever else the form
    changes; and a listing within its bound stays within it exactly when
    the new total is not below the shares still remaining. *)
Theorem total_edit_keeps_remaining st id u n b :
  Business_findById st id = Some b ->
  b_type b = public ->
  u_total_shares u = Some n ->
  0 < n ->
  let b' := applyOther u (setTotal b n) in
  (forall q : Q, Qfloor (q * (inject_Z n / inject_Z n)) = Qfloor q)
  /\ Qfloor (inject_Z (remaining_shares b)) = remaining_shares b
  /\ updatePublicBusiness st id u = (Sent 200, Business_save b' st)
  /\ updateBusiness st id u = (Sent 200, Business_save b' st)
  /\ Business_findById (Business_save b' st) id = Some b'
  /\ shareRequests (Business_save b' st) = shareRequests st
  /\ investments (Business_save b' st) = investments st
  /\ b_id b' = b_id b
  /\ total_shares b' = n
  /\ remaining_shares b' = remaining_shares b
  /\ (sharesBounded b -> (sharesBounded b' <-> remaining_shares b <= n)).
Proof.
  intros Hb Hpub Hu Hn b'. subst b'.
  split.
  { intros q. apply Qfloor_comp. field.
    change 0%Q with (inject_Z 0). rewrite inject_Z_injective. lia. }
  split; [apply Qfloor_Z|].
  assert (Hfound : Business_findById (Business_save (applyOther u (setTotal b n)) st) id
                   = Some (applyOther u (setTotal b n))).
  { unfold Business_findById, Business_save. cbn [businesses].
    apply (find_replace b_id _ id b (applyOther u (setTotal b n)));
      [exact Hb | reflexivity]. }
  unfold updatePublicBusiness, updateBusiness. rewrite Hb. unfold isPublic.
  rewrite Hpub, Hu. cbn [negb]. rewrite (rescale_positive b n Hn).
  replace (setRemaining (setTotal b n) (remaining_shares b)) with (setTotal b n)
    by (destruct b; reflexivity).
  split; [reflexivity|]. split; [reflexivity|]. split; [exact Hfound|].
  repeat split; unfold sharesBounded in *; cbn in *; lia.
Qed.

(** The theorem at the offering with 60 shares left, edited to 200. *)
Lemma total_edit_keeps_remaining_witness :
  updatePublicBusiness st60 1%nat (totalOnly 200)
  = (Sent 200,
     Business_save (applyOther (totalOnly 200) (setTotal (setRemaining offering 60) 200))
                   st60)
  /\ updateBusiness st60 1%nat (totalOnly 200)
     = (Sent 200,
        Business_save (applyOther (totalOnly 200)
                                  (setTotal (setRemaining offering 60) 200)) st60).
Proof.
  destruct (total_edit_keeps_remaining st60 1%nat (totalOnly 200) 200
              (setRemaining offering 60)) as (_ & _ & H1 & H2 & _);
    [reflexivity | reflexivity | reflexivity | lia | split; [exact H1 | exact H2]].
Defined.

End ShareHandlersMore.

Section InvestorFlow.

Import Shares Expected Scenario.

Lemma hasPendingRequest_app st investor business r rest :
  shareRequests st = rest ++ [r] ->
  investor_id r = investor -> business_id r = business -> sr_status r = pending ->
  hasPendingRequest st investor business = true.
Proof.
  intros Hst Hi Hb Hs. unfold hasPendingRequest. rewrite Hst, existsb_app.
  cbn [existsb]. rewrite Hi, Hb, Hs, !Nat.eqb_refl. cbn.
  apply orb_true_r.
Qed.

(** The investor flow accepts a request of at least one share for an
    active public listing, whose stored share value is not negative, when
    the count is not below a non-zero minimum and the investor has no
    pending request there: it adds one pending request at the listing's
    share value, with the Number product of the count and that share value
    as total (the exact product when the share value is a whole number and
    the total stays below 2^53), notifies nobody and reserves nothing.  The
    remaining shares play no part, so a request for more shares than
    remain is accepted too.  Three shares of a listing at 0.1 a share are
    stored with a total of 0.30000000000000004. *)
Theorem investorRequestShares_effect :
  (forall st investor businessId requested b,
  find (fun x => Nat.eqb (b_id x) businessId && isActive x && isPublic x)
       (businesses st) = Some b ->
  belowMinimum b requested = false ->
  hasPendingRequest st investor businessId = false ->
  1 <= requested -> (0 <= share_value b)%Q ->
  investorRequestShares st investor businessId requested
  = (Sent 201,
     mkStore (businesses st)
             (shareRequests st
              ++ [mkShareRequest (freshId (map sr_id (shareRequests st))) investor
                                 businessId requested (share_value b)
                                 (Number.times (inject_Z requested) (share_value b))
                                 pending None])
             (investments st) (notifications st))
  /\ (forall w, share_value b = inject_Z w ->
        Z.abs requested < 2 ^ 53 -> Z.abs w < 2 ^ 53 ->
        Z.abs (requested * w) < 2 ^ 53 ->
        Number.times (inject_Z requested) (share_value b) = inject_Z (requested * w)))
  /\ (investorRequestShares stDimes 9%nat 2%nat 3 = (Sent 201, stDimes1)
      /\ ~ (threeTenths == inject_Z 3 * tenth)%Q).
Proof.
  split; [|vm_compute; split; [reflexivity | discriminate]].
  intros st investor businessId requested b Hb Hmin Hdup Hreq Hval. split.
  - unfold investorRequestShares.
    rewrite Hb, Hmin, Hdup. unfold ShareRequest_create.
    assert (H1 : (1 <=? requested) = true) by (apply Z.leb_le; exact Hreq).
    assert (H2 : Qle_bool 0 (share_value b) = true) by (apply Qle_bool_iff, Hval).
    assert (H3 : Qle_bool 0 (Number.times (inject_Z requested) (share_value b)) = true)
      by (apply times_nonneg; [lia | exact Hval]).
    rewrite H1, H2, H3. reflexivity.
  - intros w -> H1 H2 H3. apply times_whole; assumption.
Qed.

(** The theorem at an offering with 20 shares left and no request yet:
    30 shares are asked for and the request is stored. *)
Lemma investorRequestShares_effect_witness :
  investorRequestShares (mkStore [setRemaining offering 20] [] [] []) 9%nat 1%nat 30
  = (Sent 201,
     mkStore [setRemaining offering 20]
             ([] ++ [mkShareRequest (freshId (map sr_id [])) 9%nat 1%nat 30
                                    (share_value (setRemaining offering 20))
                                    (Number.times
                                       (inject_Z 30)
                                       (share_value (setRemaining offering 20)))
                                    pending None])
             [] [])
  /\ Number.times (inject_Z 30) (share_value (setRemaining offering 20))
     = inject_Z (30 * 10).
Proof.
  destruct investorRequestShares_effect as [Hall _].
  destruct (Hall (mkStore [setRemaining offering 20] [] [] []) 9%nat 1%nat 30
                 (setRemaining offering 20)) as [H Hexact];
    [reflexivity | reflexivity | reflexivity | lia | discriminate |].
  split; [exact H|].
  apply (Hexact 10); [reflexivity | cbn; lia | cbn; lia | cbn; lia].
Defined.

(** After a request through the investor flow went through, the same
    investor asking again for the same listing and count is refused with
    the pending-request message, and nothing is stored. *)
Theorem investorRequestShares_twice st investor businessId requested :
  fst (investorRequestShares st investor businessId requested) = Sent 201 ->
  investorRequestShares (snd (investorRequestShares st investor businessId requested))
                        investor businessId requested
  = (Failed 400 AlreadyPendingRequest,
     snd (investorRequestShares st investor businessId requested)).
Proof.
  intros Hok.
  assert (Hfirst : exists b r,
             find (fun x => Nat.eqb (b_id x) businessId && isActive x && isPublic x)
                  (businesses st) = Some b
             /\ belowMinimum b requested = false
             /\ investor_id r = investor /\ business_id r = businessId
             /\ sr_status r = pending
             /\ snd (investorRequestShares st investor businessId requested)
                = mkStore (businesses st) (shareRequests st ++ [r])
                          (investments st) (notifications st)).
  { revert Hok. unfold investorRequestShares.
    destruct (find _ (businesses st)) as [b|] eqn:Hb; [|discriminate].
    destruct (belowMinimum b requested) eqn:Hmin; [discriminate|].
    destruct (hasPendingRequest st investor businessId); [discriminate|].
    unfold ShareRequest_create.
    destruct (_ && _ && _); [|discriminate].
    intros _. exists b. eexists. repeat split; try reflexivity; assumption. }
  destruct Hfirst as (b & r & Hb & Hmin & Hi & Hbi & Hs & ->).
  apply (investorRequestShares_conflict _ investor businessId requested b).
  - exact Hb.
  - exact Hmin.
  - apply (hasPendingRequest_app _ investor businessId r (shareRequests st));
      [reflexivity | assumption..].
Qed.

(** The theorem at the scenario's first request. *)
Lemma investorRequestShares_twice_witness :
  investorRequestShares (snd (investorRequestShares st0 9%nat 1%nat 30)) 9%nat 1%nat 30
  = (Failed 400 AlreadyPendingRequest, snd (investorRequestShares st0 9%nat 1%nat 30)).
Proof.
  apply (investorRequestShares_twice st0 9%nat 1%nat 30). reflexivity.
Defined.

End InvestorFlow.

(** ** Recurring expenses: the handlers and the hourly task *)

Section SweepShapeFacts.

Import JSDate Expenses ExpectedExpense SweepShape.

Variables (now : Z) (st : list Expense).
Hypothesis Hids : NoDup (map _id st).

Lemma markOverdue_id x : _id (markOverdue now x) = _id x.
Proof. unfold markOverdue. destruct (_ && _ && _); reflexivity. Qed.

Lemma handled_id done x : _id (handled now done x) = _id x.
Proof.
  unfold handled. destruct (existsb _ done); [apply markOverdue_id | reflexivity].
Qed.

Lemma handled_ids done : map _id (map (handled now done) st) = map _id st.
Proof. rewrite map_map. apply map_ext. intros x. apply handled_id. Qed.

Lemma existsb_rev_same {A} (f : A -> bool) (l : list A) :
  existsb f (rev l) = existsb f l.
Proof.
  induction l as [|x l IH]; [reflexivity|].
  cbn [rev existsb]. rewrite existsb_app, IH. cbn [existsb].
  rewrite orb_false_r. apply orb_comm.
Qed.

Lemma handled_rev done x : handled now (rev done ++ []) x = handled now done x.
Proof. unfold handled. rewrite app_nil_r, existsb_rev_same. reflexivity. Qed.

Lemma sweepOne_None s r :
  sweepOne now s r = None <->
  throwsFor r /\ find (isNextOccurrence r) s = None.
Proof.
  unfold sweepOne, throwsFor.
  destruct (find (isNextOccurrence r) s).
  { split; [discriminate | intros [_ H]; discriminate H]. }
  destruct (truthy (frequency r)).
  2:{ split; [discriminate | intros [[H _] _]; discriminate H]. }
  destruct (calculateNextDueDate _ _ _) as [d|].
  - rewrite Expense_create_successor.
    split; [discriminate | intros [[_ H] _]; discriminate H].
  - split; [intros _; repeat split | reflexivity].
Qed.

(** Handling one more candidate. *)
Lemma passState_step done made news s r s' :
  In r st -> isDueRecursive now r = true ->
  (forall c, In c done -> _id c <> _id r) ->
  passState now st done made news s ->
  sweepOne now s r = Some s' ->
  exists made' news', passState now st (r :: done) made' news' s'.
Proof.
  intros Hr Hdue Hfar (-> & Hfresh & Hincl & Hnd & Hsucc) Hrun.
  set (s0 := map (handled now done) st ++ news) in *.
  (* the records after the creation step *)
  assert (Hcreate : exists made1 news1 s1,
             s' = (if (due_date r <? now) && status_eqb (status r) pending
                   then Expense_save now (withStatus r overdue) s1 else s1)
             /\ s1 = map (handled now done) st ++ news1
             /\ (forall m o, In m news1 -> In o st -> (_id o < _id m)%nat)
             /\ incl made1 (r :: done)
             /\ NoDup (map _id made1)
             /\ Forall2 (isSuccessorOf now) made1 news1).
  { assert (Hkeep : incl made (r :: done))
      by (intros c Hc; right; apply Hincl, Hc).
    revert Hrun. unfold sweepOne.
    destruct (find (isNextOccurrence r) s0).
    { intros [= <-]. exists made, news, s0. repeat split; assumption. }
    destruct (truthy (frequency r)).
    2:{ intros [= <-]. exists made, news, s0. repeat split; assumption. }
    destruct (calculateNextDueDate (due_date r) (frequencyArg (frequency r))
                                   (frequency_value r)) as [d|] eqn:Hnext;
      [|discriminate].
    rewrite Expense_create_successor. cbn [option_map snd]. intros [= <-].
    set (n := successorOf r (freshId (map _id s0)) d
                          (if d <? now then overdue else pending)).
    exists (made ++ [r]), (news ++ [n]), (s0 ++ [n]).
    split; [reflexivity|]. split; [subst s0; rewrite app_assoc; reflexivity|].
    split; [|split; [|split]].
    - intros m o Hm Ho. apply in_app_or in Hm. destruct Hm as [Hm|[<-|[]]].
      + apply Hfresh; assumption.
      + cbn [_id n successorOf]. apply freshId_above.
        subst s0. rewrite map_app, handled_ids. apply in_or_app. left.
        apply in_map, Ho.
    - intros c Hc. apply in_app_or in Hc.
      destruct Hc as [Hc|[<-|[]]]; [apply Hkeep, Hc | left; reflexivity].
    - rewrite map_app. cbn [map].
      apply NoDup_app; [exact Hnd | repeat constructor; intros [] |].
      intros i Hi [<-|[]]. apply in_map_iff in Hi. destruct Hi as (c & Ec & Hc).
      apply (Hfar c (Hincl c Hc)). exact Ec.
    - apply Forall2_app; [exact Hsucc|]. constructor; [|constructor].
      exists (freshId (map _id s0)), d. split; [exact Hnext | reflexivity]. }
  destruct Hcreate as (made1 & news1 & s1 & -> & -> & Hfresh1 & Hincl1 & Hnd1 & Hsucc1).
  exists made1, news1.
  assert (Hsame : forall x, In x st -> _id x = _id r -> x = r)
    by (intros x Hx E; apply (same_id_same_record st); assumption).
  split; [|repeat split; assumption].
  destruct ((due_date r <? now) && status_eqb (status r) pending) eqn:Hflip.
  - rewrite Expense_save_overdue, map_app, map_map. f_equal.
    + apply map_ext_in. intros x Hx. rewrite handled_id.
      unfold handled at 2. cbn [existsb].
      destruct (Nat.eqb_spec (_id x) (_id r)) as [E|Hne].
      * rewrite (Hsame x Hx E), Nat.eqb_refl. cbn [orb].
        unfold markOverdue. rewrite Hdue.
        apply andb_true_iff in Hflip. destruct Hflip as [-> ->]. reflexivity.
      * destruct (Nat.eqb_spec (_id r) (_id x)); [congruence|]. reflexivity.
    + rewrite <- (map_id news1) at 2. apply map_ext_in. intros m Hm.
      destruct (Nat.eqb_spec (_id m) (_id r)) as [E|_]; [|reflexivity].
      pose proof (Hfresh1 m r Hm Hr). lia.
  - f_equal. apply map_ext_in. intros x Hx.
    unfold handled. cbn [existsb].
    destruct (Nat.eqb_spec (_id r) (_id x)) as [E|_]; [|reflexivity].
    cbn [orb]. symmetry in E. rewrite (Hsame x Hx E).
    assert (Hr' : markOverdue now r = r).
    { unfold markOverdue. rewrite Hdue. cbn [andb].
      destruct (due_date r <? now); cbn [andb] in *; [|reflexivity].
      rewrite Hflip. reflexivity. }
    rewrite Hr'. destruct (existsb _ done); reflexivity.
Qed.

Lemma passState_sweep todo : forall done made news s,
  (forall c, In c todo -> In c st /\ isDueRecursive now c = true) ->
  NoDup (map _id (rev done ++ todo)) ->
  passState now st done made news s ->
  exists pre rest made' news',
    todo = (pre ++ rest)%list
    /\ passState now st (rev pre ++ done) made' news' (sweep now todo s)
    /\ match rest with
       | [] => True
       | c :: _ => throwsFor c
                   /\ find (isNextOccurrence c) (sweep now todo s) = None
       end.
Proof.
  induction todo as [|r todo IH]; intros done made news s Htodo Hnd Hs.
  - exists [], [], made, news. split; [reflexivity|]. split; [exact Hs|exact I].
  - cbn [sweep].
    destruct (Htodo r (or_introl eq_refl)) as [Hr Hdue].
    destruct (sweepOne now s r) as [s'|] eqn:Hrun.
    + assert (Hfar : forall c, In c done -> _id c <> _id r).
      { intros c Hc E. rewrite map_app in Hnd. cbn [map] in Hnd.
        apply NoDup_remove_2 in Hnd. apply Hnd, in_or_app. left.
        rewrite <- E. apply in_map. apply -> in_rev. exact Hc. }
      destruct (passState_step done made news s r s' Hr Hdue Hfar Hs Hrun)
        as (made1 & news1 & Hs1).
      destruct (IH (r :: done) made1 news1 s') as (pre & rest & made' & news' & E & Hp & Ht).
      * intros c Hc. apply Htodo. right. exact Hc.
      * cbn [rev]. rewrite <- app_assoc. exact Hnd.
      * exact Hs1.
      * exists (r :: pre), rest, made', news'.
        split; [cbn [app]; rewrite E; reflexivity|].
        split; [|exact Ht].
        cbn [rev]. rewrite <- app_assoc. exact Hp.
    + exists [], (r :: todo), made, news.
      split; [reflexivity|]. split; [exact Hs|].
      apply (proj1 (sweepOne_None s r) Hrun).
Qed.

Lemma NoDup_map_filter (p : Expense -> bool) (l : list Expense) :
  NoDup (map _id l) -> NoDup (map _id (filter p l)).
Proof.
  induction l as [|x l IH]; [trivial|].
  cbn [map filter]. intros Hnd. apply NoDup_cons_iff in Hnd. destruct Hnd as [Hx Hl].
  destruct (p x); [|apply IH, Hl].
  cbn [map]. constructor; [|apply IH, Hl].
  intros Hin. apply Hx. apply in_map_iff in Hin. destruct Hin as (y & Ey & Hy).
  apply filter_In in Hy. rewrite <- Ey. apply in_map, Hy.
Qed.

Lemma handled_all x :
  In x st ->
  handled now (filter (isDueRecursive now) st) x = markOverdue now x.
Proof.
  intros Hx. unfold handled.
  destruct (existsb _ _) eqn:E; [reflexivity|].
  unfold markOverdue.
  destruct (isDueRecursive now x) eqn:Hdue; [|reflexivity].
  exfalso.
  assert (Ht : existsb (fun c => Nat.eqb (_id c) (_id x))
                       (filter (isDueRecursive now) st) = true).
  { apply existsb_exists. exists x.
    split; [apply filter_In; split; assumption | apply Nat.eqb_refl]. }
  congruence.
Qed.

(** With unique identifiers, a pass of the hourly task handles the
    selected records in their order, all of them, or up to the first one
    for which [Expense.create] throws: a record with a frequency whose next
    due date is an Invalid Date and that has no pending next occurrence.
    The pass keeps every record in place and changes nothing but the status
    of the handled records that are pending and strictly past due, which
    become overdue.  What it adds comes after them, under larger
    identifiers: one record for each of some of the handled records, no two
    for the same, each being the successor of its record, due on that
    record's next due date and stored as overdue when that date is before
    [now] and as pending otherwise.  The record at which the pass stops
    has no pending next occurrence in the store the pass leaves. *)
Theorem processRecursiveExpenses_shape :
  exists pre rest made news : list Expense,
    filter (isDueRecursive now) st = (pre ++ rest)%list
    /\ processRecursiveExpenses now st = (map (handled now pre) st ++ news)%list
    /\ (forall n o, In n news -> In o st -> (_id o < _id n)%nat)
    /\ incl made pre
    /\ NoDup (map _id made)
    /\ Forall2 (isSuccessorOf now) made news
    /\ match rest with
       | [] => map (handled now pre) st = map (markOverdue now) st
       | c :: _ =>
         throwsFor c
         /\ find (isNextOccurrence c) (processRecursiveExpenses now st) = None
       end.
Proof.
  assert (Hstart : passState now st [] [] [] st).
  { split; [|repeat split].
    - rewrite app_nil_r. rewrite <- (map_id st) at 1. apply map_ext. reflexivity.
    - intros n o [].
    - intros c [].
    - constructor.
    - constructor. }
  destruct (passState_sweep (filter (isDueRecursive now) st) [] [] [] st)
    as (pre & rest & made & news & E & (Hs & Hfresh & Hincl & Hnd & Hsucc) & Hrest).
  - intros c Hc. apply filter_In in Hc. exact Hc.
  - cbn [rev app]. apply NoDup_map_filter. exact Hids.
  - exact Hstart.
  - exists pre, rest, made, news.
    split; [exact E|]. split; [|split; [exact Hfresh|split; [|split; [exact Hnd|split]]]].
    + unfold processRecursiveExpenses. rewrite Hs. f_equal.
      apply map_ext. intros x. apply handled_rev.
    + intros c Hc. specialize (Hincl c Hc). rewrite app_nil_r in Hincl.
      apply in_rev. exact Hincl.
    + exact Hsucc.
    + destruct rest as [|c rest]; [|exact Hrest].
      rewrite app_nil_r in E. rewrite <- E.
      apply map_ext_in. intros x Hx. apply handled_all, Hx.
Qed.

End SweepShapeFacts.

Section SweepMore.

Import JSDate Expenses ExpectedExpense ExpenseScenario SweepInvariant SweepShape.

(** The theorem at the monthly expense and the lease, swept late, on
    15 March 2024. *)
Lemma processRecursiveExpenses_shape_witness :
  exists pre rest made news : list Expense,
    filter (isDueRecursive (ymd 2024 3 15)) [rent; lease] = (pre ++ rest)%list
    /\ processRecursiveExpenses (ymd 2024 3 15) [rent; lease]
       = (map (handled (ymd 2024 3 15) pre) [rent; lease] ++ news)%list
    /\ (forall n o, In n news -> In o [rent; lease] -> (_id o < _id n)%nat)
    /\ incl made pre
    /\ NoDup (map _id made)
    /\ Forall2 (isSuccessorOf (ymd 2024 3 15)) made news
    /\ match rest with
       | [] => map (handled (ymd 2024 3 15) pre) [rent; lease]
               = map (markOverdue (ymd 2024 3 15)) [rent; lease]
       | c :: _ =>
         throwsFor c
         /\ find (isNextOccurrence c)
                 (processRecursiveExpenses (ymd 2024 3 15) [rent; lease]) = None
       end.
Proof.
  apply (processRecursiveExpenses_shape (ymd 2024 3 15) [rent; lease]).
  repeat constructor; cbn; intuition discriminate.
Defined.

(** A pass that stops.  With the monthly expense first, it is handled and
    the pass stops at the lease, which stays pending; with the lease
    first, the pass stops at once and nothing changes at all. *)
Example processRecursiveExpenses_stops :
  processRecursiveExpenses (ymd 2024 3 15) [rent; lease]
  = [withStatus rent overdue; lease; successor 6%nat (ymd 2024 2 1) overdue]
  /\ processRecursiveExpenses (ymd 2024 3 15) [lease; rent] = [lease; rent].
Proof. split; vm_compute; reflexivity. Qed.

(** With unique identifiers, when every record a pass selects has a
    frequency and a next due date later than [now], the first pass settles
    the store: a second pass at the same [now], and any number of further
    ones, leave it exactly as the first pass left it. *)
Theorem processRecursiveExpenses_settles now st k :
  NoDup (map _id st) ->
  current now st ->
  Nat.iter k (processRecursiveExpenses now) (processRecursiveExpenses now st)
  = processRecursiveExpenses now st.
Proof.
  intros Hids Hcur. induction k as [|k IH]; [reflexivity|].
  rewrite Nat.iter_succ, IH.
  apply processRecursiveExpenses_idempotent_when_current; assumption.
Qed.

(** The theorem at the monthly expense swept on 15 January 2024, three
    more times. *)
Lemma processRecursiveExpenses_settles_witness :
  Nat.iter 3 (processRecursiveExpenses (ymd 2024 1 15))
           (processRecursiveExpenses (ymd 2024 1 15) [rent])
  = processRecursiveExpenses (ymd 2024 1 15) [rent].
Proof.
  apply (processRecursiveExpenses_settles (ymd 2024 1 15) [rent] 3).
  - repeat constructor. intros [].
  - intros e [<-|[]] _. split; [reflexivity|].
    exists (ymd 2024 2 1). split; vm_compute; reflexivity.
Defined.

End SweepMore.

Section NextDueDateOrder.

Import JSDate Expenses.

Lemma monthsOf_positive f : 1 <= Spec.monthsOf f.
Proof.
  unfold Spec.monthsOf, Spec.advanceTable, Spec.lookupMonths.
  repeat match goal with |- context [if ?b then _ else _] => destruct b end; lia.
Qed.

Lemma monthsOf_at_most_12 f : Spec.monthsOf f <= 12.
Proof.
  unfold Spec.monthsOf, Spec.advanceTable, Spec.lookupMonths.
  repeat match goal with |- context [if ?b then _ else _] => destruct b end; lia.
Qed.

Lemma monthStart_bounds m leap :
  0 <= m <= 11 -> 0 <= leap <= 1 -> 0 <= monthStart m leap <= 335.
Proof.
  intros Hm Hl. unfold monthStart.
  repeat match goal with
         | |- context [if Z.eqb ?a ?b then _ else _] => destruct (Z.eqb_spec a b)
         end; lia.
Qed.

Lemma monthStart_increasing m m' leap :
  0 <= m -> m < m' -> m' <= 11 -> 0 <= leap <= 1 ->
  monthStart m leap < monthStart m' leap.
Proof.
  intros H0 Hlt H11 Hl. unfold monthStart.
  repeat match goal with
         | |- context [if Z.eqb ?a ?b then _ else _] => destruct (Z.eqb_spec a b)
         end; lia.
Qed.

(** The first day of a later month comes later. *)
Lemma MakeDay_first_increasing y m y' m' :
  0 <= m <= 11 -> 0 <= m' <= 11 ->
  y < y' \/ (y = y' /\ m < m') ->
  MakeDay y m 1 < MakeDay y' m' 1.
Proof.
  intros Hm Hm' Hlater.
  rewrite !MakeDay_month_in_range by assumption.
  assert (Hl : forall z, 0 <= (if isLeap z then 1 else 0) <= 1)
    by (intros z; destruct (isLeap z); lia).
  destruct Hlater as [Hy|[<- Hmm]].
  - pose proof (monthStart_bounds m _ Hm (Hl y)).
    pose proof (monthStart_bounds m' _ Hm' (Hl y')).
    pose proof (DayFromYear_succ y) as Hs.
    pose proof (DayFromYear_le (y + 1) y' ltac:(lia)).
    unfold DaysInYear in Hs. destruct (isLeap y); lia.
  - pose proof (monthStart_increasing m m' _ (proj1 Hm) Hmm (proj2 Hm') (Hl y)). lia.
Qed.

(** The first day of the same month a year on is at most 366 days
    away. *)
Lemma MakeDay_first_next_year y m :
  0 <= m <= 11 -> MakeDay (y + 1) m 1 <= MakeDay y m 1 + 366.
Proof.
  intros Hm. rewrite !MakeDay_month_in_range by assumption.
  rewrite DayFromYear_succ. unfold DaysInYear, monthStart.
  assert (Hleap : isLeap y = true -> isLeap (y + 1) = false).
  { unfold isLeap. intros H.
    destruct (Z.eqb_spec (y mod 4) 0), (Z.eqb_spec (y mod 100) 0),
             (Z.eqb_spec (y mod 400) 0); cbn in H; try discriminate;
    destruct (Z.eqb_spec ((y + 1) mod 4) 0), (Z.eqb_spec ((y + 1) mod 100) 0),
             (Z.eqb_spec ((y + 1) mod 400) 0); cbn; try reflexivity;
    exfalso; Z.div_mod_to_equations; lia. }
  destruct (isLeap y); [rewrite (Hleap eq_refl)|destruct (isLeap (y + 1))];
    repeat match goal with
           | |- context [if Z.eqb ?a ?b then _ else _] => destruct (Z.eqb_spec a b)
           end; lia.
Qed.

(** The date the arithmetic of [calculateNextDueDate] reaches keeps the
    time of day and is strictly later than the current one, for every
    frequency and every stored date, except for ["days"] with a negative
    [frequency_value], which the handlers store as given: then it is
    strictly earlier.  For ["days"] it is the current date plus
    [frequency_value] days (one day for none or zero); for the other
    frequencies it is at most 366 days later.  It is the next due date when
    it lies within the range of a [Date]; otherwise the next due date is
    an Invalid Date. *)
Theorem calculateNextDueDate_later t f fv :
  Z.abs t <= maxTime ->
  exists u,
    calculateNextDueDate t f fv = TimeClip u
    /\ TimeWithinDay u = TimeWithinDay t
    /\ ((f = "days"%string -> forall n, fv = Some n -> 0 <= n) -> t < u)
    /\ (f = "days"%string -> forall n, fv = Some n -> n < 0 -> u < t)
    /\ (f = "days"%string -> u = t + orOne fv * msPerDay)
    /\ (f <> "days"%string -> u <= t + 366 * msPerDay)
    /\ (Z.abs u <= maxTime -> calculateNextDueDate t f fv = Some u)
    /\ (maxTime < Z.abs u -> calculateNextDueDate t f fv = None).
Proof.
  intros Ht.
  assert (Hclip : forall u, calculateNextDueDate t f fv = TimeClip u ->
            (Z.abs u <= maxTime -> calculateNextDueDate t f fv = Some u)
            /\ (maxTime < Z.abs u -> calculateNextDueDate t f fv = None)).
  { intros u ->. split; [apply TimeClip_valid | apply TimeClip_invalid]. }
  destruct (String.eqb_spec f "days") as [->|Hf].
  - exists (t + orOne fv * msPerDay).
    pose proof (calculateNextDueDate_days t fv Ht) as Hrun.
    split; [exact Hrun|]. split; [|split; [|split; [|split; [|split]]]].
    + unfold TimeWithinDay. apply Z.mod_add. unfold msPerDay. lia.
    + intros Hn. assert (1 <= orOne fv).
      { unfold orOne. destruct fv as [n|]; [|lia].
        specialize (Hn eq_refl n eq_refl). destruct (Z.eqb_spec n 0); lia. }
      unfold msPerDay. lia.
    + intros _ n -> Hn. unfold orOne. destruct (Z.eqb_spec n 0); [lia|].
      unfold msPerDay. lia.
    + reflexivity.
    + intros E. contradiction.
    + apply (Hclip _ Hrun).
  - pose proof (monthsOf_positive f) as Hk.
    pose proof (monthsOf_at_most_12 f) as Hk12.
    pose proof (MonthFromTime_range t) as HM.
    set (k := Spec.monthsOf f) in *.
    set (Y' := getFullYear t + (getMonth t + k) / 12).
    set (M' := (getMonth t + k) mod 12).
    exists (MakeDate (MakeDay Y' M' 1 + (getDate t - 1)) (TimeWithinDay t)).
    assert (Hrun : calculateNextDueDate t f fv
                   = TimeClip (MakeDate (MakeDay Y' M' 1 + (getDate t - 1))
                                        (TimeWithinDay t)))
      by (rewrite (calculateNextDueDate_months t f fv Ht Hf); apply setMonth_add).
    assert (HM' : 0 <= M' <= 11)
      by (subst M'; pose proof (Z.mod_pos_bound (getMonth t + k) 12); lia).
    assert (Hcases : (Y' = getFullYear t /\ getMonth t < M')
                     \/ (Y' = getFullYear t + 1 /\ M' <= getMonth t)).
    { subst Y' M'. unfold getMonth in *.
      destruct (Z.lt_ge_cases (MonthFromTime t + k) 12) as [Hlt|Hge].
      - left. rewrite Z.div_small, Z.mod_small by lia. lia.
      - right. replace ((MonthFromTime t + k) / 12) with 1
          by (Z.div_mod_to_equations; lia).
        replace ((MonthFromTime t + k) mod 12) with (MonthFromTime t + k - 12)
          by (Z.div_mod_to_equations; lia).
        lia. }
    assert (Hfirst : MakeDay (getFullYear t) (getMonth t) 1 < MakeDay Y' M' 1).
    { apply MakeDay_first_increasing; [exact HM | exact HM' |].
      destruct Hcases as [[-> Hlt]|[-> _]]; [right; split; [reflexivity|exact Hlt]|].
      left. lia. }
    assert (Hlast : MakeDay Y' M' 1 <= MakeDay (getFullYear t) (getMonth t) 1 + 366).
    { destruct Hcases as [[-> Hlt]|[-> Hle]].
      - pose proof (MakeDay_first_next_year (getFullYear t) (getMonth t) HM).
        assert (MakeDay (getFullYear t) M' 1 < MakeDay (getFullYear t + 1) (getMonth t) 1)
          by (apply MakeDay_first_increasing; [exact HM' | exact HM | left; lia]).
        lia.
      - pose proof (MakeDay_first_next_year (getFullYear t) (getMonth t) HM).
        destruct (Z.eq_dec M' (getMonth t)) as [->|Hne]; [lia|].
        assert (MakeDay (getFullYear t + 1) M' 1
                < MakeDay (getFullYear t + 1) (getMonth t) 1)
          by (apply MakeDay_first_increasing;
              [exact HM' | exact HM | right; split; [reflexivity|lia]]).
        lia. }
    pose proof (MakeDay_fields t 0) as Hday.
    rewrite Z.add_0_r, Z.add_0_r in Hday.
    rewrite (MakeDay_month_in_range _ _ _ HM) in Hday.
    rewrite (MakeDay_month_in_range (getFullYear t) (getMonth t) 1 HM) in Hfirst, Hlast.
    pose proof (TimeWithinDay_range t) as Htod.
    pose proof (MakeDate_Day t) as Ht'.
    split; [exact Hrun|]. split; [|split; [|split; [|split; [|split]]]].
    + apply TimeWithinDay_MakeDate, TimeWithinDay_range.
    + intros _.
      unfold MakeDate, getDate, getMonth, getFullYear, msPerDay in *. lia.
    + intros E. contradiction.
    + intros E. contradiction.
    + intros _.
      unfold MakeDate, getDate, getMonth, getFullYear, msPerDay in *. lia.
    + apply (Hclip _ Hrun).
Qed.

(** The theorem on 31 January 2024 with a quarter, and with minus three
    days. *)
Lemma calculateNextDueDate_later_witness :
  (exists u, calculateNextDueDate (ymd 2024 1 31) "quarter" None = Some u
             /\ ymd 2024 1 31 < u)
  /\ (exists u, calculateNextDueDate (ymd 2024 1 31) "days" (Some (-3)) = Some u
                /\ u < ymd 2024 1 31).
Proof.
  split.
  - destruct (calculateNextDueDate_later (ymd 2024 1 31) "quarter" None)
      as (u & _ & _ & Hlater & _ & _ & Hclose & Hvalid & _);
      [vm_compute; discriminate|].
    exists u.
    assert (Hlt : ymd 2024 1 31 < u) by (apply Hlater; discriminate).
    split; [|exact Hlt].
    apply Hvalid. specialize (Hclose ltac:(discriminate)).
    assert (0 <= ymd 2024 1 31) by (vm_compute; discriminate).
    assert (ymd 2024 1 31 + 366 * msPerDay <= maxTime) by (vm_compute; discriminate).
    lia.
  - destruct (calculateNextDueDate_later (ymd 2024 1 31) "days" (Some (-3)))
      as (u & _ & _ & _ & Hearlier & Hdays & _ & Hvalid & _);
      [vm_compute; discriminate|].
    exists u.
    assert (Hlt : u < ymd 2024 1 31) by (apply (Hearlier eq_refl (-3) eq_refl); lia).
    split; [|exact Hlt].
    apply Hvalid. rewrite (Hdays eq_refl). vm_compute. discriminate.
Defined.

End NextDueDateOrder.

Section ExpenseHandlerFacts.

Import JSDate Expenses ExpectedExpense ExpenseScenario ExpenseHandlers.

Lemma isOneOf_In s l : isOneOf s l = true -> In s l.
Proof.
  unfold isOneOf. intros H. apply existsb_exists in H.
  destruct H as (x & Hx & E). apply String.eqb_eq in E. subst x. exact Hx.
Qed.

Lemma asCreated_recursive now user i nm cat amt pr due desc pm fq fv :
  Qle_bool 0 amt = true ->
  In fq frequencies -> fq <> ""%string ->
  (fq = "days"%string -> fv <> None) ->
  (fq <> "days"%string -> fv = None) ->
  asCreated now user
    (mkExpense i nm cat amt recursive pr due None desc pm
               (if due <? now then overdue else pending) (Some fq) fv None true user).
Proof.
  intros Hamt Hin Hne Hd Hnd. unfold asCreated.
  cbn [is_active parent_id paid_date created_by amount type status frequency
       frequency_value due_date truthy].
  repeat split; try assumption; try discriminate.
  - exists fq. split; [reflexivity | exact Hin].
  - destruct (String.eqb_spec fq ""); [contradiction | reflexivity].
  - intros [= E]. apply Hd, E.
  - intros Hsome. apply Hnd. intros E. apply Hsome. rewrite E. reflexivity.
Qed.

(** POST /expenses either answers 201 or leaves the store as it was.  When
    it answers 201 it has added exactly one record: active, without parent
    and unpaid, created by the caller, with an amount that is not negative.
    A one-time expense starts as active and carries neither frequency nor
    frequency value, whatever the form held.  A recursive one carries one
    of the five frequencies, a frequency value exactly when the frequency
    is ["days"], and starts as pending, or as overdue when its due date is
    already before the time of creation. *)
Theorem createExpense_stores trim now user st f :
  (fst (createExpense trim now user st f) = Answered 201
   \/ snd (createExpense trim now user st f) = st)
  /\ (fst (createExpense trim now user st f) = Answered 201 ->
      exists e, snd (createExpense trim now user st f) = (st ++ [e])%list
                /\ _id e = freshId (map _id st)
                /\ asCreated now user e).
Proof.
  unfold createExpense.
  destruct (f_amount f) as [amt|]; [|split; [right; reflexivity | discriminate]].
  destruct (f_due_date f) as [due|]; [|split; [right; reflexivity | discriminate]].
  destruct (isEmpty (f_name f) || isEmpty (f_category f) || isEmpty (f_type f));
    [split; [right; reflexivity | discriminate]|].
  destruct (String.eqb (f_type f) "recursive" && isEmpty (f_frequency f)) eqn:Hfq;
    [split; [right; reflexivity | discriminate]|].
  destruct (String.eqb (f_type f) "recursive" && String.eqb (f_frequency f) "days"
            && match f_frequency_value f with None => true | Some _ => false end)
    eqn:Hfv; [split; [right; reflexivity | discriminate]|].
  destruct (castExpense trim user f amt due) as [doc|] eqn:Hcast;
    [|split; [right; reflexivity | discriminate]].
  split; [left; reflexivity|]. intros _.
  unfold Expense_create. cbn [fst snd].
  eexists. split; [reflexivity|].
  revert Hcast. unfold castExpense.
  destruct (typeOf (f_type f)) as [ty|] eqn:Hty; [|discriminate].
  destruct (priorityOf _) as [pr|]; [|discriminate].
  destruct (match f_payment_method f with
            | None => Some None
            | Some m => option_map Some (paymentMethodOf m)
            end) as [pm|]; [|discriminate].
  destruct (negb (isEmpty (trim (f_name f))) && isOneOf (f_category f) categories
            && Qle_bool 0 amt
            && (negb (String.eqb (f_type f) "recursive")
                || isOneOf (f_frequency f) frequencies)) eqn:Hvalid; [|discriminate].
  intros [= <-].
  apply andb_true_iff in Hvalid. destruct Hvalid as [Hvalid Hfreq].
  apply andb_true_iff in Hvalid. destruct Hvalid as [_ Hamt].
  unfold typeOf in Hty.
  destruct (String.eqb_spec (f_type f) "one_time") as [E1|N1].
  - (* a one-time expense *)
    injection Hty as <-. rewrite E1. cbn [String.eqb Ascii.eqb Bool.eqb].
    split; [unfold preSave; reflexivity|].
    unfold preSave, asCreated. cbn.
    repeat split; try reflexivity; try assumption; discriminate.
  - destruct (String.eqb_spec (f_type f) "recursive") as [E2|N2]; [|discriminate].
    injection Hty as <-. cbn [negb orb andb] in *.
    unfold isEmpty in Hfq.
    destruct (String.eqb_spec (f_frequency f) "") as [|Hne]; [discriminate|].
    unfold preSave.
    cbn [withId isRecursive type status status_eqb due_date andb].
    split; [destruct (due <? now); reflexivity|].
    assert (Hd : f_frequency f = "days"%string ->
                 (if String.eqb (f_frequency f) "days"
                  then f_frequency_value f else None) <> None).
    { intros Ed. rewrite Ed in *. cbn in *.
      destruct (f_frequency_value f); [discriminate|discriminate]. }
    assert (Hnd : f_frequency f <> "days"%string ->
                 (if String.eqb (f_frequency f) "days"
                  then f_frequency_value f else None) = None).
    { intros Hn. destruct (String.eqb_spec (f_frequency f) "days");
        [contradiction | reflexivity]. }
    pose proof (asCreated_recursive now user (freshId (map _id st))
                  (trim (f_name f)) (f_category f) amt pr due
                  (option_map trim (f_description f)) pm (f_frequency f) _
                  Hamt (isOneOf_In _ _ Hfreq) Hne Hd Hnd) as Hres.
    destruct (due <? now); exact Hres.
Qed.

(** The theorem at a form for a weekly expense due on 1 January 2024,
    filed on 15 March. *)
Lemma createExpense_stores_witness :
  exists e,
    snd (createExpense (fun s => s) (ymd 2024 3 15) 3%nat [rent]
           (mkExpenseForm "Cleaning" "other" (Some (50 # 1)) "recursive" ""
                          (Some (ymd 2024 1 1)) None None "days" (Some 7)))
    = ([rent] ++ [e])%list
    /\ _id e = freshId (map _id [rent])
    /\ asCreated (ymd 2024 3 15) 3%nat e.
Proof.
  destruct (createExpense_stores (fun s => s) (ymd 2024 3 15) 3%nat [rent]
              (mkExpenseForm "Cleaning" "other" (Some (50 # 1)) "recursive" ""
                             (Some (ymd 2024 1 1)) None None "days" (Some 7)))
    as [_ H].
  apply H. reflexivity.
Defined.

End ExpenseHandlerFacts.

Section ToggleAndPay.

Import JSDate Expenses ExpectedExpense ExpenseScenario ExpenseHandlers.

(** Saving again later changes nothing the later save alone would not. *)
Lemma preSave_compose now now' e :
  now <= now' -> preSave now' (preSave now e) = preSave now' e.
Proof.
  intros Hle. unfold preSave.
  destruct (isRecursive e) eqn:Hr; [|cbn [andb]; rewrite Hr; reflexivity].
  destruct (expenseStatusP (status e) pending) as [Hs|Hs].
  - cbn [andb]. destruct (Z.ltb_spec (due_date e) now) as [Hlt|Hge].
    + cbn [isRecursive type withStatus status status_eqb andb due_date].
      rewrite andb_false_r. cbn [andb].
      destruct (Z.ltb_spec (due_date e) now'); [reflexivity|lia].
    + rewrite Hr. destruct (expenseStatusP (status e) pending); [|contradiction].
      reflexivity.
  - cbn [andb]. rewrite Hr.
    destruct (expenseStatusP (status e) pending); [contradiction|reflexivity].
Qed.

Lemma preSave_withActive now e a :
  preSave now (withActive e a) = withActive (preSave now e) a.
Proof.
  unfold preSave. cbn [isRecursive type withActive status due_date].
  destruct (_ && _ && _); reflexivity.
Qed.

(** PATCH /expenses/:id/toggle-active refuses a one-time expense and
    writes nothing.  On a recursive expense it answers 200 and flips
    [is_active]; the save runs the model's hook, so a pending expense that
    is past due is stored as overdue on the way.  A paused expense is never
    selected by the hourly task, at any time.  Toggling twice, the second
    time no earlier than the first, leaves the record exactly as a plain
    save at the second time would: [is_active] is back, everything else is
    untouched but that status. *)
Theorem toggleActive_effect now now' st id e :
  Expense_findById st id = Some e ->
  (type e = one_time ->
   toggleActive now st id = (Refused 400 OnlyRecursiveToggled, st))
  /\ (type e = recursive -> now <= now' ->
      let st1 := snd (toggleActive now st id) in
      let st2 := snd (toggleActive now' st1 id) in
      fst (toggleActive now st id) = Answered 200
      /\ Expense_findById st1 id
         = Some (withActive (preSave now e) (negb (is_active e)))
      /\ (is_active e = true ->
          forall t, isDueRecursive t (withActive (preSave now e) false) = false)
      /\ fst (toggleActive now' st1 id) = Answered 200
      /\ Expense_findById st2 id = Some (preSave now' e)).
Proof.
  intros He. split.
  - intros Ht. unfold toggleActive, isRecursive. rewrite He, Ht. reflexivity.
  - intros Ht Hle st1 st2.
    assert (Hrun : toggleActive now st id
                   = (Answered 200,
                      Expense_save now (withActive e (negb (is_active e))) st))
      by (unfold toggleActive, isRecursive; rewrite He, Ht; reflexivity).
    assert (H1 : Expense_findById st1 id
                 = Some (withActive (preSave now e) (negb (is_active e)))).
    { subst st1. rewrite Hrun. cbn [snd]. rewrite <- preSave_withActive.
      apply (Expense_save_found now _ st id e He). reflexivity. }
    set (e1 := withActive (preSave now e) (negb (is_active e))) in *.
    assert (Ht1 : isRecursive e1 = true).
    { subst e1. unfold isRecursive, preSave. cbn [type withActive].
      destruct (_ && _ && _); cbn [type withStatus]; rewrite Ht; reflexivity. }
    assert (Hrun2 : toggleActive now' st1 id
                    = (Answered 200,
                       Expense_save now' (withActive e1 (negb (is_active e1))) st1))
      by (unfold toggleActive; rewrite H1, Ht1; reflexivity).
    split; [rewrite Hrun; reflexivity|]. split; [exact H1|].
    split; [intros _ t; unfold isDueRecursive; cbn [is_active withActive];
            rewrite andb_false_r; reflexivity|].
    split; [rewrite Hrun2; reflexivity|].
    subst st2. rewrite Hrun2. cbn [snd].
    rewrite (Expense_save_found now' (withActive e1 (negb (is_active e1))) st1 id e1
               H1 eq_refl).
    f_equal. subst e1. cbn [is_active withActive]. rewrite negb_involutive.
    rewrite preSave_withActive.
    assert (Hback : forall x a, withActive (withActive x a) (is_active x) = x)
      by (intros [] a; reflexivity).
    assert (Hact : forall x, is_active (preSave now' x) = is_active x)
      by (intros x; unfold preSave; destruct (_ && _ && _); reflexivity).
    assert (Hin : forall x a, preSave now' (withActive x a)
                              = withActive (preSave now' x) a)
      by (intros; apply preSave_withActive).
    rewrite Hin, preSave_compose by exact Hle.
    rewrite <- (Hact e) at 2. apply Hback.
Qed.

(** The theorem at the monthly expense, paused on 5 March 2024 and resumed
    on 6 March. *)
Lemma toggleActive_effect_witness :
  Expense_findById
    (snd (toggleActive (ymd 2024 3 6) (snd (toggleActive (ymd 2024 3 5) [rent] 1%nat))
                       1%nat)) 1%nat
  = Some (preSave (ymd 2024 3 6) rent).
Proof.
  destruct (toggleActive_effect (ymd 2024 3 5) (ymd 2024 3 6) [rent] 1%nat rent
              eq_refl) as [_ H].
  destruct (H eq_refl) as (_ & _ & _ & _ & H2); [vm_compute; discriminate | exact H2].
Defined.

(** "Mark paid" looks at neither the status nor earlier successors: paying
    the same recursive, active expense twice, each time with a payment
    method of the model and a paid date that is omitted or valid, adds two
    successors when its next due date is a valid date, under different
    identifiers, with the same due date and the same parent; when its next
    due date is an Invalid Date, both calls answer 500 and nothing is
    written. *)
Theorem markExpensePaid_twice now now' st id pd pd' m m' method method' paid paid' e :
  Expense_findById st id = Some e ->
  type e = recursive -> is_active e = true ->
  paymentMethodOf m = Some method -> paymentMethodOf m' = Some method' ->
  paidDateOf now pd = Some paid -> paidDateOf now' pd' = Some paid' ->
  let next := calculateNextDueDate (due_date e) (frequencyArg (frequency e))
                                   (frequency_value e) in
  let st1 := snd (markExpensePaid now st id pd (Some m)) in
  (forall d, next = Some d ->
     exists base s1 s2,
       fst (markExpensePaid now st id pd (Some m)) = Sent 200
       /\ markExpensePaid now' st1 id pd' (Some m') = (Sent 200, base ++ [s1; s2])%list
       /\ List.length base = List.length st
       /\ due_date s1 = d /\ due_date s2 = d
       /\ parent_id s1 = Some (originOf e) /\ parent_id s2 = Some (originOf e)
       /\ _id s1 <> _id s2)
  /\ (next = None ->
      markExpensePaid now st id pd (Some m) = (Failed 500 Thrown, st)
      /\ markExpensePaid now' st1 id pd' (Some m') = (Failed 500 Thrown, st)).
Proof.
  intros He Ht Ha Hm Hm' Hpaid Hpaid' next st1.
  pose proof (markExpensePaid_store now st id pd m method paid e He Hm Hpaid) as H1.
  fold next in H1. unfold isRecursive in H1. rewrite Ht, Ha in H1. cbn [andb] in H1.
  split.
  - intros d Hd. rewrite Hd in H1.
    set (marked := findByIdAndUpdate id (fun x => markPaidUpdate x paid method) st) in *.
    set (s1 := successorOf e (freshId (map _id st)) d
                           (if d <? now then overdue else pending)) in *.
    assert (Hst1 : st1 = (marked ++ [s1])%list) by (subst st1; rewrite H1; reflexivity).
    assert (Hfound : Expense_findById marked id = Some (markPaidUpdate e paid method))
      by (apply (findByIdAndUpdate_found id (fun x => markPaidUpdate x paid method) st e);
          [reflexivity | exact He]).
    assert (Hfound1 : Expense_findById st1 id = Some (markPaidUpdate e paid method))
      by (rewrite Hst1; apply find_app_found, Hfound).
    pose proof (markExpensePaid_store now' st1 id pd' m' method' paid' _ Hfound1 Hm' Hpaid')
      as H2.
    cbn [due_date frequency frequency_value markPaidUpdate] in H2.
    fold next in H2. unfold isRecursive in H2.
    cbn [type is_active markPaidUpdate] in H2. rewrite Ht, Ha, Hd in H2.
    cbn [andb] in H2.
    set (s2 := successorOf (markPaidUpdate e paid method) (freshId (map _id st1)) d
                           (if d <? now' then overdue else pending)) in *.
    exists (findByIdAndUpdate id (fun x => markPaidUpdate x paid' method') marked), s1, s2.
    split; [rewrite H1; reflexivity|].
    split.
    { rewrite H2. f_equal. rewrite Hst1 at 1.
      rewrite (findByIdAndUpdate_app id _ marked [s1] _ Hfound).
      rewrite <- app_assoc. reflexivity. }
    split; [subst marked; rewrite !findByIdAndUpdate_length; reflexivity|].
    repeat split.
    subst s1 s2. cbn [_id successorOf].
    assert (Hin : In (freshId (map _id st)) (map _id st1)).
    { rewrite Hst1, map_app. apply in_or_app. right. left. reflexivity. }
    pose proof (freshId_above _ _ Hin). lia.
  - intros Hnone. rewrite Hnone in H1.
    assert (Hst1 : st1 = st) by (subst st1; rewrite H1; reflexivity).
    split; [exact H1|]. rewrite Hst1.
    pose proof (markExpensePaid_store now' st id pd' m' method' paid' e He Hm' Hpaid')
      as H2.
    fold next in H2. unfold isRecursive in H2. rewrite Ht, Ha, Hnone in H2.
    exact H2.
Qed.

(** The theorem at the monthly expense, paid on 5 and on 6 January 2024. *)
Lemma markExpensePaid_twice_witness :
  exists base s1 s2,
    markExpensePaid (ymd 2024 1 6)
      (snd (markExpensePaid (ymd 2024 1 5) [rent] 1%nat None (Some "cash"%string)))
      1%nat None (Some "check"%string)
    = (Sent 200, base ++ [s1; s2])%list
    /\ List.length base = List.length [rent]
    /\ due_date s1 = ymd 2024 2 1 /\ due_date s2 = ymd 2024 2 1
    /\ parent_id s1 = Some (originOf rent) /\ parent_id s2 = Some (originOf rent)
    /\ _id s1 <> _id s2.
Proof.
  destruct (markExpensePaid_twice (ymd 2024 1 5) (ymd 2024 1 6) [rent] 1%nat None None
              "cash" "check" cash check (ymd 2024 1 5) (ymd 2024 1 6) rent
              eq_refl eq_refl eq_refl eq_refl eq_refl eq_refl eq_refl) as [H _].
  destruct (H (ymd 2024 2 1)) as (base & s1 & s2 & _ & Hrest);
    [vm_compute; reflexivity|].
  exists base, s1, s2. exact Hrest.
Defined.

(** "Mark paid" with a payment method that is not empty but is none of the
    four of the model, or with a paid date that is no date: the update is
    refused and the answer is 500, with the expense left exactly as it was,
    not paid.  The next occurrence is created before the update is tried,
    so for a recursive, active expense with a valid next due date the
    successor is stored all the same. *)
Theorem markExpensePaid_refused_update now st id pd m e :
  Expense_findById st id = Some e ->
  m <> ""%string ->
  paymentMethodOf m = None \/ paidDateOf now pd = None ->
  let next := calculateNextDueDate (due_date e) (frequencyArg (frequency e))
                                   (frequency_value e) in
  let st' := snd (markExpensePaid now st id pd (Some m)) in
  fst (markExpensePaid now st id pd (Some m)) = Failed 500 Thrown
  /\ Expense_findById st' id = Some e
  /\ (type e = recursive -> is_active e = true -> forall d, next = Some d ->
      st' = (st ++ [successorOf e (freshId (map _id st)) d
                                (if d <? now then overdue else pending)])%list)
  /\ (type e = one_time \/ is_active e = false \/ next = None -> st' = st).
Proof.
  intros He Hm Hbad next st'.
  assert (Hcast : castUpdate (paidDateOf now pd) m = None).
  { unfold castUpdate. destruct Hbad as [-> | ->]; [|reflexivity].
    destruct (paidDateOf now pd); reflexivity. }
  pose proof (markExpensePaid_run now st id pd m e Hm He) as Hrun.
  rewrite Hcast in Hrun. fold next in Hrun.
  assert (Hst : st' = if isRecursive e && is_active e
                      then match next with
                           | Some d => (st ++ [successorOf e (freshId (map _id st)) d
                                                 (if d <? now then overdue else pending)])%list
                           | None => st
                           end
                      else st).
  { subst st'. rewrite Hrun.
    destruct (isRecursive e && is_active e); [|reflexivity].
    destruct next; reflexivity. }
  split; [|split; [|split]].
  - rewrite Hrun. destruct (isRecursive e && is_active e); [|reflexivity].
    destruct next; reflexivity.
  - rewrite Hst. destruct (isRecursive e && is_active e); [|exact He].
    destruct next; [|exact He].
    unfold Expense_findById in *. apply find_app_found, He.
  - intros Ht Ha d Hd. rewrite Hst. unfold isRecursive. rewrite Ht, Ha, Hd.
    reflexivity.
  - intros Hplain. rewrite Hst. unfold isRecursive.
    destruct Hplain as [-> | [-> | ->]]; [reflexivity| |].
    + rewrite andb_false_r. reflexivity.
    + destruct (_ && _); reflexivity.
Qed.

(** The theorem at the monthly expense, paid on 5 January 2024 by a method
    the model does not know: the expense stays pending and its successor is
    there. *)
Lemma markExpensePaid_refused_update_witness :
  markExpensePaid (ymd 2024 1 5) [rent] 1%nat None (Some "paypal"%string)
  = (Failed 500 Thrown, [rent; successor 2%nat (ymd 2024 2 1) pending]).
Proof.
  destruct (markExpensePaid_refused_update (ymd 2024 1 5) [rent] 1%nat None
              "paypal" rent eq_refl) as (Hres & _ & Hrec & _);
    [discriminate | left; reflexivity |].
  specialize (Hrec eq_refl eq_refl (ymd 2024 2 1) ltac:(vm_compute; reflexivity)).
  rewrite (surjective_pairing (markExpensePaid _ _ _ _ _)), Hres, Hrec.
  reflexivity.
Defined.

(** The lease, whose next due date is beyond the range of a [Date], cannot
    be marked paid: the answer is 500 and it stays pending. *)
Example markExpensePaid_lease :
  markExpensePaid (ymd 2024 1 5) [lease] 5%nat None (Some "cash"%string)
  = (Failed 500 Thrown, [lease]).
Proof. vm_compute. reflexivity. Qed.

End ToggleAndPay.

(** ** The list of pending share requests *)

Section PendingPages.

Import Shares Scenario PendingList.

Lemma firstn_add {A} (a b : nat) (l : list A) :
  firstn (a + b) l = (firstn a l ++ firstn b (skipn a l))%list.
Proof.
  revert l. induction a as [|a IH]; intros l; [reflexivity|].
  destruct l as [|x l]; [cbn; rewrite firstn_nil; reflexivity|].
  cbn [Nat.add firstn skipn app]. rewrite IH. reflexivity.
Qed.

Lemma In_slice {A} (a n : nat) (l : list A) (x : A) :
  In x (firstn n (skipn a l)) -> In x l.
Proof.
  intros H. rewrite <- (firstn_skipn a l). apply in_or_app. right.
  rewrite <- (firstn_skipn n (skipn a l)). apply in_or_app. left. exact H.
Qed.

(** Consecutive slices of [n] elements put back together. *)
Lemma slices_concat {A} (n k : nat) (l : list A) :
  List.concat (map (fun i => firstn n (skipn (i * n) l)) (seq 0 k)) = firstn (k * n) l.
Proof.
  induction k as [|k IH]; [reflexivity|].
  rewrite seq_S, map_app, concat_app, IH. cbn [map List.concat Nat.add].
  rewrite app_nil_r. rewrite <- firstn_add. f_equal. lia.
Qed.

Lemma ceilDiv_bounds total limit :
  0 <= total -> 1 <= limit ->
  0 <= ceilDiv total limit
  /\ total <= ceilDiv total limit * limit < total + limit.
Proof.
  intros Ht Hl. unfold ceilDiv. Z.div_mod_to_equations. nia.
Qed.

Lemma getPending_page st (p : nat) limit :
  (1 <= p)%nat -> 1 <= limit ->
  getPending st (Some (Z.of_nat p)) (Some limit)
  = Some (mkPendingPage
            (firstn (Z.to_nat limit)
                    (skipn ((p - 1) * Z.to_nat limit) (pendingNewestFirst st)))
            (Z.of_nat p) limit
            (Z.of_nat (List.length (pendingNewestFirst st)))
            (ceilDiv (Z.of_nat (List.length (pendingNewestFirst st))) limit)).
Proof.
  intros Hp Hl. unfold getPending, orDefault.
  destruct (Z.eqb_spec (Z.of_nat p) 0); [lia|].
  destruct (Z.eqb_spec limit 0); [lia|].
  destruct (Z.ltb_spec ((Z.of_nat p - 1) * limit) 0); [nia|].
  rewrite Z.abs_eq by lia.
  replace (Z.to_nat ((Z.of_nat p - 1) * limit)) with ((p - 1) * Z.to_nat limit)%nat
    by nia.
  reflexivity.
Qed.

(** Paging through the pending requests with a positive page size.  Every
    page answers with [total], the number of requests of the store that
    are pending, and with [pages], the least number of pages of [limit]
    requests that hold [total] requests.  A page holds requests of the
    store that are pending, exactly [limit] of them before the last page,
    at most [limit] on it and none after it.  The pages 1 to [pages], one
    after the other, are the pending requests of the store, each as often
    as the store has it, from the one stored last to the one stored
    first. *)
Theorem getPending_pages st limit :
  1 <= limit ->
  let isPending := fun r => status_eqb (sr_status r) pending in
  let total := Z.of_nat (List.length (filter isPending (shareRequests st))) in
  let pages := ceilDiv total limit in
  (forall p, (1 <= p)%nat ->
     exists pg, getPending st (Some (Z.of_nat p)) (Some limit) = Some pg
                /\ pg_page pg = Z.of_nat p /\ pg_limit pg = limit
                /\ pg_total pg = total /\ pg_pages pg = pages
                /\ Z.of_nat (List.length (pg_shareRequests pg)) <= limit
                /\ Forall (fun r => sr_status r = pending /\ In r (shareRequests st))
                          (pg_shareRequests pg)
                /\ (Z.of_nat p < pages ->
                    Z.of_nat (List.length (pg_shareRequests pg)) = limit)
                /\ (pages < Z.of_nat p -> pg_shareRequests pg = []))
  /\ List.concat (map (fun p => listed (getPending st (Some (Z.of_nat p)) (Some limit)))
                 (seq 1 (Z.to_nat pages)))
     = rev (filter isPending (shareRequests st))
  /\ total <= pages * limit < total + limit.
Proof.
  intros Hl isPending total pages.
  assert (Hlen : List.length (pendingNewestFirst st)
                 = List.length (filter isPending (shareRequests st)))
    by (unfold pendingNewestFirst; apply length_rev).
  pose proof (ceilDiv_bounds total limit ltac:(subst total; lia) Hl) as [Hp0 Hpb].
  fold pages in Hp0, Hpb.
  assert (Hpend : Forall (fun r => sr_status r = pending /\ In r (shareRequests st))
                         (pendingNewestFirst st)).
  { unfold pendingNewestFirst. apply Forall_rev. apply Forall_forall.
    intros r Hr. apply filter_In in Hr. destruct Hr as [Hin Hr].
    split; [|exact Hin].
    destruct (statusP (sr_status r) pending); [assumption|discriminate]. }
  split; [|split; [|exact Hpb]].
  - intros p Hp. rewrite (getPending_page st p limit Hp Hl).
    eexists. split; [reflexivity|].
    cbn [pg_page pg_limit pg_total pg_pages pg_shareRequests].
    split; [reflexivity|]. split; [reflexivity|].
    split; [rewrite Hlen; reflexivity|]. split; [rewrite Hlen; reflexivity|].
    split; [|split; [|split]].
    + pose proof (firstn_le_length (Z.to_nat limit)
                    (skipn ((p - 1) * Z.to_nat limit) (pendingNewestFirst st))).
      lia.
    + rewrite Forall_forall in *. intros r Hr. apply Hpend.
      apply (In_slice _ _ _ _ Hr).
    + intros Hbefore. rewrite length_firstn, length_skipn, Hlen. subst total. nia.
    + intros Hbeyond. rewrite skipn_all2; [apply firstn_nil|].
      rewrite Hlen. subst total. nia.
  - change (rev (filter isPending (shareRequests st))) with (pendingNewestFirst st).
    transitivity (firstn (Z.to_nat pages * Z.to_nat limit) (pendingNewestFirst st)).
    + rewrite <- slices_concat.
      rewrite <- seq_shift, map_map. f_equal. apply map_ext_in.
      intros i _. rewrite (getPending_page st (S i) limit) by (lia || exact Hl).
      cbn [listed pg_shareRequests]. do 2 f_equal. lia.
    + apply firstn_all2. rewrite Hlen. subst total. nia.
Qed.

(** The theorem at the queue of five requests, two per page: the four
    pending ones come on two pages, the last stored first. *)
Lemma getPending_pages_witness :
  List.concat (map (fun p => listed (getPending queue (Some (Z.of_nat p)) (Some 2)))
              (seq 1 2))
  = [request 5 5 pending; request 4 6 pending; request 3 7 pending;
     request 1 9 pending]%nat.
Proof.
  destruct (getPending_pages queue 2) as (_ & H & _); [lia | exact H].
Defined.

(** The two pages of the queue, and the empty third. *)
Example getPending_queue :
  listed (getPending queue (Some 1) (Some 2))
  = [request 5 5 pending; request 4 6 pending]%nat
  /\ listed (getPending queue (Some 2) (Some 2))
     = [request 3 7 pending; request 1 9 pending]%nat
  /\ listed (getPending queue (Some 3) (Some 2)) = []
  /\ option_map pg_total (getPending queue (Some 1) (Some 2)) = Some 4
  /\ option_map pg_pages (getPending queue (Some 1) (Some 2)) = Some 2.
Proof. vm_compute. repeat split; reflexivity. Qed.

End PendingPages.

(** ** Direct investments *)

Section InvestFacts.

Import Shares Scenario Invest.

Lemma hasPendingInvestment_app st investor business i rest :
  investments st = (rest ++ [i])%list ->
  inv_investor_id i = investor -> inv_business_id i = business ->
  inv_status i = pending ->
  hasPendingInvestment st investor business = true.
Proof.
  intros Hst Hi Hb Hs. unfold hasPendingInvestment. rewrite Hst, existsb_app.
  cbn [existsb]. rewrite Hi, Hb, Hs, !Nat.eqb_refl. cbn.
  apply orb_true_r.
Qed.

(** An investment in an active public listing, by an investor with no
    pending investment there and for an amount that is not negative, is
    stored as pending before anybody is notified.  The answer is 201 only
    when the listing's entrepreneur account is found and the notification
    is delivered; otherwise, and always for a listing that has no
    entrepreneur, the answer is 500 with the investment stored all the
    same.  Either way a second attempt by that investor is refused for the
    pending investment and stores nothing. *)
Theorem invest_stored_before_notice accountExists delivered st investor businessId a b :
  find (fun x => Nat.eqb (b_id x) businessId && isActive x && isPublic x)
       (businesses st) = Some b ->
  hasPendingInvestment st investor businessId = false ->
  (0 <= a)%Q ->
  let st' := mkStore (businesses st) (shareRequests st)
                     (investments st
                      ++ [mkInvestment (freshId (map inv_id (investments st)))
                                       investor businessId a pending])
                     (notifications st) in
  invest accountExists delivered st investor businessId (Some a)
  = (if match entrepreneur_id b with
        | Some e => accountExists e && delivered
        | None => false
        end
     then Invested 201 else NotInvested 500 Crashed,
     st')
  /\ (forall accountExists' delivered' a',
         invest accountExists' delivered' st' investor businessId a'
         = (NotInvested 400 PendingInvestmentExists, st')).
Proof.
  intros Hb Hdup Ha st'. split.
  - unfold invest. rewrite Hb, Hdup. unfold Investment_create.
    assert (Hok : Qle_bool 0 a = true) by (apply Qle_bool_iff, Ha).
    rewrite Hok. fold st'.
    destruct (entrepreneur_id b) as [e|]; [|reflexivity].
    destruct (accountExists e && delivered); reflexivity.
  - intros accountExists' delivered' a'. unfold invest.
    assert (Hb' : find (fun x => Nat.eqb (b_id x) businessId && isActive x && isPublic x)
                       (businesses st') = Some b) by exact Hb.
    rewrite Hb'.
    rewrite (hasPendingInvestment_app st' investor businessId
               (mkInvestment (freshId (map inv_id (investments st)))
                             investor businessId a pending) (investments st));
      reflexivity.
Qed.

(** The theorem at the scenario's offering when the entrepreneur's account
    is gone: 500, and the investment of 250 is stored. *)
Lemma invest_stored_before_notice_witness :
  invest (fun _ => false) true st0 9%nat 1%nat (Some (250 # 1))
  = (NotInvested 500 Crashed,
     mkStore (businesses st0) (shareRequests st0)
             (investments st0
              ++ [mkInvestment (freshId (map inv_id (investments st0))) 9%nat 1%nat
                               (250 # 1) pending])
             (notifications st0)).
Proof.
  destruct (invest_stored_before_notice (fun _ => false) true st0 9%nat 1%nat
              (250 # 1) offering) as [H _];
    [reflexivity | reflexivity | discriminate | exact H].
Defined.

End InvestFacts.

(** ** The inventory bound along any sequence of calls *)

Section ShareOpsFacts.

Import Shares Scenario ShareOps.

Lemma created_request_valid investor business requested value total st r st1 :
  ShareRequest_create investor business requested value total st = Some (r, st1) ->
  shareRequests st1 = (shareRequests st ++ [r])%list /\ 1 <= requested_shares r.
Proof.
  unfold ShareRequest_create.
  destruct (1 <=? requested) eqn:H1; [|discriminate].
  destruct (Qle_bool 0 value); [|discriminate].
  destruct (Qle_bool 0 total); [|discriminate].
  cbn [andb]. intros [= <- <-]. split; [reflexivity|].
  cbn. apply Z.leb_le, H1.
Qed.

Lemma requests_kept_by_replace (l : list ShareRequest) r s reason :
  In r l ->
  Forall (fun x => 1 <= requested_shares x) l ->
  Forall (fun x => 1 <= requested_shares x)
         (map (fun x => if Nat.eqb (sr_id x) (sr_id r) then setStatus r s reason else x) l).
Proof.
  intros Hr Hall. rewrite Forall_map. rewrite Forall_forall in *.
  intros x Hx. destruct (Nat.eqb (sr_id x) (sr_id r)); [|apply Hall, Hx].
  cbn. apply Hall, Hr.
Qed.

Lemma runOp_requests st op :
  Forall (fun r => 1 <= requested_shares r) (shareRequests st) ->
  Forall (fun r => 1 <= requested_shares r) (shareRequests (runOp st op)).
Proof.
  intros Hall. destruct op as [i b n v|i b n|id a|id reason]; cbn [runOp].
  - unfold requestShares.
    destruct (validateShareRequest n v); [exact Hall|].
    destruct (Business_findById st b) as [bz|]; [|exact Hall].
    destruct (negb (isPublic bz)); [exact Hall|].
    destruct (n >? remaining_shares bz); [exact Hall|].
    destruct (ShareRequest_create _ _ _ _ _ st) as [[r st1]|] eqn:Hc; [|exact Hall].
    destruct (created_request_valid _ _ _ _ _ _ _ _ Hc) as [Hst1 Hr].
    unfold notifyEntrepreneur, Notification_create.
    destruct (entrepreneur_id bz); cbn [snd shareRequests]; rewrite Hst1;
      apply Forall_app; split; try exact Hall; repeat constructor; exact Hr.
  - unfold investorRequestShares.
    destruct (find _ (businesses st)) as [bz|]; [|exact Hall].
    destruct (belowMinimum bz n); [exact Hall|].
    destruct (hasPendingRequest st i b); [exact Hall|].
    destruct (ShareRequest_create _ _ _ _ _ st) as [[r st1]|] eqn:Hc; [|exact Hall].
    destruct (created_request_valid _ _ _ _ _ _ _ _ Hc) as [Hst1 Hr].
    cbn [snd]. rewrite Hst1.
    apply Forall_app; split; [exact Hall | repeat constructor; exact Hr].
  - unfold approveShareRequest.
    destruct (ShareRequest_findById st id) as [r|] eqn:Hr; [|exact Hall].
    destruct (negb _); [exact Hall|].
    destruct (_ >? requested_shares r); [exact Hall|].
    destruct (Business_findById st (business_id r)) as [bz|]; [|exact Hall].
    destruct (_ >? remaining_shares bz); [exact Hall|].
    apply find_some in Hr. destruct Hr as [Hin _].
    pose proof (requests_kept_by_replace _ r approved (rejection_reason r) Hin Hall)
      as Hnew.
    unfold Investment_create. destruct (Qle_bool 0 _); [|exact Hnew].
    unfold notifyEntrepreneur. destruct (entrepreneur_id bz); exact Hnew.
  - unfold rejectShareRequest.
    destruct (ShareRequest_findById st id) as [r|] eqn:Hr; [|exact Hall].
    apply find_some in Hr. destruct Hr as [Hin _].
    exact (requests_kept_by_replace _ r rejected reason Hin Hall).
Qed.

(** Whatever sequence of requests (through either route), approvals and
    rejections is applied, in whatever order and whether the calls succeed
    or are refused: as long as no approval carries a negative count, every
    business that was within [0 <= remaining_shares <= total_shares] still
    is, and every stored request still asks for at least one share. *)
Theorem share_calls_keep_inventory ops : forall st,
  Forall noNegativeCount ops ->
  inventoryKept st ->
  inventoryKept (fold_left runOp ops st).
Proof.
  induction ops as [|op ops IH]; intros st Hops Hst; [exact Hst|].
  cbn [fold_left]. inversion Hops as [|? ? Hop Hrest]; subst.
  apply IH; [exact Hrest|].
  destruct Hst as [Hb Hr]. split; [|apply runOp_requests, Hr].
  destruct op as [i b n v|i b n|id a|id reason]; cbn [runOp].
  - rewrite requestShares_keeps_businesses. exact Hb.
  - rewrite investorRequestShares_keeps_businesses. exact Hb.
  - apply approveShareRequest_keeps_bound; [|exact Hr|exact Hb].
    intros n ->. exact Hop.
  - rewrite rejectShareRequest_keeps_businesses. exact Hb.
Qed.

(** The theorem along the scenario, continued: a request for 30 shares,
    the approval of 20, a second approval, a rejection, another request. *)
Lemma share_calls_keep_inventory_witness :
  inventoryKept
    (fold_left runOp
       [InvestorRequest 9%nat 1%nat 30; Approve 1%nat (Some 20);
        Approve 1%nat None; Reject 1%nat None;
        Request 8%nat 1%nat 80 (Some (10 # 1))]
       st0).
Proof.
  apply share_calls_keep_inventory.
  - repeat constructor. cbn. lia.
  - split; repeat constructor; cbn; lia.
Defined.

End ShareOpsFacts.
